(** * The autonomous task manager of [scripts/core/autonomous_manager.py]

    A shallow embedding of the [AutonomousManager] class: the task records,
    the readiness selector [_find_ready_tasks], the sequential runner
    ([_execute_task], [_handle_task_error], [_check_task_completion],
    [start_autonomous_execution]) and the progress reporter
    ([_generate_progress_report], [_determine_current_phase],
    [_notify_orchestrator]).

    Python task objects are mutable and shared between the pending queue, the
    active dictionary and the completed history, so the model keeps an object
    store ([Heap]) and the three collections hold references into it.

    The later parts embed what the manager is fed by and what it calls: the
    planner [create_task_plan] with the [WorkflowAnalyzer] of
    [scripts/core/workflow_analyzer.py], and the [AgentCaller] of
    [scripts/core/agent_caller.py]. *)

From Stdlib Require Import List String ZArith QArith Bool Lia PeanoNat Sorted.
Import ListNotations.
Local Open Scope string_scope.
Local Close Scope Q_scope.

(** ** Enumerations *)

Inductive TaskStatus : Set :=
| PENDING | IN_PROGRESS | COMPLETED | FAILED | BLOCKED | CANCELLED.

Inductive TaskPriority : Set :=
| LOW | MEDIUM | HIGH | CRITICAL.

(** [agent_caller.AgentType] *)
Inductive AgentType : Set :=
| ORCHESTRATOR | PROJECT_ORGANIZER | CODEBASE_ANALYZER | CODEBASE_LOCATOR
| SECURITY_SPECIALIST | BACKEND_ARCHITECT | RUST_EXPERT_DEVELOPER
| COMPETITIVE_MARKET_ANALYST | WEB_SEARCH_RESEARCHER.

Definition AgentType_value (a : AgentType) : string :=
  match a with
  | ORCHESTRATOR => "orchestrator"
  | PROJECT_ORGANIZER => "project-organizer"
  | CODEBASE_ANALYZER => "codebase-analyzer"
  | CODEBASE_LOCATOR => "codebase-locator"
  | SECURITY_SPECIALIST => "security-specialist"
  | BACKEND_ARCHITECT => "backend-architect"
  | RUST_EXPERT_DEVELOPER => "rust-expert-developer"
  | COMPETITIVE_MARKET_ANALYST => "competitive-market-analyst"
  | WEB_SEARCH_RESEARCHER => "web-search-researcher"
  end.

Definition TaskStatus_eq_dec (a b : TaskStatus) : {a = b} + {a <> b}.
Proof. decide equality. Defined.

Definition TaskStatus_eqb (a b : TaskStatus) : bool :=
  if TaskStatus_eq_dec a b then true else false.

(** ** Task records

    The dataclass [AutonomousTask].  The wall-clock fields ([created_at],
    [started_at], [completed_at]) and the advisory lists ([skills_required],
    [commands_to_execute], [timeout_minutes]) are never read by the runner
    and are left out; [results] keeps the deliverables stored on success. *)

Record AutonomousTask : Set := mkTask {
  task_id : string;
  description : string;
  agent_type : AgentType;
  priority : TaskPriority;
  status : TaskStatus;
  dependencies : list string;
  expected_deliverables : list string;
  max_retry_attempts : Z;
  progress : Z;
  results : option (list string);
  error_log : list string;
  retry_count : Z
}.

(** Dataclass equality ([__eq__] compares the fields); this is what
    [list.remove] uses. *)
Definition AutonomousTask_eq_dec (a b : AutonomousTask) : {a = b} + {a <> b}.
Proof.
  decide equality;
    try apply Z.eq_dec; try apply string_dec;
    try (apply list_eq_dec; apply string_dec);
    try (decide equality; apply list_eq_dec; apply string_dec);
    decide equality.
Defined.

Definition with_status (s : TaskStatus) (t : AutonomousTask) : AutonomousTask :=
  mkTask (task_id t) (description t) (agent_type t) (priority t) s
         (dependencies t) (expected_deliverables t) (max_retry_attempts t)
         (progress t) (results t) (error_log t) (retry_count t).

Definition with_progress (p : Z) (t : AutonomousTask) : AutonomousTask :=
  mkTask (task_id t) (description t) (agent_type t) (priority t) (status t)
         (dependencies t) (expected_deliverables t) (max_retry_attempts t)
         p (results t) (error_log t) (retry_count t).

Definition with_results (r : option (list string)) (t : AutonomousTask)
  : AutonomousTask :=
  mkTask (task_id t) (description t) (agent_type t) (priority t) (status t)
         (dependencies t) (expected_deliverables t) (max_retry_attempts t)
         (progress t) r (error_log t) (retry_count t).

Definition with_error_log (l : list string) (t : AutonomousTask)
  : AutonomousTask :=
  mkTask (task_id t) (description t) (agent_type t) (priority t) (status t)
         (dependencies t) (expected_deliverables t) (max_retry_attempts t)
         (progress t) (results t) l (retry_count t).

Definition with_retry_count (n : Z) (t : AutonomousTask) : AutonomousTask :=
  mkTask (task_id t) (description t) (agent_type t) (priority t) (status t)
         (dependencies t) (expected_deliverables t) (max_retry_attempts t)
         (progress t) (results t) (error_log t) n.

(** ** The object store *)

Definition ref := nat.
Definition Heap := ref -> AutonomousTask.

Definition heap_set (h : Heap) (r : ref) (t : AutonomousTask) : Heap :=
  fun r' => if Nat.eqb r' r then t else h r'.

(** ** Execution reports *)

Module Report.
Record t : Set := mk {
  session_id : string;
  total_tasks : nat;
  completed_tasks : nat;
  failed_tasks : nat;
  blocked_tasks : nat;
  current_phase : string;
  next_actions : list string;
  issues_encountered : list string
}.
Definition with_current_phase (p : string) (r : t) : t :=
  mk (session_id r) (total_tasks r) (completed_tasks r) (failed_tasks r)
     (blocked_tasks r) p (next_actions r) (issues_encountered r).
Definition with_next_actions (l : list string) (r : t) : t :=
  mk (session_id r) (total_tasks r) (completed_tasks r) (failed_tasks r)
     (blocked_tasks r) (current_phase r) l (issues_encountered r).
End Report.

Definition ExecutionReport := Report.t.

(** ** Log entries ([_log_event]); the timestamp is not modelled *)

Inductive Json : Set :=
| JStr (s : string)
| JInt (z : Z)
| JList (l : list string).

Record LogEntry : Set := mkLog {
  event_type : string;
  log_session_id : string;
  data : list (string * Json)
}.

(** ** History variables

    Two append-only histories that no operation reads: every assignment to a
    task's [status] (with the value it overwrites and the identifiers of the
    completed history at that moment), and every report generated. *)

Record StatusWrite : Set := mkWrite {
  sw_task : ref;
  sw_old : TaskStatus;
  sw_new : TaskStatus;
  sw_completed_ids : list string
}.

(** ** The manager

    [World] is whatever the observers act on; a callback returns the new
    world and [Some e] when it raises an [Exception] whose text is [e]. *)

Definition Callback (World : Type) : Type :=
  ExecutionReport -> World -> World * option string.

Record AutonomousManager {World : Type} : Type := mkManager {
  session_id : string;
  heap : Heap;
  task_queue : list ref;
  active_tasks : list (string * ref);
  completed_tasks : list ref;
  orchestrator_callbacks : list (Callback World);
  execution_log : list LogEntry;
  status_history : list StatusWrite;
  reports_history : list ExecutionReport
}.
Arguments AutonomousManager : clear implicits.
Arguments mkManager {World}.

Section Operations.
Context {World : Type}.
Abbreviation Manager := (AutonomousManager World).

Definition set_heap (h : Heap) (m : Manager) : Manager :=
  mkManager (session_id m) h (task_queue m) (active_tasks m)
            (completed_tasks m) (orchestrator_callbacks m) (execution_log m)
            (status_history m) (reports_history m).

Definition set_task_queue (q : list ref) (m : Manager) : Manager :=
  mkManager (session_id m) (heap m) q (active_tasks m)
            (completed_tasks m) (orchestrator_callbacks m) (execution_log m)
            (status_history m) (reports_history m).

Definition set_active_tasks (a : list (string * ref)) (m : Manager) : Manager :=
  mkManager (session_id m) (heap m) (task_queue m) a
            (completed_tasks m) (orchestrator_callbacks m) (execution_log m)
            (status_history m) (reports_history m).

Definition set_completed_tasks (c : list ref) (m : Manager) : Manager :=
  mkManager (session_id m) (heap m) (task_queue m) (active_tasks m)
            c (orchestrator_callbacks m) (execution_log m)
            (status_history m) (reports_history m).

Definition set_orchestrator_callbacks (cbs : list (Callback World))
           (m : Manager) : Manager :=
  mkManager (session_id m) (heap m) (task_queue m) (active_tasks m)
            (completed_tasks m) cbs (execution_log m)
            (status_history m) (reports_history m).

Definition set_execution_log (l : list LogEntry) (m : Manager) : Manager :=
  mkManager (session_id m) (heap m) (task_queue m) (active_tasks m)
            (completed_tasks m) (orchestrator_callbacks m) l
            (status_history m) (reports_history m).

Definition set_status_history (l : list StatusWrite) (m : Manager) : Manager :=
  mkManager (session_id m) (heap m) (task_queue m) (active_tasks m)
            (completed_tasks m) (orchestrator_callbacks m) (execution_log m)
            l (reports_history m).

Definition set_reports_history (l : list ExecutionReport) (m : Manager)
  : Manager :=
  mkManager (session_id m) (heap m) (task_queue m) (active_tasks m)
            (completed_tasks m) (orchestrator_callbacks m) (execution_log m)
            (status_history m) l.

(** [__init__]: empty queue, dictionary, history, callbacks and log. *)
Definition AutonomousManager_init (sid : string) (h : Heap) : Manager :=
  mkManager sid h [] [] [] [] [] [] [].

Definition register_orchestrator_callback (cb : Callback World) (m : Manager)
  : Manager :=
  set_orchestrator_callbacks (orchestrator_callbacks m ++ [cb]) m.

Definition _log_event (ev : string) (d : list (string * Json)) (m : Manager)
  : Manager :=
  set_execution_log (execution_log m ++ [mkLog ev (session_id m) d]) m.

(** [add_tasks]: append each task and log it. *)
Definition add_tasks (tasks : list ref) (m : Manager) : Manager :=
  fold_left
    (fun m r =>
       _log_event "task_added"
         [("task_id", JStr (task_id (heap m r)));
          ("description", JStr (description (heap m r)));
          ("agent_type", JStr (AgentType_value (agent_type (heap m r))))]
         (set_task_queue (task_queue m ++ [r]) m))
    tasks m.

(** Mutation of one task object. *)
Definition update_task (r : ref) (f : AutonomousTask -> AutonomousTask)
           (m : Manager) : Manager :=
  set_heap (heap_set (heap m) r (f (heap m r))) m.

(** [{task.task_id for task in self.completed_tasks}] *)
Definition completed_task_ids (m : Manager) : list string :=
  map (fun r => task_id (heap m r)) (completed_tasks m).

(** [task.status = s], recorded in the status history. *)
Definition set_status (r : ref) (s : TaskStatus) (m : Manager) : Manager :=
  set_status_history
    (status_history m
       ++ [mkWrite r (status (heap m r)) s (completed_task_ids m)])
    (update_task r (with_status s) m).


(** ** Readiness selector *)

(** [list.remove(x)]: drop the first element equal to [x]; [None] stands for
    the [ValueError] raised when there is none. *)
Fixpoint list_remove (h : Heap) (x : AutonomousTask) (l : list ref)
  : option (list ref) :=
  match l with
  | [] => None
  | r :: l' =>
      if AutonomousTask_eq_dec (h r) x then Some l'
      else match list_remove h x l' with
           | Some l'' => Some (r :: l'')
           | None => None
           end
  end.

Definition mem_string (x : string) (l : list string) : bool :=
  existsb (String.eqb x) l.

(** [task.status == PENDING and all(dep in completed_task_ids ...)] *)
Definition is_ready (ids : list string) (t : AutonomousTask) : bool :=
  TaskStatus_eqb (status t) PENDING
  && forallb (fun dep_id => mem_string dep_id ids) (dependencies t).

(** The loop of [_find_ready_tasks] over the copy [self.task_queue[:]],
    carrying [ready_tasks] and the live queue. *)
Fixpoint scan_queue (h : Heap) (ids : list string) (copy : list ref)
         (ready_tasks queue : list ref) : option (list ref * list ref) :=
  match copy with
  | [] => Some (ready_tasks, queue)
  | r :: copy' =>
      if negb (TaskStatus_eqb (status (h r)) PENDING) then
        scan_queue h ids copy' ready_tasks queue
      else if forallb (fun dep_id => mem_string dep_id ids)
                      (dependencies (h r)) then
        match list_remove h (h r) queue with
        | Some queue' => scan_queue h ids copy' (ready_tasks ++ [r]) queue'
        | None => None
        end
      else scan_queue h ids copy' ready_tasks queue
  end.

Definition _find_ready_tasks (m : Manager) : option (list ref * Manager) :=
  match scan_queue (heap m) (completed_task_ids m) (task_queue m) []
                   (task_queue m) with
  | Some (ready_tasks, queue) => Some (ready_tasks, set_task_queue queue m)
  | None => None
  end.

(** ** Sequential runner *)

(** [d[k] = v] on an insertion-ordered dictionary. *)
Fixpoint dict_set (k : string) (v : ref) (d : list (string * ref))
  : list (string * ref) :=
  match d with
  | [] => [(k, v)]
  | (k', v') :: d' =>
      if String.eqb k' k then (k', v) :: d' else (k', v') :: dict_set k v d'
  end.

(** [del d[k]]; every key deleted by the manager was just read from [d]. *)
Definition dict_del (k : string) (d : list (string * ref))
  : list (string * ref) :=
  filter (fun kv => negb (String.eqb (fst kv) k)) d.

(** [_handle_task_error]; the clock prefix of the log line is not modelled. *)
Definition _handle_task_error (r : ref) (error : string) (m : Manager)
  : Manager :=
  let m1 := update_task r (fun t => with_error_log (error_log t ++ [error]) t) m in
  let m2 := update_task r (fun t => with_retry_count (retry_count t + 1) t) m1 in
  if (retry_count (heap m2 r) <? max_retry_attempts (heap m2 r))%Z then
    let m3 := set_status r PENDING m2 in
    let m4 := set_task_queue (task_queue m3 ++ [r]) m3 in
    _log_event "task_retry"
      [("task_id", JStr (task_id (heap m4 r)));
       ("retry_count", JInt (retry_count (heap m4 r)));
       ("error", JStr error)] m4
  else
    let m3 := set_status r FAILED m2 in
    _log_event "task_failed"
      [("task_id", JStr (task_id (heap m3 r)));
       ("final_error", JStr error);
       ("retry_count", JInt (retry_count (heap m3 r)))] m3.

(** [_execute_task].  [work t] is the outcome of the guarded calls
    ([_build_enhanced_prompt], [agent_caller.call_agent]) on the task as it
    stands: [None] when they return, [Some e] when they raise an exception
    whose text is [e]. *)
Definition _execute_task (work : AutonomousTask -> option string)
           (r : ref) (m : Manager) : Manager :=
  let m1 := set_status r IN_PROGRESS m in
  let m2 := set_active_tasks
              (dict_set (task_id (heap m1 r)) r (active_tasks m1)) m1 in
  let m3 := _log_event "task_started"
              [("task_id", JStr (task_id (heap m2 r)));
               ("agent_type", JStr (AgentType_value (agent_type (heap m2 r))));
               ("description", JStr (description (heap m2 r)))] m2 in
  match work (heap m3 r) with
  | None =>
      let m4 := update_task r (with_progress 50) m3 in
      let m5 := set_status r COMPLETED m4 in
      let m6 := update_task r (with_progress 100) m5 in
      let m7 := update_task r
                  (fun t => with_results (Some (expected_deliverables t)) t)
                  m6 in
      _log_event "task_completed"
        [("task_id", JStr (task_id (heap m7 r)));
         ("duration_seconds", JInt 2);
         ("deliverables", JList (expected_deliverables (heap m7 r)))] m7
  | Some e => _handle_task_error r e m3
  end.

Definition is_finished (h : Heap) (kv : string * ref) : bool :=
  match status (h (snd kv)) with
  | COMPLETED | FAILED => true
  | _ => false
  end.

(** [_check_task_completion] *)
Definition _check_task_completion (m : Manager) : Manager :=
  let finished := filter (is_finished (heap m)) (active_tasks m) in
  let m1 := set_completed_tasks (completed_tasks m ++ map snd finished) m in
  set_active_tasks
    (fold_left (fun d k => dict_del k d) (map fst finished) (active_tasks m1))
    m1.

(** ** Progress reporter *)

Definition count_status (h : Heap) (s : TaskStatus) (l : list ref) : nat :=
  List.length (filter (fun r => TaskStatus_eqb (status (h r)) s) l).

Definition Qltb (x y : Q) : bool := negb (Qle_bool y x).

(** [_determine_current_phase].  The float products [len * 0.5] and
    [len * 0.75] are exact for every list length below 2^51, and Python
    compares an int with a float exactly, so the tests are taken over the
    rationals. *)
Definition _determine_current_phase (m : Manager) : string :=
  let q := Z.of_nat (List.length (task_queue m)) in
  let a := Z.of_nat (List.length (active_tasks m)) in
  let c := Z.of_nat (List.length (completed_tasks m)) in
  match completed_tasks m with
  | [] => "Discovery & Planning"
  | _ :: _ =>
      if Qltb (inject_Z c) (inject_Z (q + a) + inject_Z c * (1 # 2))%Q
      then "Core Implementation"
      else if Qltb (inject_Z c) (inject_Z (q + a) + inject_Z c * (3 # 4))%Q
      then "Validation & Security"
      else "Integration & Completion"
  end.

(** [_determine_next_actions] *)
Definition _determine_next_actions (m : Manager) : list string :=
  match task_queue m, active_tasks m with
  | _ :: _, _ =>
      map (fun r => "Execute " ++ description (heap m r))
          (firstn 3 (task_queue m))
  | [], _ :: _ =>
      map (fun kv => "Complete " ++ description (heap m (snd kv)))
          (active_tasks m)
  | [], [] => ["Generate final deliverables"; "Prepare orchestrator handoff"]
  end.

(** [task.error_log[-1] for task in self.completed_tasks if task.error_log] *)
Definition last_errors (h : Heap) (l : list ref) : list string :=
  flat_map (fun r => match error_log (h r) with
                     | [] => []
                     | e :: es => [last es e]
                     end) l.

(** [_generate_progress_report]; [overall_progress] (a float),
    [recommendations], [resource_usage] and [timestamp] are not modelled. *)
Definition _generate_progress_report (m : Manager) : ExecutionReport :=
  let total := List.length (task_queue m) + List.length (active_tasks m)
               + List.length (completed_tasks m) in
  let completed := count_status (heap m) COMPLETED (completed_tasks m) in
  let failed := count_status (heap m) FAILED (completed_tasks m) in
  let blocked := count_status (heap m) BLOCKED (map snd (active_tasks m)) in
  Report.mk (session_id m) total completed failed blocked
            (_determine_current_phase m)
            (_determine_next_actions m)
            (last_errors (heap m) (completed_tasks m)).

(** [_generate_final_report] *)
Definition _generate_final_report (m : Manager) : ExecutionReport :=
  let report := _generate_progress_report m in
  let report := Report.with_current_phase "Completed" report in
  Report.with_next_actions
    ["Review deliverables"; "Validate results"; "Plan next iteration"] report.

(** [_notify_orchestrator]: one [try]/[except Exception] per callback. *)
Definition notify_one (report : ExecutionReport) (st : Manager * World)
           (callback : Callback World) : Manager * World :=
  match callback report (snd st) with
  | (w, None) => (fst st, w)
  | (w, Some e) =>
      (_log_event "orchestrator_notification_failed" [("error", JStr e)]
                  (fst st), w)
  end.

Definition _notify_orchestrator (report : ExecutionReport) (m : Manager)
           (w : World) : Manager * World :=
  fold_left (notify_one report) (orchestrator_callbacks m) (m, w).

(** Every report handed to the observers is first appended to the report
    history. *)
Definition emit_report (report : ExecutionReport) (m : Manager) (w : World)
  : Manager * World :=
  _notify_orchestrator report
    (set_reports_history (reports_history m ++ [report]) m) w.

(** ** The top-level loop *)

(** [while self.task_queue or self.active_tasks] *)
Definition loop_condition (m : Manager) : bool :=
  match task_queue m, active_tasks m with
  | [], [] => false
  | _, _ => true
  end.

(** One iteration of the loop body; [None] is an exception escaping it. *)
Definition loop_body (work : AutonomousTask -> option string)
           (m : Manager) (w : World) : option (Manager * World) :=
  match _find_ready_tasks m with
  | None => None
  | Some (ready_tasks, m1) =>
      let m2 := fold_left (fun m r => _execute_task work r m) ready_tasks m1 in
      let m3 := _check_task_completion m2 in
      match ready_tasks with
      | [] => Some (m3, w)
      | _ :: _ => Some (emit_report (_generate_progress_report m3) m3 w)
      end
  end.

(** How a run of the loop ends: the condition became false, an exception
    escaped, or the iteration budget ran out with the condition still true. *)
Inductive LoopResult : Type :=
| Exited (m : Manager) (w : World)
| Raised (m : Manager) (w : World)
| Running (m : Manager) (w : World).

Fixpoint execution_loop (work : AutonomousTask -> option string) (fuel : nat)
         (m : Manager) (w : World) : LoopResult :=
  if loop_condition m then
    match fuel with
    | O => Running m w
    | S fuel' =>
        match loop_body work m w with
        | None => Raised m w
        | Some (m', w') => execution_loop work fuel' m' w'
        end
    end
  else Exited m w.

Inductive Outcome : Type :=
| Returned (final_report : ExecutionReport) (m : Manager) (w : World)
| Aborted (m : Manager) (w : World)
| Unfinished (m : Manager) (w : World).

(** [start_autonomous_execution], with at most [fuel] loop iterations. *)
Definition start_autonomous_execution
           (work : AutonomousTask -> option string) (fuel : nat)
           (m : Manager) (w : World) : Outcome :=
  let m0 := _log_event "execution_started"
              [("total_tasks", JInt (Z.of_nat (List.length (task_queue m))));
               ("session_id", JStr (session_id m))] m in
  match execution_loop work fuel m0 w with
  | Exited m1 w1 =>
      let final_report := _generate_final_report m1 in
      let (m2, w2) := emit_report final_report m1 w1 in
      Returned final_report m2 w2
  | Raised m1 w1 => Aborted m1 w1
  | Running m1 w1 => Unfinished m1 w1
  end.

Definition manager_of (o : Outcome) : Manager :=
  match o with
  | Returned _ m _ | Aborted m _ | Unfinished m _ => m
  end.

(** A session: a fresh manager, its observers registered, its tasks added. *)
Definition new_session (sid : string) (h : Heap)
           (callbacks : list (Callback World)) (tasks : list ref) : Manager :=
  add_tasks tasks
    (fold_left (fun m cb => register_orchestrator_callback cb m) callbacks
               (AutonomousManager_init sid h)).

(** Number of attempts on a task: its [task_started] log entries. *)
Definition is_start_of (tid : string) (e : LogEntry) : bool :=
  String.eqb (event_type e) "task_started"
  && match data e with
     | ("task_id", JStr tid') :: _ => String.eqb tid' tid
     | _ => false
     end.

Definition attempts (tid : string) (m : Manager) : nat :=
  List.length (filter (is_start_of tid) (execution_log m)).

(** Number of log entries of one kind. *)
Definition event_count (ev : string) (m : Manager) : nat :=
  List.length (filter (fun e => String.eqb (event_type e) ev) (execution_log m)).

End Operations.

(** ** Concrete sessions used to exercise the model *)

Definition new_task (tid : string) (deps : list string) (max_retries : Z)
  : AutonomousTask :=
  mkTask tid ("do " ++ tid) ORCHESTRATOR HIGH PENDING deps [] max_retries 0
         None [] 0.

Definition always_succeeds : AutonomousTask -> option string :=
  fun _ => None.

Definition always_fails : AutonomousTask -> option string :=
  fun _ => Some "boom".

(** Task D of the retry scenario: no dependencies, two retries allowed. *)
Definition heap_D : Heap := fun _ => new_task "D" [] 2.

Definition session_D : AutonomousManager unit :=
  new_session "s" heap_D [] [0].

(** A, then B and C which both wait for A. *)
Definition heap_ABC : Heap :=
  fun r => match r with
           | 0 => new_task "A" [] 3
           | 1 => new_task "B" ["A"] 3
           | _ => new_task "C" ["A"] 3
           end.

Definition session_ABC : AutonomousManager unit :=
  new_session "s" heap_ABC [] [0; 1; 2].

(** One task waiting for an identifier that no task carries. *)
Definition heap_blocked : Heap := fun _ => new_task "B" ["ghost"] 3.

Definition session_blocked : AutonomousManager unit :=
  new_session "s" heap_blocked [] [0].

(** Observers that record the reports they see; the second one raises. *)
Definition recorder (name : string) (raises : bool)
  : Callback (list (string * ExecutionReport)) :=
  fun report w =>
    ((w ++ [(name, report)])%list, if raises then Some (name ++ " failed") else None).

Definition session_observed : AutonomousManager (list (string * ExecutionReport)) :=
  new_session "s" heap_ABC
    [recorder "first" false; recorder "second" true; recorder "third" false]
    [0; 1; 2].

(** A manager caught with one task pending and one in the completed
    history. *)
Definition manager_half : AutonomousManager unit :=
  mkManager "s" (fun r => match r with
                          | 0 => with_status COMPLETED (new_task "A" [] 3)
                          | _ => new_task "B" ["A"] 3
                          end)
            [1] [] [0] [] [] [] [].

(** A task popped from the queue, with three attempts allowed. *)
Definition manager_retry : AutonomousManager unit :=
  mkManager "s" (fun _ => new_task "D" [] 3) [] [] [] [] [] [] [].

(** * Properties *)

Local Open Scope list_scope.

Section Properties.
Context {World : Type}.
Abbreviation Manager := (AutonomousManager World).
Implicit Types (m : Manager) (w : World) (r : ref) (h : Heap).
Implicit Type work : AutonomousTask -> option string.

(** ** The object store *)

Lemma heap_set_same h r t : heap_set h r t r = t.
Proof. unfold heap_set. now rewrite Nat.eqb_refl. Qed.

Lemma heap_set_other h r t r' : r' <> r -> heap_set h r t r' = h r'.
Proof.
  intros Hne. unfold heap_set.
  destruct (Nat.eqb_spec r' r); [contradiction | reflexivity].
Qed.

Lemma TaskStatus_eqb_eq a b : TaskStatus_eqb a b = true <-> a = b.
Proof.
  unfold TaskStatus_eqb. destruct (TaskStatus_eq_dec a b); split; congruence.
Qed.

(** ** Readiness selector: the scan is a partition of the queue *)

Definition ready_refs m : list ref :=
  filter (fun r => is_ready (completed_task_ids m) (heap m r)) (task_queue m).

Definition waiting_refs m : list ref :=
  filter (fun r => negb (is_ready (completed_task_ids m) (heap m r)))
         (task_queue m).

Lemma list_remove_first h x pre r rest :
  (forall p, In p pre -> h p <> x) -> h r = x ->
  list_remove h x (pre ++ r :: rest) = Some (pre ++ rest).
Proof.
  intros Hpre Hr. induction pre as [|p pre IH]; simpl.
  - destruct (AutonomousTask_eq_dec (h r) x); [reflexivity | contradiction].
  - destruct (AutonomousTask_eq_dec (h p) x) as [E|_].
    + exfalso. apply (Hpre p); [now left | exact E].
    + rewrite IH; [reflexivity|]. intros q Hq. apply Hpre. now right.
Qed.

Lemma scan_queue_partition h ids copy : forall ready pre,
  (forall p, In p pre -> is_ready ids (h p) = false) ->
  scan_queue h ids copy ready (pre ++ copy)
  = Some (ready ++ filter (fun r => is_ready ids (h r)) copy,
          pre ++ filter (fun r => negb (is_ready ids (h r))) copy).
Proof.
  induction copy as [|r copy IH]; intros ready pre Hpre; simpl.
  - now rewrite !app_nil_r.
  - assert (Hstep : forall acc,
      is_ready ids (h r) = false ->
      scan_queue h ids copy acc (pre ++ r :: copy)
      = Some (acc ++ filter (fun r => is_ready ids (h r)) copy,
              pre ++ r :: filter (fun r => negb (is_ready ids (h r))) copy)).
    { intros acc Hr.
      replace (pre ++ r :: copy) with ((pre ++ [r]) ++ copy)
        by (rewrite <- app_assoc; reflexivity).
      rewrite IH.
      - rewrite <- app_assoc; reflexivity.
      - intros p Hp. apply in_app_or in Hp as [Hp|[<-|[]]]; auto. }
    destruct (is_ready ids (h r)) eqn:Hr; simpl.
    + pose proof Hr as Hr'. unfold is_ready in Hr'.
      apply andb_prop in Hr' as [Hst Hdeps]. rewrite Hst, Hdeps. simpl.
      rewrite (list_remove_first h (h r) pre r copy); [| |reflexivity].
      * rewrite IH by assumption. now rewrite <- app_assoc.
      * intros p Hp E. specialize (Hpre p Hp). rewrite E in Hpre. congruence.
    + pose proof Hr as Hr'. unfold is_ready in Hr'.
      destruct (TaskStatus_eqb (status (h r)) PENDING); simpl in *.
      * rewrite Hr'. now apply Hstep.
      * now apply Hstep.
Qed.

(** The selector never raises: it returns the ready references in queue
    order and leaves the others, in order, in the queue. *)
Lemma _find_ready_tasks_eq m :
  _find_ready_tasks m = Some (ready_refs m, set_task_queue (waiting_refs m) m).
Proof.
  unfold _find_ready_tasks.
  pose proof (scan_queue_partition (heap m) (completed_task_ids m)
                (task_queue m) [] [] (fun p (Hp : In p []) => match Hp with end))
    as Hscan.
  simpl in Hscan. rewrite Hscan. reflexivity.
Qed.

(** ** One attempt on a task *)

(** Status a task is left in by one attempt. *)
Definition attempt_result work (t : AutonomousTask) : TaskStatus :=
  match work (with_status IN_PROGRESS t) with
  | None => COMPLETED
  | Some _ =>
      if (retry_count t + 1 <? max_retry_attempts t)%Z then PENDING else FAILED
  end.

Definition attempt_retry_count work (t : AutonomousTask) : Z :=
  match work (with_status IN_PROGRESS t) with
  | None => retry_count t
  | Some _ => (retry_count t + 1)%Z
  end.

Lemma completed_task_ids_ext m m' :
  completed_tasks m' = completed_tasks m ->
  (forall r, task_id (heap m' r) = task_id (heap m r)) ->
  completed_task_ids m' = completed_task_ids m.
Proof.
  intros Hc Hid. unfold completed_task_ids. rewrite Hc.
  apply map_ext. intros r. apply Hid.
Qed.

Record attempt_effect work r m m' : Prop := {
  ae_session_id : session_id m' = session_id m;
  ae_completed : completed_tasks m' = completed_tasks m;
  ae_callbacks : orchestrator_callbacks m' = orchestrator_callbacks m;
  ae_reports : reports_history m' = reports_history m;
  ae_active :
    active_tasks m' = dict_set (task_id (heap m r)) r (active_tasks m);
  ae_other : forall r', r' <> r -> heap m' r' = heap m r';
  ae_task_id : forall r', task_id (heap m' r') = task_id (heap m r');
  ae_dependencies :
    forall r', dependencies (heap m' r') = dependencies (heap m r');
  ae_max_retry :
    forall r', max_retry_attempts (heap m' r') = max_retry_attempts (heap m r');
  ae_status : status (heap m' r) = attempt_result work (heap m r);
  ae_retry_count :
    retry_count (heap m' r) = attempt_retry_count work (heap m r);
  ae_queue :
    task_queue m' =
    match attempt_result work (heap m r) with
    | PENDING => task_queue m ++ [r]
    | _ => task_queue m
    end;
  ae_history :
    status_history m' =
    status_history m
      ++ [mkWrite r (status (heap m r)) IN_PROGRESS (completed_task_ids m);
          mkWrite r IN_PROGRESS (attempt_result work (heap m r))
                  (completed_task_ids m)];
  ae_attempts :
    forall tid,
      attempts tid m' =
      attempts tid m + (if String.eqb (task_id (heap m r)) tid then 1 else 0)
}.

Lemma filter_app_one {A} (f : A -> bool) (l : list A) (x : A) :
  filter f (l ++ [x]) = filter f l ++ (if f x then [x] else []).
Proof. rewrite filter_app. reflexivity. Qed.

Lemma _execute_task_effect work r m :
  attempt_effect work r m (_execute_task work r m).
Proof.
  destruct m as [sid h q a c cbs log sh rh].
  unfold _execute_task, _handle_task_error.
  cbn -[heap_set Z.ltb Z.add String.eqb Nat.eqb].
  unfold heap_set. rewrite ?Nat.eqb_refl. 
  cbn -[Z.ltb Z.add String.eqb Nat.eqb].
  destruct (work (with_status IN_PROGRESS (h r))) as [e|] eqn:Hw;
    [destruct (retry_count (h r) + 1 <? max_retry_attempts (h r))%Z eqn:Hlt|];
    (constructor;
     cbn -[Z.ltb Z.add String.eqb Nat.eqb];
     unfold heap_set; rewrite ?Nat.eqb_refl;
     cbn -[Z.ltb Z.add String.eqb Nat.eqb];
     unfold attempt_result, attempt_retry_count; rewrite ?Hw, ?Hlt;
     try reflexivity).
  all: try (intros r' Hne; destruct (Nat.eqb_spec r' r);
            [contradiction|reflexivity]).
  all: try (intros r'; destruct (Nat.eqb_spec r' r);
            [subst; reflexivity|reflexivity]).
  all: try (rewrite <- app_assoc; simpl; do 4 f_equal; apply map_ext;
            intros r'; destruct (Nat.eqb_spec r' r);
            [subst; reflexivity|reflexivity]).
  all: intros tid; unfold attempts;
    cbn -[Z.ltb Z.add String.eqb Nat.eqb filter];
    rewrite !filter_app, !length_app; cbn;
    destruct (String.eqb (task_id (h r)) tid); cbn; lia.
Qed.


(** ** Dictionary operations *)

Lemma dict_set_In k v d : In (k, v) (dict_set k v d).
Proof.
  induction d as [|[k' v'] d IH]; simpl; [now left|].
  destruct (String.eqb_spec k' k); [subst; now left | now right].
Qed.

Lemma dict_set_In_inv k v d kv :
  In kv (dict_set k v d) -> In kv d \/ snd kv = v.
Proof.
  induction d as [|[k' v'] d IH]; simpl.
  - intros [<-|[]]. now right.
  - destruct (String.eqb_spec k' k); simpl.
    + intros [<-|H]; [now right | left; now right].
    + intros [<-|H]; [left; now left|].
      destruct (IH H); [left; now right | now right].
Qed.

Lemma dict_set_keys k v d :
  In k (map fst d) -> map fst (dict_set k v d) = map fst d.
Proof.
  induction d as [|[k' v'] d IH]; simpl; [intros []|].
  destruct (String.eqb_spec k' k); simpl; [reflexivity|].
  intros [E|H]; [contradiction | now rewrite IH].
Qed.

Lemma dict_set_keys_fresh k v d :
  ~ In k (map fst d) -> map fst (dict_set k v d) = map fst d ++ [k].
Proof.
  induction d as [|[k' v'] d IH]; simpl; [reflexivity|].
  intros Hk. destruct (String.eqb_spec k' k); simpl.
  - exfalso. apply Hk. now left.
  - rewrite IH; [reflexivity|]. intros H. apply Hk. now right.
Qed.

Lemma dict_set_NoDup k v d :
  NoDup (map fst d) -> NoDup (map fst (dict_set k v d)).
Proof.
  intros Hd. destruct (in_dec string_dec k (map fst d)) as [Hin|Hout].
  - now rewrite dict_set_keys.
  - rewrite dict_set_keys_fresh by assumption.
    apply NoDup_app; [assumption | repeat constructor; intros [] |].
    intros x Hx [<-|[]]. contradiction.
Qed.

Lemma dict_set_other k v d kv :
  In kv d -> fst kv <> k -> In kv (dict_set k v d).
Proof.
  induction d as [|[k' v'] d IH]; simpl; [intros []|].
  intros [<-|H] Hne; simpl in *.
  - destruct (String.eqb_spec k' k); [contradiction | now left].
  - destruct (String.eqb_spec k' k); right; [assumption | now apply IH].
Qed.

Lemma dict_del_all_In ks : forall d kv,
  In kv (fold_left (fun d k => dict_del k d) ks d)
  <-> In kv d /\ ~ In (fst kv) ks.
Proof.
  induction ks as [|k ks IH]; intros d kv; simpl.
  - tauto.
  - rewrite IH. unfold dict_del. rewrite filter_In.
    destruct (String.eqb_spec (fst kv) k) as [E|E]; simpl; split.
    + intros [[_ H] _]. discriminate.
    + intros [_ H]. exfalso. apply H. left. now symmetry.
    + intros [[H _] Hn]. split; [assumption|]. intros [E'|H']; [|contradiction].
      apply E. now symmetry.
    + intros [H Hn]. repeat split; try assumption. intros H'. apply Hn. now right.
Qed.

Lemma NoDup_keys_functional (d : list (string * ref)) k v v' :
  NoDup (map fst d) -> In (k, v) d -> In (k, v') d -> v = v'.
Proof.
  induction d as [|[k0 v0] d IH]; simpl; [intros _ []|].
  intros Hnd H1 H2. inversion Hnd as [|? ? Hk0 Hnd']; subst.
  destruct H1 as [E1|H1], H2 as [E2|H2].
  - congruence.
  - inversion E1; subst. exfalso. apply Hk0.
    apply (in_map fst) in H2. exact H2.
  - inversion E2; subst. exfalso. apply Hk0.
    apply (in_map fst) in H1. exact H1.
  - now apply IH.
Qed.

(** ** Reconciliation of the active set *)

Definition finished_status (s : TaskStatus) : Prop :=
  s = COMPLETED \/ s = FAILED.

Lemma is_finished_iff h kv :
  is_finished h kv = true <-> finished_status (status (h (snd kv))).
Proof.
  unfold is_finished, finished_status.
  destruct (status (h (snd kv))); split; intros H; try reflexivity;
    try discriminate; try (now left); try (now right);
    destruct H; discriminate.
Qed.

Record check_effect m m' : Prop := {
  ce_session_id : session_id m' = session_id m;
  ce_heap : heap m' = heap m;
  ce_queue : task_queue m' = task_queue m;
  ce_callbacks : orchestrator_callbacks m' = orchestrator_callbacks m;
  ce_log : execution_log m' = execution_log m;
  ce_history : status_history m' = status_history m;
  ce_reports : reports_history m' = reports_history m;
  ce_completed :
    completed_tasks m' =
    completed_tasks m
      ++ map snd (filter (is_finished (heap m)) (active_tasks m));
  ce_active :
    forall kv, In kv (active_tasks m') <->
               In kv (active_tasks m)
               /\ ~ In (fst kv)
                       (map fst (filter (is_finished (heap m)) (active_tasks m)))
}.

Lemma _check_task_completion_effect m :
  check_effect m (_check_task_completion m).
Proof.
  destruct m as [sid h q a c cbs log sh rh].
  constructor; try reflexivity.
  intros kv. unfold _check_task_completion. cbn. apply dict_del_all_In.
Qed.

(** With distinct keys, an entry leaves the dictionary exactly when its task
    is finished. *)
Lemma _check_task_completion_active m kv :
  NoDup (map fst (active_tasks m)) ->
  (In kv (active_tasks (_check_task_completion m))
   <-> In kv (active_tasks m) /\ is_finished (heap m) kv = false).
Proof.
  intros Hnd. rewrite (ce_active _ _ (_check_task_completion_effect m)).
  split; intros [Hin H]; split; try assumption.
  - destruct (is_finished (heap m) kv) eqn:E; [|reflexivity].
    exfalso. apply H. apply in_map. apply filter_In. now split.
  - intros Hk. apply in_map_iff in Hk as [[k' v'] [Ek Hk]].
    apply filter_In in Hk as [Hk Hfin]. simpl in Ek. subst k'.
    destruct kv as [k v]. simpl in *.
    assert (v = v') by (eapply NoDup_keys_functional; eauto). subst v'.
    unfold is_finished in *. simpl in *. congruence.
Qed.

(** ** Notification of the observers *)

(** Texts of the exceptions raised by the callbacks, in call order. *)
Fixpoint raised_errors (report : ExecutionReport)
         (callbacks : list (Callback World)) (w : World) : list string :=
  match callbacks with
  | [] => []
  | callback :: rest =>
      match callback report w with
      | (w', Some e) => e :: raised_errors report rest w'
      | (w', None) => raised_errors report rest w'
      end
  end.

Definition failure_entry (sid : string) (e : string) : LogEntry :=
  mkLog "orchestrator_notification_failed" sid [("error", JStr e)].

Lemma notify_fold report callbacks : forall m w,
  fold_left (notify_one report) callbacks (m, w)
  = (set_execution_log
       (execution_log m
          ++ map (failure_entry (session_id m))
                 (raised_errors report callbacks w)) m,
     fold_left (fun w callback => fst (callback report w)) callbacks w).
Proof.
  induction callbacks as [|cb cbs IH]; intros m w; simpl.
  - destruct m; unfold set_execution_log; simpl. now rewrite app_nil_r.
  - unfold notify_one at 2. simpl.
    destruct (cb report w) as [w' [e|]]; simpl; rewrite IH.
    + destruct m; unfold set_execution_log, _log_event; simpl.
      now rewrite <- app_assoc.
    + reflexivity.
Qed.

Lemma _notify_orchestrator_eq report m w :
  _notify_orchestrator report m w
  = (set_execution_log
       (execution_log m
          ++ map (failure_entry (session_id m))
                 (raised_errors report (orchestrator_callbacks m) w)) m,
     fold_left (fun w callback => fst (callback report w))
               (orchestrator_callbacks m) w).
Proof. apply notify_fold. Qed.

(** [emit_report] touches the log and the report history only. *)
Record emit_effect report m m' : Prop := {
  em_session_id : session_id m' = session_id m;
  em_heap : heap m' = heap m;
  em_queue : task_queue m' = task_queue m;
  em_active : active_tasks m' = active_tasks m;
  em_completed : completed_tasks m' = completed_tasks m;
  em_callbacks : orchestrator_callbacks m' = orchestrator_callbacks m;
  em_history : status_history m' = status_history m;
  em_reports : reports_history m' = reports_history m ++ [report]
}.

Lemma emit_report_effect report m w :
  emit_effect report m (fst (emit_report report m w)).
Proof.
  unfold emit_report. rewrite _notify_orchestrator_eq.
  destruct m; constructor; reflexivity.
Qed.

(** ** The loop body, with the selector resolved *)

Definition run_ready work (l : list ref) m : Manager :=
  fold_left (fun m r => _execute_task work r m) l m.

Definition after_tick work m : Manager :=
  _check_task_completion
    (run_ready work (ready_refs m) (set_task_queue (waiting_refs m) m)).

Lemma loop_body_eq work m w :
  loop_body work m w
  = Some (match ready_refs m with
          | [] => (after_tick work m, w)
          | _ :: _ =>
              emit_report (_generate_progress_report (after_tick work m))
                          (after_tick work m) w
          end).
Proof.
  unfold loop_body. rewrite _find_ready_tasks_eq.
  unfold after_tick, run_ready. destruct (ready_refs m); reflexivity.
Qed.

Lemma run_ready_invariant work (Q : list ref -> Manager -> Prop) :
  (forall r rest m, Q (r :: rest) m -> Q rest (_execute_task work r m)) ->
  forall l m, Q l m -> Q [] (run_ready work l m).
Proof.
  intros Hstep l. induction l as [|r l IH]; intros m HQ; simpl.
  - exact HQ.
  - apply IH. now apply Hstep.
Qed.

Definition loop_manager (res : @LoopResult World) : Manager :=
  match res with
  | Exited m _ | Raised m _ | Running m _ => m
  end.

Lemma execution_loop_invariant work (P : Manager -> Prop) :
  (forall m w m' w',
      P m -> loop_condition m = true ->
      loop_body work m w = Some (m', w') -> P m') ->
  forall fuel m w, P m -> P (loop_manager (execution_loop work fuel m w)).
Proof.
  intros Hstep fuel. induction fuel as [|fuel IH]; intros m w HP; simpl.
  - destruct (loop_condition m); exact HP.
  - destruct (loop_condition m) eqn:Hc; [|exact HP].
    destruct (loop_body work m w) as [[m' w']|] eqn:Hb; [|exact HP].
    apply IH. eapply Hstep; eauto.
Qed.

(** The loop never lets an exception escape. *)
Lemma execution_loop_not_raised work fuel : forall m w m' w',
  execution_loop work fuel m w <> Raised m' w'.
Proof.
  induction fuel as [|fuel IH]; intros m w m' w'; simpl.
  - destruct (loop_condition m); discriminate.
  - destruct (loop_condition m); [|discriminate].
    rewrite loop_body_eq.
    destruct (ready_refs m); [apply IH|].
    destruct (emit_report _ _ _). apply IH.
Qed.

(** ** What one attempt can leave behind *)

Lemma attempt_result_cases work t :
  attempt_result work t = COMPLETED \/ attempt_result work t = PENDING
  \/ attempt_result work t = FAILED.
Proof.
  unfold attempt_result. destruct (work _); [|now left].
  destruct (_ <? _)%Z; [right; now left | right; now right].
Qed.

(** ** Invariant of the task collections

    Members of the completed history are finished, and no member of the
    active dictionary is blocked. *)

Definition settled m : Prop :=
  (forall r, In r (completed_tasks m) -> finished_status (status (heap m r)))
  /\ (forall kv, In kv (active_tasks m) -> status (heap m (snd kv)) <> BLOCKED).

Lemma _execute_task_settled work r m :
  ~ In r (completed_tasks m) -> settled m -> settled (_execute_task work r m).
Proof.
  intros Hr [Hc Ha]. pose proof (_execute_task_effect work r m) as E.
  split.
  - intros r' Hr'. rewrite (ae_completed _ _ _ _ E) in Hr'.
    rewrite (ae_other _ _ _ _ E); [now apply Hc|]. intros ->. contradiction.
  - intros kv Hkv. rewrite (ae_active _ _ _ _ E) in Hkv.
    destruct (Nat.eq_dec (snd kv) r) as [->|Hne].
    + rewrite (ae_status _ _ _ _ E).
      destruct (attempt_result_cases work (heap m r)) as [->|[->| ->]];
        discriminate.
    + rewrite (ae_other _ _ _ _ E) by assumption.
      apply dict_set_In_inv in Hkv as [Hkv|Hkv]; [now apply Ha | contradiction].
Qed.

Lemma run_ready_settled work l m :
  (forall r, In r l -> ~ In r (completed_tasks m)) ->
  settled m -> settled (run_ready work l m).
Proof.
  intros Hl Hs.
  apply (run_ready_invariant work
           (fun l m' => settled m' /\ completed_tasks m' = completed_tasks m
                        /\ forall r, In r l -> ~ In r (completed_tasks m))
           ) with (l := l) (m := m); [|now auto].
  intros r rest m' (Hs' & Hc' & Hrest). split; [|split].
  - apply _execute_task_settled; [|assumption].
    rewrite Hc'. apply Hrest. now left.
  - now rewrite (ae_completed _ _ _ _ (_execute_task_effect work r m')).
  - intros r' Hr'. apply Hrest. now right.
Qed.

Lemma is_ready_pending ids t : is_ready ids t = true -> status t = PENDING.
Proof.
  unfold is_ready. intros H. apply andb_prop in H as [H _].
  now apply TaskStatus_eqb_eq.
Qed.

Lemma is_ready_dependencies ids t :
  is_ready ids t = true -> forall d, In d (dependencies t) -> In d ids.
Proof.
  unfold is_ready. intros H d Hd. apply andb_prop in H as [_ H].
  rewrite forallb_forall in H. specialize (H d Hd).
  unfold mem_string in H. apply existsb_exists in H as [x [Hx E]].
  apply String.eqb_eq in E. now subst.
Qed.

Lemma _check_task_completion_settled m :
  settled m -> settled (_check_task_completion m).
Proof.
  intros [Hc Ha]. pose proof (_check_task_completion_effect m) as E.
  split.
  - intros r Hr. rewrite (ce_heap _ _ E).
    rewrite (ce_completed _ _ E) in Hr. apply in_app_or in Hr as [Hr|Hr].
    + now apply Hc.
    + apply in_map_iff in Hr as [kv [<- Hkv]].
      apply filter_In in Hkv as [_ Hkv]. now apply is_finished_iff.
  - intros kv Hkv. rewrite (ce_heap _ _ E).
    apply (ce_active _ _ E) in Hkv as [Hkv _]. now apply Ha.
Qed.

Lemma after_tick_settled work m : settled m -> settled (after_tick work m).
Proof.
  intros Hs. unfold after_tick. apply _check_task_completion_settled.
  apply run_ready_settled.
  - intros r Hr Hc. apply filter_In in Hr as [_ Hr].
    apply is_ready_pending in Hr. destruct Hs as [Hs _].
    destruct (Hs r Hc) as [E|E]; simpl in *; congruence.
  - destruct m; exact Hs.
Qed.

(** ** Fresh sessions *)

Record fresh_session (h : Heap) (callbacks : list (Callback World))
       (tasks : list ref) m : Prop := {
  fs_heap : heap m = h;
  fs_queue : task_queue m = tasks;
  fs_active : active_tasks m = [];
  fs_completed : completed_tasks m = [];
  fs_callbacks : orchestrator_callbacks m = callbacks;
  fs_history : status_history m = [];
  fs_reports : reports_history m = []
}.

Lemma add_tasks_fields tasks : forall m,
  let m' := add_tasks tasks m in
  heap m' = heap m /\ task_queue m' = task_queue m ++ tasks
  /\ active_tasks m' = active_tasks m
  /\ completed_tasks m' = completed_tasks m
  /\ orchestrator_callbacks m' = orchestrator_callbacks m
  /\ status_history m' = status_history m
  /\ reports_history m' = reports_history m.
Proof.
  induction tasks as [|r tasks IH]; intros m; simpl.
  - rewrite app_nil_r. repeat split.
  - specialize (IH (_log_event "task_added"
         [("task_id", JStr (task_id (heap m r)));
          ("description", JStr (description (heap m r)));
          ("agent_type", JStr (AgentType_value (agent_type (heap m r))))]
         (set_task_queue (task_queue m ++ [r]) m))).
    simpl in IH. unfold add_tasks in *.
    destruct IH as (H1 & H2 & H3 & H4 & H5 & H6 & H7).
    rewrite H1, H2, H3, H4, H5, H6, H7. simpl.
    rewrite <- app_assoc. repeat split.
Qed.

Lemma register_callbacks_fields callbacks : forall m,
  let m' := fold_left (fun m cb => register_orchestrator_callback cb m)
                      callbacks m in
  heap m' = heap m /\ task_queue m' = task_queue m
  /\ active_tasks m' = active_tasks m
  /\ completed_tasks m' = completed_tasks m
  /\ orchestrator_callbacks m' = orchestrator_callbacks m ++ callbacks
  /\ status_history m' = status_history m
  /\ reports_history m' = reports_history m.
Proof.
  induction callbacks as [|cb cbs IH]; intros m; simpl.
  - rewrite app_nil_r. repeat split.
  - specialize (IH (register_orchestrator_callback cb m)). simpl in IH.
    destruct IH as (H1 & H2 & H3 & H4 & H5 & H6 & H7).
    rewrite H1, H2, H3, H4, H5, H6, H7. simpl.
    rewrite <- app_assoc. repeat split.
Qed.

Lemma new_session_fresh sid h callbacks tasks :
  fresh_session h callbacks tasks (new_session sid h callbacks tasks).
Proof.
  unfold new_session.
  destruct (add_tasks_fields tasks
              (fold_left (fun m cb => register_orchestrator_callback cb m)
                         callbacks (AutonomousManager_init sid h)))
    as (H1 & H2 & H3 & H4 & H5 & H6 & H7).
  destruct (register_callbacks_fields callbacks (AutonomousManager_init sid h))
    as (G1 & G2 & G3 & G4 & G5 & G6 & G7).
  simpl in G1, G2, G3, G4, G5, G6, G7.
  constructor; try congruence.
  rewrite H2, G2. reflexivity.
Qed.

(** ** Counts in a report *)

Definition report_sum (report : ExecutionReport) : nat :=
  Report.completed_tasks report + Report.failed_tasks report.

Lemma count_finished h l :
  (forall r, In r l -> finished_status (status (h r))) ->
  count_status h COMPLETED l + count_status h FAILED l = List.length l.
Proof.
  unfold count_status. induction l as [|r l IH]; intros H; simpl; [reflexivity|].
  assert (IH' := IH (fun r' Hr' => H r' (or_intror Hr'))).
  destruct (H r (or_introl eq_refl)) as [E|E]; rewrite E; simpl; lia.
Qed.

Lemma count_blocked h l :
  (forall r, In r l -> status (h r) <> BLOCKED) ->
  count_status h BLOCKED l = 0.
Proof.
  unfold count_status. induction l as [|r l IH]; intros H; simpl; [reflexivity|].
  assert (IH' := IH (fun r' Hr' => H r' (or_intror Hr'))).
  assert (Hr := H r (or_introl eq_refl)).
  destruct (status (h r)); simpl; try assumption. contradiction.
Qed.

Lemma progress_report_settled m :
  settled m ->
  Report.blocked_tasks (_generate_progress_report m) = 0
  /\ report_sum (_generate_progress_report m) = List.length (completed_tasks m).
Proof.
  intros [Hc Ha]. unfold report_sum. simpl. split.
  - apply count_blocked. intros r Hr. apply in_map_iff in Hr as [kv [<- Hkv]].
    now apply Ha.
  - now apply count_finished.
Qed.

Lemma final_report_counts m :
  Report.blocked_tasks (_generate_final_report m)
  = Report.blocked_tasks (_generate_progress_report m)
  /\ report_sum (_generate_final_report m)
     = report_sum (_generate_progress_report m).
Proof. split; reflexivity. Qed.

(** ** Invariant of a session *)

Definition writes_ok m : Prop :=
  Forall (fun wr => sw_new wr <> BLOCKED /\ sw_new wr <> CANCELLED)
         (status_history m).

Definition reports_ok m : Prop :=
  Forall (fun report =>
            Report.blocked_tasks report = 0
            /\ report_sum report <= List.length (completed_tasks m))
         (reports_history m)
  /\ StronglySorted le (map report_sum (reports_history m)).

Definition session_inv m : Prop := settled m /\ writes_ok m /\ reports_ok m.

Lemma StronglySorted_snoc (l : list nat) (y : nat) :
  StronglySorted le l -> Forall (fun x => x <= y) l ->
  StronglySorted le (l ++ [y]).
Proof.
  induction l as [|x l IH]; intros Hs Hf; simpl.
  - repeat constructor.
  - inversion Hs; subst. inversion Hf; subst. constructor.
    + now apply IH.
    + apply Forall_app. split; [assumption | now repeat constructor].
Qed.

Lemma _execute_task_writes_ok work r m :
  writes_ok m -> writes_ok (_execute_task work r m).
Proof.
  unfold writes_ok. intros H.
  rewrite (ae_history _ _ _ _ (_execute_task_effect work r m)).
  apply Forall_app. split; [assumption|].
  repeat constructor; simpl; try discriminate;
    destruct (attempt_result_cases work (heap m r)) as [->|[->| ->]];
    discriminate.
Qed.

Lemma run_ready_frame work l m :
  completed_tasks (run_ready work l m) = completed_tasks m
  /\ reports_history (run_ready work l m) = reports_history m
  /\ (writes_ok m -> writes_ok (run_ready work l m)).
Proof.
  apply (run_ready_invariant work
           (fun _ m' => completed_tasks m' = completed_tasks m
                        /\ reports_history m' = reports_history m
                        /\ (writes_ok m -> writes_ok m'))); [|now auto].
  intros r rest m' (Hc & Hr & Hw).
  pose proof (_execute_task_effect work r m') as E.
  rewrite (ae_completed _ _ _ _ E), (ae_reports _ _ _ _ E).
  repeat split; try assumption.
  intros H. apply _execute_task_writes_ok. now apply Hw.
Qed.

Lemma after_tick_frame work m :
  reports_history (after_tick work m) = reports_history m
  /\ List.length (completed_tasks m)
     <= List.length (completed_tasks (after_tick work m))
  /\ (writes_ok m -> writes_ok (after_tick work m)).
Proof.
  unfold after_tick.
  set (m1 := set_task_queue (waiting_refs m) m).
  destruct (run_ready_frame work (ready_refs m) m1) as (Hc & Hr & Hw).
  pose proof (_check_task_completion_effect (run_ready work (ready_refs m) m1))
    as E.
  rewrite (ce_reports _ _ E), (ce_completed _ _ E), Hr, Hc.
  unfold writes_ok in *. rewrite (ce_history _ _ E).
  repeat split.
  - subst m1. simpl. rewrite length_app. lia.
  - intros H. apply Hw. exact H.
Qed.

Lemma reports_ok_grow (rh : list ExecutionReport) (n n' : nat) :
  n <= n' ->
  Forall (fun report =>
            Report.blocked_tasks report = 0 /\ report_sum report <= n) rh ->
  Forall (fun report =>
            Report.blocked_tasks report = 0 /\ report_sum report <= n') rh.
Proof.
  intros Hn. apply Forall_impl. intros rep [H1 H2]. split; [assumption | lia].
Qed.

Lemma session_inv_after_tick work m :
  session_inv m -> session_inv (after_tick work m).
Proof.
  intros (Hs & Hw & Hf & Hsorted).
  destruct (after_tick_frame work m) as (Hr & Hlen & Hw').
  split; [now apply after_tick_settled|]. split; [now apply Hw'|].
  unfold reports_ok. rewrite Hr. split; [|assumption].
  eapply reports_ok_grow; eauto.
Qed.

(** Emitting a report computed from the current collections. *)
Lemma session_inv_emit report m w :
  Report.blocked_tasks report = 0 ->
  report_sum report = List.length (completed_tasks m) ->
  session_inv m -> session_inv (fst (emit_report report m w)).
Proof.
  intros Hb Hsum ((Hc & Ha) & Hw & Hf & Hsorted).
  pose proof (emit_report_effect report m w) as E.
  unfold session_inv, settled, writes_ok, reports_ok.
  rewrite (em_heap _ _ _ E), (em_active _ _ _ E), (em_completed _ _ _ E),
    (em_history _ _ _ E), (em_reports _ _ _ E).
  repeat split; try assumption.
  - apply Forall_app. split; [assumption|].
    repeat constructor; [assumption | lia].
  - rewrite map_app. simpl. apply StronglySorted_snoc; [assumption|].
    apply Forall_map. eapply Forall_impl; [|exact Hf].
    intros rep [_ H]. simpl. lia.
Qed.

Lemma session_inv_loop_body work m w m' w' :
  session_inv m -> loop_body work m w = Some (m', w') -> session_inv m'.
Proof.
  intros Hinv Hb. rewrite loop_body_eq in Hb.
  pose proof (session_inv_after_tick work m Hinv) as Hinv'.
  destruct (ready_refs m).
  - inversion Hb; subst. exact Hinv'.
  - destruct (progress_report_settled (after_tick work m)) as [H0 Hsum];
      [apply Hinv'|].
    pose proof (session_inv_emit _ _ w H0 Hsum Hinv') as H.
    inversion Hb as [Hb']. rewrite Hb' in H. exact H.
Qed.

Lemma session_inv_log ev d m : session_inv m -> session_inv (_log_event ev d m).
Proof. destruct m. exact (fun H => H). Qed.

Lemma session_inv_start work fuel m w :
  session_inv m ->
  session_inv (manager_of (start_autonomous_execution work fuel m w)).
Proof.
  intros Hinv. unfold start_autonomous_execution.
  set (m0 := _log_event _ _ m).
  assert (H0 : session_inv m0) by now apply session_inv_log.
  pose proof (execution_loop_invariant work session_inv
                (fun m w m' w' H _ Hb => session_inv_loop_body work m w m' w' H Hb)
                fuel m0 w H0) as Hloop.
  destruct (execution_loop work fuel m0 w) as [m1 w1|m1 w1|m1 w1]; simpl in *;
    try exact Hloop.
  destruct (progress_report_settled m1) as [Hb Hsum]; [apply Hloop|].
  pose proof (session_inv_emit (_generate_final_report m1) m1 w1 Hb Hsum Hloop)
    as H.
  destruct (emit_report (_generate_final_report m1) m1 w1). exact H.
Qed.

Lemma session_inv_fresh h callbacks tasks m :
  fresh_session h callbacks tasks m -> session_inv m.
Proof.
  intros F. unfold session_inv, settled, writes_ok, reports_ok.
  rewrite (fs_active _ _ _ _ F), (fs_completed _ _ _ _ F),
    (fs_history _ _ _ _ F), (fs_reports _ _ _ _ F).
  repeat split; try (intros ? []); constructor.
Qed.

(** ** Legal status transitions *)

(** The edges of the per-task state machine. *)
Definition legal_edge (old new : TaskStatus) : bool :=
  match old, new with
  | PENDING, IN_PROGRESS
  | IN_PROGRESS, COMPLETED
  | IN_PROGRESS, PENDING
  | IN_PROGRESS, FAILED => true
  | _, _ => false
  end.

Definition write_legal h (wr : StatusWrite) : Prop :=
  legal_edge (sw_old wr) (sw_new wr) = true
  /\ (sw_new wr = IN_PROGRESS ->
      forall d, In d (dependencies (h (sw_task wr))) ->
                In d (sw_completed_ids wr)).

Definition transitions_ok m : Prop :=
  Forall (write_legal (heap m)) (status_history m).

Lemma write_legal_ext h h' wr :
  (forall r, dependencies (h' r) = dependencies (h r)) ->
  write_legal h wr -> write_legal h' wr.
Proof.
  intros Hd [H1 H2]. split; [assumption|]. intros Hn d. rewrite Hd. now apply H2.
Qed.

Lemma legal_edge_attempt work t : legal_edge IN_PROGRESS (attempt_result work t) = true.
Proof. destruct (attempt_result_cases work t) as [->|[->| ->]]; reflexivity. Qed.

Lemma attempt_result_not_in_progress work t :
  attempt_result work t <> IN_PROGRESS.
Proof.
  destruct (attempt_result_cases work t) as [->|[->| ->]]; discriminate.
Qed.

(** State of the fold over the ready tasks: the tasks still to run are
    distinct, pending with their dependencies met, and out of the queue. *)
Definition running_ok (rest : list ref) m : Prop :=
  NoDup rest
  /\ NoDup (task_queue m)
  /\ (forall r, In r rest -> ~ In r (task_queue m))
  /\ (forall r, In r rest -> is_ready (completed_task_ids m) (heap m r) = true)
  /\ transitions_ok m.

Lemma _execute_task_running_ok work r rest m :
  running_ok (r :: rest) m -> running_ok rest (_execute_task work r m).
Proof.
  intros (Hnd & Hq & Hout & Hready & Hok).
  pose proof (_execute_task_effect work r m) as E.
  inversion Hnd as [|? ? Hr Hnd']; subst.
  assert (Hids : completed_task_ids (_execute_task work r m)
                 = completed_task_ids m).
  { apply completed_task_ids_ext; [apply (ae_completed _ _ _ _ E)|].
    apply (ae_task_id _ _ _ _ E). }
  assert (Hrq : ~ In r (task_queue m)) by (apply Hout; now left).
  split; [assumption|]. split; [|split; [|split]].
  - rewrite (ae_queue _ _ _ _ E).
    destruct (attempt_result work (heap m r)); try assumption.
    apply NoDup_app; [assumption | repeat constructor; intros [] |].
    intros x Hx [<-|[]]. contradiction.
  - intros r' Hr' Hin. rewrite (ae_queue _ _ _ _ E) in Hin.
    assert (Hin' : In r' (task_queue m ++ [r])).
    { destruct (attempt_result work (heap m r)); try assumption;
        apply in_or_app; now left. }
    apply in_app_or in Hin' as [Hin'|[<-|[]]].
    + apply (Hout r'); [now right | assumption].
    + contradiction.
  - intros r' Hr'. rewrite Hids.
    rewrite (ae_other _ _ _ _ E).
    + apply Hready. now right.
    + intros ->. contradiction.
  - unfold transitions_ok. rewrite (ae_history _ _ _ _ E).
    apply Forall_app. split.
    + eapply Forall_impl; [|exact Hok]. intros wr.
      apply write_legal_ext. apply (ae_dependencies _ _ _ _ E).
    + assert (Hr0 := Hready r (or_introl eq_refl)).
      repeat constructor; simpl.
      * now rewrite (is_ready_pending _ _ Hr0).
      * intros _ d. rewrite (ae_dependencies _ _ _ _ E).
        now apply is_ready_dependencies.
      * apply legal_edge_attempt.
      * intros Hn. now apply attempt_result_not_in_progress in Hn.
Qed.

Definition transitions_inv m : Prop :=
  NoDup (task_queue m) /\ transitions_ok m.

Lemma after_tick_transitions work m :
  transitions_inv m -> transitions_inv (after_tick work m).
Proof.
  intros [Hnd Hok]. unfold after_tick.
  set (m1 := set_task_queue (waiting_refs m) m).
  assert (H1 : running_ok (ready_refs m) m1).
  { repeat split.
    - now apply NoDup_filter.
    - now apply NoDup_filter.
    - intros r Hr Hw. apply filter_In in Hr as [_ Hr].
      apply filter_In in Hw as [_ Hw]. rewrite Hr in Hw. discriminate.
    - intros r Hr. apply filter_In in Hr as [_ Hr]. exact Hr.
    - exact Hok. }
  pose proof (run_ready_invariant work running_ok
                (_execute_task_running_ok work) _ _ H1) as (_ & Hq & _ & _ & Hok').
  pose proof (_check_task_completion_effect (run_ready work (ready_refs m) m1))
    as E.
  unfold transitions_inv, transitions_ok.
  rewrite (ce_queue _ _ E), (ce_heap _ _ E), (ce_history _ _ E). now split.
Qed.

Lemma transitions_inv_emit report m w :
  transitions_inv m -> transitions_inv (fst (emit_report report m w)).
Proof.
  pose proof (emit_report_effect report m w) as E.
  unfold transitions_inv, transitions_ok.
  now rewrite (em_queue _ _ _ E), (em_heap _ _ _ E), (em_history _ _ _ E).
Qed.

Lemma transitions_inv_start work fuel m w :
  transitions_inv m ->
  transitions_inv (manager_of (start_autonomous_execution work fuel m w)).
Proof.
  intros Hinv. unfold start_autonomous_execution.
  set (m0 := _log_event _ _ m).
  assert (H0 : transitions_inv m0) by (destruct m; exact Hinv).
  assert (Hstep : forall m w m' w',
             transitions_inv m -> loop_condition m = true ->
             loop_body work m w = Some (m', w') -> transitions_inv m').
  { intros m2 w2 m' w' H _ Hb. rewrite loop_body_eq in Hb.
    pose proof (after_tick_transitions work m2 H) as H'.
    destruct (ready_refs m2); inversion Hb as [Hb']; [exact H'|].
    pose proof (transitions_inv_emit
                  (_generate_progress_report (after_tick work m2)) _ w2 H') as G.
    rewrite Hb' in G. exact G. }
  pose proof (execution_loop_invariant work transitions_inv Hstep fuel m0 w H0)
    as Hloop.
  destruct (execution_loop work fuel m0 w) as [m1 w1|m1 w1|m1 w1]; simpl in *;
    try exact Hloop.
  pose proof (transitions_inv_emit (_generate_final_report m1) m1 w1 Hloop) as H.
  destruct (emit_report (_generate_final_report m1) m1 w1). exact H.
Qed.

(** ** Starvation of a task whose dependency never completes *)

Definition blocked_on (r0 : ref) (d : string) m : Prop :=
  In r0 (task_queue m) /\ status (heap m r0) = PENDING
  /\ In d (dependencies (heap m r0)).

Lemma mem_string_In x l : mem_string x l = true <-> In x l.
Proof.
  unfold mem_string. rewrite existsb_exists. split.
  - intros [y [Hy E]]. apply String.eqb_eq in E. now subst.
  - intros H. exists x. split; [assumption | apply String.eqb_refl].
Qed.

Lemma not_ready_missing ids t d :
  In d (dependencies t) -> ~ In d ids -> is_ready ids t = false.
Proof.
  intros Hd Hn. destruct (is_ready ids t) eqn:E; [|reflexivity].
  exfalso. apply Hn. eapply is_ready_dependencies; eauto.
Qed.

Lemma blocked_on_loop_condition r0 d m :
  blocked_on r0 d m -> loop_condition m = true.
Proof.
  intros [Hq _]. unfold loop_condition.
  destruct (task_queue m); [destruct Hq | reflexivity].
Qed.

Lemma after_tick_blocked work r0 d m :
  blocked_on r0 d m -> ~ In d (completed_task_ids m) ->
  blocked_on r0 d (after_tick work m).
Proof.
  intros (Hq & Hst & Hd) Hn.
  assert (Hnr : is_ready (completed_task_ids m) (heap m r0) = false)
    by (eapply not_ready_missing; eauto).
  unfold after_tick. set (m1 := set_task_queue (waiting_refs m) m).
  pose proof (run_ready_invariant work
    (fun rest m' => In r0 (task_queue m') /\ heap m' r0 = heap m r0
                    /\ ~ In r0 rest)) as Hfold.
  destruct (Hfold) with (l := ready_refs m) (m := m1) as (Hq' & Hh' & _).
  - intros r rest m' (Hq' & Hh' & Hr).
    pose proof (_execute_task_effect work r m') as E.
    assert (Hne : r0 <> r) by (intros ->; apply Hr; now left).
    repeat split.
    + rewrite (ae_queue _ _ _ _ E).
      destruct (attempt_result work (heap m' r)); try assumption.
      apply in_or_app. now left.
    + now rewrite (ae_other _ _ _ _ E).
    + intros H. apply Hr. now right.
  - repeat split.
    + subst m1. simpl. apply filter_In. split; [assumption|]. now rewrite Hnr.
    + intros H. apply filter_In in H as [_ H]. congruence.
  - pose proof (_check_task_completion_effect
                  (run_ready work (ready_refs m) m1)) as E.
    unfold blocked_on. rewrite (ce_queue _ _ E), (ce_heap _ _ E), Hh'.
    now repeat split.
Qed.

Lemma loop_body_blocked work r0 d m w m' w' :
  blocked_on r0 d m -> ~ In d (completed_task_ids m) ->
  loop_body work m w = Some (m', w') -> blocked_on r0 d m'.
Proof.
  intros Hb Hn Hbody. rewrite loop_body_eq in Hbody.
  pose proof (after_tick_blocked work r0 d m Hb Hn) as H.
  destruct (ready_refs m); inversion Hbody as [Hb']; [exact H|].
  pose proof (emit_report_effect
                (_generate_progress_report (after_tick work m))
                (after_tick work m) w) as E.
  rewrite Hb' in E. simpl in E. unfold blocked_on.
  now rewrite (em_queue _ _ _ E), (em_heap _ _ _ E).
Qed.

Lemma execution_loop_starved work r0 d fuel : forall m w,
  blocked_on r0 d m ->
  (forall k, ~ In d (completed_task_ids
                       (loop_manager (execution_loop work k m w)))) ->
  exists m' w', execution_loop work fuel m w = Running m' w'.
Proof.
  induction fuel as [|fuel IH]; intros m w Hb Hnever.
  - simpl. rewrite (blocked_on_loop_condition _ _ _ Hb). eauto.
  - pose proof (blocked_on_loop_condition _ _ _ Hb) as Hc.
    assert (Hn0 : ~ In d (completed_task_ids m)).
    { specialize (Hnever 0). simpl in Hnever. now rewrite Hc in Hnever. }
    simpl. rewrite Hc.
    destruct (loop_body work m w) as [[m1 w1]|] eqn:Hbody.
    + apply IH.
      * eapply loop_body_blocked; eauto.
      * intros k. specialize (Hnever (S k)). simpl in Hnever.
        now rewrite Hc, Hbody in Hnever.
    + rewrite loop_body_eq in Hbody. discriminate.
Qed.

Lemma start_completed_ids work fuel m w :
  completed_task_ids (manager_of (start_autonomous_execution work fuel m w))
  = completed_task_ids
      (loop_manager
         (execution_loop work fuel
            (_log_event "execution_started"
               [("total_tasks", JInt (Z.of_nat (List.length (task_queue m))));
                ("session_id", JStr (session_id m))] m) w)).
Proof.
  unfold start_autonomous_execution.
  destruct (execution_loop work fuel _ w) as [m1 w1|m1 w1|m1 w1];
    try reflexivity.
  pose proof (emit_report_effect (_generate_final_report m1) m1 w1) as E.
  destruct (emit_report (_generate_final_report m1) m1 w1) as [m2 w2].
  simpl in *. unfold completed_task_ids.
  now rewrite (em_completed _ _ _ E), (em_heap _ _ _ E).
Qed.

(** ** An identifier that no task carries is never completed *)

Definition known_ref m r : Prop :=
  In r (task_queue m) \/ In r (map snd (active_tasks m))
  \/ In r (completed_tasks m).

Definition absent (d : string) m : Prop :=
  forall r, known_ref m r -> task_id (heap m r) <> d.

Lemma _execute_task_absent work d r m :
  absent d m -> task_id (heap m r) <> d -> absent d (_execute_task work r m).
Proof.
  intros Ha Hr r' Hk. pose proof (_execute_task_effect work r m) as E.
  rewrite (ae_task_id _ _ _ _ E).
  destruct (Nat.eq_dec r' r) as [->|Hne]; [assumption|].
  apply Ha. destruct Hk as [Hk|[Hk|Hk]].
  - left. rewrite (ae_queue _ _ _ _ E) in Hk.
    destruct (attempt_result work (heap m r)); try assumption.
    apply in_app_or in Hk as [Hk|[<-|[]]]; [assumption | contradiction].
  - right; left. rewrite (ae_active _ _ _ _ E) in Hk.
    apply in_map_iff in Hk as [kv [<- Hkv]].
    apply dict_set_In_inv in Hkv as [Hkv|Hkv]; [|contradiction].
    now apply in_map.
  - right; right. now rewrite (ae_completed _ _ _ _ E) in Hk.
Qed.

Lemma after_tick_absent work d m : absent d m -> absent d (after_tick work m).
Proof.
  intros Ha. unfold after_tick.
  set (m1 := set_task_queue (waiting_refs m) m).
  pose proof (run_ready_invariant work
    (fun rest m' => absent d m'
                    /\ forall r, In r rest -> task_id (heap m' r) <> d))
    as Hfold.
  destruct Hfold with (l := ready_refs m) (m := m1) as (Ha' & _).
  - intros r rest m' (Ha' & Hrest). split.
    + apply _execute_task_absent; [assumption|]. apply Hrest. now left.
    + intros r' Hr'.
      rewrite (ae_task_id _ _ _ _ (_execute_task_effect work r m')).
      apply Hrest. now right.
  - split.
    + intros r [Hk|Hk]; apply Ha.
      * left. subst m1. simpl in Hk. now apply filter_In in Hk as [Hk _].
      * right. exact Hk.
    + intros r Hr. apply Ha. left. now apply filter_In in Hr as [Hr _].
  - set (m2 := run_ready work (ready_refs m) m1) in *.
    pose proof (_check_task_completion_effect m2) as E.
    intros r Hk. rewrite (ce_heap _ _ E). apply Ha'.
    destruct Hk as [Hk|[Hk|Hk]].
    + left. now rewrite (ce_queue _ _ E) in Hk.
    + right; left. apply in_map_iff in Hk as [kv [<- Hkv]].
      apply (ce_active _ _ E) in Hkv as [Hkv _]. now apply in_map.
    + rewrite (ce_completed _ _ E) in Hk. apply in_app_or in Hk as [Hk|Hk].
      * right; right. exact Hk.
      * right; left. apply in_map_iff in Hk as [kv [<- Hkv]].
        apply filter_In in Hkv as [Hkv _]. now apply in_map.
Qed.

Lemma absent_emit report d m w :
  absent d m -> absent d (fst (emit_report report m w)).
Proof.
  pose proof (emit_report_effect report m w) as E.
  unfold absent, known_ref.
  now rewrite (em_queue _ _ _ E), (em_heap _ _ _ E), (em_active _ _ _ E),
    (em_completed _ _ _ E).
Qed.

Lemma absent_not_completed d m : absent d m -> ~ In d (completed_task_ids m).
Proof.
  intros Ha Hin. apply in_map_iff in Hin as [r [E Hr]].
  apply (Ha r); [right; right; exact Hr | exact E].
Qed.

(** A dependency on an identifier carried by no task of the session is never
    added to the completed set. *)
Lemma dangling_never_completed work d m w :
  absent d m ->
  forall fuel,
    ~ In d (completed_task_ids
              (manager_of (start_autonomous_execution work fuel m w))).
Proof.
  intros Ha fuel. rewrite start_completed_ids. apply absent_not_completed.
  apply (execution_loop_invariant work (absent d)).
  - intros m1 w1 m' w' H _ Hb. rewrite loop_body_eq in Hb.
    pose proof (after_tick_absent work d m1 H) as H'.
    destruct (ready_refs m1); inversion Hb as [Hb']; [exact H'|].
    pose proof (absent_emit (_generate_progress_report (after_tick work m1))
                            d _ w1 H') as G.
    now rewrite Hb' in G.
  - destruct m. exact Ha.
Qed.

(** ** The history variables are exact

    Replaying the recorded writes over the initial statuses gives the status
    held by every task, and each write records the status it overwrote: no
    status changes without a record. *)

Definition apply_write (cur : ref -> TaskStatus) (wr : StatusWrite)
  : ref -> TaskStatus :=
  fun r => if Nat.eqb r (sw_task wr) then sw_new wr else cur r.

Definition replay (cur : ref -> TaskStatus) (l : list StatusWrite)
  : ref -> TaskStatus :=
  fold_left apply_write l cur.

Fixpoint chained (cur : ref -> TaskStatus) (l : list StatusWrite) : Prop :=
  match l with
  | [] => True
  | wr :: l' => sw_old wr = cur (sw_task wr) /\ chained (apply_write cur wr) l'
  end.

Lemma chained_app cur l1 l2 :
  chained cur (l1 ++ l2) <-> chained cur l1 /\ chained (replay cur l1) l2.
Proof.
  revert cur. induction l1 as [|wr l1 IH]; intros cur; simpl; [tauto|].
  rewrite IH. unfold replay. simpl. tauto.
Qed.

Definition history_exact (h0 : Heap) m : Prop :=
  chained (fun r => status (h0 r)) (status_history m)
  /\ forall r, status (heap m r)
               = replay (fun r => status (h0 r)) (status_history m) r.

Lemma _execute_task_history_exact work h0 r m :
  history_exact h0 m -> history_exact h0 (_execute_task work r m).
Proof.
  intros [Hch Hst]. pose proof (_execute_task_effect work r m) as E.
  unfold history_exact. rewrite (ae_history _ _ _ _ E). split.
  - apply chained_app. split; [assumption|]. simpl.
    rewrite <- Hst. repeat split. unfold apply_write. simpl.
    now rewrite Nat.eqb_refl.
  - intros r'. unfold replay. rewrite fold_left_app. simpl.
    fold (replay (fun r0 => status (h0 r0)) (status_history m)).
    unfold apply_write at 1. simpl.
    destruct (Nat.eqb_spec r' r) as [->|Hne].
    + apply (ae_status _ _ _ _ E).
    + rewrite (ae_other _ _ _ _ E) by assumption.
      unfold apply_write. simpl.
      destruct (Nat.eqb_spec r' r); [contradiction | apply Hst].
Qed.

Lemma after_tick_history_exact work h0 m :
  history_exact h0 m -> history_exact h0 (after_tick work m).
Proof.
  intros H. unfold after_tick.
  set (m1 := set_task_queue (waiting_refs m) m).
  assert (H1 : history_exact h0 m1) by (destruct m; exact H).
  pose proof (run_ready_invariant work (fun _ m' => history_exact h0 m')
                (fun r _ m' => _execute_task_history_exact work h0 r m')
                (ready_refs m) m1 H1) as H2.
  pose proof (_check_task_completion_effect
                (run_ready work (ready_refs m) m1)) as C.
  unfold history_exact. now rewrite (ce_history _ _ C), (ce_heap _ _ C).
Qed.

Lemma history_exact_emit report h0 m w :
  history_exact h0 m -> history_exact h0 (fst (emit_report report m w)).
Proof.
  pose proof (emit_report_effect report m w) as E. unfold history_exact.
  now rewrite (em_history _ _ _ E), (em_heap _ _ _ E).
Qed.

(** In every session the status of every task is the replay of the recorded
    writes, which form a chain. *)
Lemma session_history_exact sid h callbacks tasks work fuel w :
  history_exact h
    (manager_of (start_autonomous_execution work fuel
                   (new_session sid h callbacks tasks) w)).
Proof.
  pose proof (new_session_fresh sid h callbacks tasks) as F.
  unfold start_autonomous_execution.
  set (m := new_session sid h callbacks tasks) in *.
  set (m0 := _log_event _ _ m).
  assert (H0 : history_exact h m0).
  { unfold history_exact.
    replace (status_history m0) with (status_history m) by reflexivity.
    replace (heap m0) with (heap m) by reflexivity.
    rewrite (fs_history _ _ _ _ F), (fs_heap _ _ _ _ F). simpl. now split. }
  assert (Hloop : history_exact h (loop_manager (execution_loop work fuel m0 w))).
  { apply (execution_loop_invariant work (history_exact h)); [|exact H0].
    intros m1 w1 m' w' H _ Hb. rewrite loop_body_eq in Hb.
    pose proof (after_tick_history_exact work h m1 H) as H'.
    destruct (ready_refs m1); inversion Hb as [Hb']; [exact H'|].
    pose proof (history_exact_emit
                  (_generate_progress_report (after_tick work m1)) h _ w1 H')
      as G.
    now rewrite Hb' in G. }
  destruct (execution_loop work fuel m0 w) as [m1 w1|m1 w1|m1 w1];
    simpl in Hloop |- *; try exact Hloop.
  pose proof (history_exact_emit (_generate_final_report m1) h m1 w1 Hloop) as H.
  destruct (emit_report (_generate_final_report m1) m1 w1). exact H.
Qed.

(** ** The active dictionary keeps distinct keys *)

Lemma NoDup_keys_filter (f : string * ref -> bool) (d : list (string * ref)) :
  NoDup (map fst d) -> NoDup (map fst (filter f d)).
Proof.
  induction d as [|kv d IH]; simpl; intros H; [constructor|].
  inversion H as [|? ? Hk Hd]; subst.
  destruct (f kv); simpl; [|now apply IH].
  constructor; [|now apply IH].
  intros Hin. apply Hk. apply in_map_iff in Hin as [kv' [E Hkv']].
  apply filter_In in Hkv' as [Hkv' _]. rewrite <- E. now apply in_map.
Qed.

Lemma dict_del_all_NoDup ks : forall d,
  NoDup (map fst d) ->
  NoDup (map fst (fold_left (fun d k => dict_del k d) ks d)).
Proof.
  induction ks as [|k ks IH]; intros d Hd; simpl; [exact Hd|].
  apply IH. now apply NoDup_keys_filter.
Qed.

Definition dictionary_ok m : Prop := NoDup (map fst (active_tasks m)).

Lemma after_tick_dictionary_ok work m :
  dictionary_ok m -> dictionary_ok (after_tick work m).
Proof.
  intros H. unfold after_tick.
  set (m1 := set_task_queue (waiting_refs m) m).
  assert (H1 : dictionary_ok m1) by (destruct m; exact H).
  pose proof (run_ready_invariant work (fun _ m' => dictionary_ok m')) as Hfold.
  assert (H2 : dictionary_ok (run_ready work (ready_refs m) m1)).
  { apply Hfold; [|exact H1]. intros r _ m' Hm'. unfold dictionary_ok.
    rewrite (ae_active _ _ _ _ (_execute_task_effect work r m')).
    now apply dict_set_NoDup. }
  unfold dictionary_ok, _check_task_completion. simpl.
  now apply dict_del_all_NoDup.
Qed.

Lemma session_dictionary_ok sid h callbacks tasks work fuel w :
  dictionary_ok
    (manager_of (start_autonomous_execution work fuel
                   (new_session sid h callbacks tasks) w)).
Proof.
  pose proof (new_session_fresh sid h callbacks tasks) as F.
  unfold start_autonomous_execution.
  set (m := new_session sid h callbacks tasks) in *.
  set (m0 := _log_event _ _ m).
  assert (H0 : dictionary_ok m0).
  { unfold dictionary_ok.
    replace (active_tasks m0) with (active_tasks m) by reflexivity.
    rewrite (fs_active _ _ _ _ F). constructor. }
  assert (Hloop : dictionary_ok (loop_manager (execution_loop work fuel m0 w))).
  { apply (execution_loop_invariant work dictionary_ok); [|exact H0].
    intros m1 w1 m' w' H _ Hb. rewrite loop_body_eq in Hb.
    pose proof (after_tick_dictionary_ok work m1 H) as H'.
    destruct (ready_refs m1); inversion Hb as [Hb']; [exact H'|].
    pose proof (emit_report_effect
                  (_generate_progress_report (after_tick work m1))
                  (after_tick work m1) w1) as E.
    rewrite Hb' in E. simpl in E. unfold dictionary_ok.
    now rewrite (em_active _ _ _ E). }
  destruct (execution_loop work fuel m0 w) as [m1 w1|m1 w1|m1 w1];
    simpl in Hloop |- *; try exact Hloop.
  pose proof (emit_report_effect (_generate_final_report m1) m1 w1) as E.
  destruct (emit_report (_generate_final_report m1) m1 w1). simpl in E |- *.
  unfold dictionary_ok. now rewrite (em_active _ _ _ E).
Qed.

(** * The claims *)

(** C3.  In a session whose queue holds no task object twice (so in
    particular whenever task identifiers are unique), every assignment to a
    task's status follows one of the edges pending -> in_progress,
    in_progress -> completed, in_progress -> pending, in_progress -> failed;
    and whenever a status is set to in_progress, every identifier in the
    task's dependency list is in the set of completed identifiers at that
    moment. *)
Theorem status_transitions_legal sid h callbacks tasks work fuel w :
  NoDup tasks ->
  let m := manager_of (start_autonomous_execution work fuel
                         (new_session sid h callbacks tasks) w) in
  Forall (fun wr =>
            legal_edge (sw_old wr) (sw_new wr) = true
            /\ (sw_new wr = IN_PROGRESS ->
                forall d, In d (dependencies (heap m (sw_task wr))) ->
                          In d (sw_completed_ids wr)))
         (status_history m).
Proof.
  intros Hnd m.
  pose proof (new_session_fresh sid h callbacks tasks) as F.
  assert (Hinv : transitions_inv (new_session sid h callbacks tasks)).
  { unfold transitions_inv, transitions_ok.
    rewrite (fs_queue _ _ _ _ F), (fs_history _ _ _ _ F).
    split; [assumption | constructor]. }
  exact (proj2 (transitions_inv_start work fuel _ w Hinv)).
Qed.

(** C8.  The reports of a session, in the order they are generated, have
    non-decreasing [completed_tasks + failed_tasks]: each report's sum is at
    most the sum of every report generated after it. *)
Theorem progress_monotone sid h callbacks tasks work fuel w :
  StronglySorted le
    (map report_sum
       (reports_history
          (manager_of (start_autonomous_execution work fuel
                         (new_session sid h callbacks tasks) w)))).
Proof.
  pose proof (session_inv_fresh _ _ _ _
                (new_session_fresh sid h callbacks tasks)) as Hinv.
  exact (proj2 (proj2 (proj2 (session_inv_start work fuel _ w Hinv)))).
Qed.

(** C10.  No status assignment performed during a session writes [BLOCKED]
    or [CANCELLED], and every report generated has [blocked_tasks = 0]. *)
Theorem never_blocked_or_cancelled sid h callbacks tasks work fuel w :
  let m := manager_of (start_autonomous_execution work fuel
                         (new_session sid h callbacks tasks) w) in
  Forall (fun wr => sw_new wr <> BLOCKED /\ sw_new wr <> CANCELLED)
         (status_history m)
  /\ Forall (fun report => Report.blocked_tasks report = 0)
            (reports_history m).
Proof.
  intros m.
  pose proof (session_inv_fresh _ _ _ _
                (new_session_fresh sid h callbacks tasks)) as Hinv.
  destruct (session_inv_start work fuel _ w Hinv) as (_ & Hw & Hf & _).
  split; [exact Hw|].
  eapply Forall_impl; [|exact Hf]. now intros rep [H _].
Qed.

(** The report returned by the run is the last one in the history. *)
Lemma final_report_recorded work fuel m w report m' w' :
  start_autonomous_execution work fuel m w = Returned report m' w' ->
  exists m1 l,
    report = _generate_final_report m1
    /\ reports_history m' = l ++ [report]
    /\ task_queue m' = task_queue m1 /\ active_tasks m' = active_tasks m1
    /\ loop_condition m1 = false.
Proof.
  unfold start_autonomous_execution.
  destruct (execution_loop work fuel _ w) as [m1 w1|m1 w1|m1 w1] eqn:Hl;
    try discriminate.
  pose proof (emit_report_effect (_generate_final_report m1) m1 w1) as E.
  destruct (emit_report (_generate_final_report m1) m1 w1) as [m2 w2].
  intros H. inversion H; subst. simpl in E.
  exists m1, (reports_history m1). repeat split; try apply E.
  clear - Hl. revert Hl. generalize (_log_event "execution_started"
    [("total_tasks", JInt (Z.of_nat (List.length (task_queue m))));
     ("session_id", JStr (session_id m))] m) as m0. revert w.
  induction fuel as [|fuel IH]; intros w m0; simpl.
  - destruct (loop_condition m0) eqn:Hc; [discriminate|].
    intros H; inversion H; subst. exact Hc.
  - destruct (loop_condition m0) eqn:Hc.
    + destruct (loop_body work m0 w) as [[m' w']|]; [apply IH | discriminate].
    + intros H; inversion H; subst. exact Hc.
Qed.

Lemma loop_condition_false_iff m :
  loop_condition m = false <-> task_queue m = [] /\ active_tasks m = [].
Proof.
  unfold loop_condition.
  destruct (task_queue m), (active_tasks m); split;
    try (intros [? ?]); try discriminate; auto.
Qed.

(** C2.  The loop stops at a state exactly when the pending queue and the
    active dictionary are both empty there: a run that returns left both
    empty, and a run started with both empty returns without iterating.  If a
    pending task in the queue has a dependency identifier that is never added
    to the completed set, no iteration budget suffices for the run to
    return. *)
Theorem loop_exit_and_starvation work :
  (forall m, loop_condition m = false
             <-> task_queue m = [] /\ active_tasks m = [])
  /\ (forall fuel m w report m' w',
        start_autonomous_execution work fuel m w = Returned report m' w' ->
        task_queue m' = [] /\ active_tasks m' = [])
  /\ (forall fuel m w,
        task_queue m = [] -> active_tasks m = [] ->
        exists report m' w',
          start_autonomous_execution work fuel m w = Returned report m' w')
  /\ (forall m w r d,
        In r (task_queue m) -> status (heap m r) = PENDING ->
        In d (dependencies (heap m r)) ->
        (forall fuel,
            ~ In d (completed_task_ids
                      (manager_of (start_autonomous_execution work fuel m w)))) ->
        forall fuel, exists m' w',
            start_autonomous_execution work fuel m w = Unfinished m' w').
Proof.
  split; [exact loop_condition_false_iff|]. split; [|split].
  - intros fuel m w report m' w' H.
    apply final_report_recorded in H as (m1 & l & _ & _ & Hq & Ha & Hc).
    rewrite Hq, Ha. now apply loop_condition_false_iff.
  - intros fuel m w Hq Ha. unfold start_autonomous_execution.
    set (m0 := _log_event _ _ m).
    assert (Hc : loop_condition m0 = false).
    { apply loop_condition_false_iff. subst m0. destruct m; simpl in *. auto. }
    assert (Hl : execution_loop work fuel m0 w = Exited m0 w)
      by (destruct fuel; simpl; now rewrite Hc).
    rewrite Hl. destruct (emit_report _ m0 w). eauto.
  - intros m w r d Hq Hst Hd Hnever fuel.
    unfold start_autonomous_execution.
    set (m0 := _log_event "execution_started"
      [("total_tasks", JInt (Z.of_nat (List.length (task_queue m))));
       ("session_id", JStr (session_id m))] m).
    destruct (execution_loop_starved work r d fuel m0 w) as (m' & w' & Hl).
    + subst m0. destruct m. now repeat split.
    + intros k. specialize (Hnever k).
      now rewrite start_completed_ids in Hnever.
    + rewrite Hl. eauto.
Qed.

Lemma filter_ready_waiting (f : ref -> bool) l :
  filter f (filter (fun r => negb (f r)) l) = []
  /\ filter (fun r => negb (f r)) (filter (fun r => negb (f r)) l)
     = filter (fun r => negb (f r)) l.
Proof.
  induction l as [|r l [IH1 IH2]]; simpl; [now split|].
  destruct (f r) eqn:E; simpl; [now split|]. rewrite E. simpl.
  now rewrite IH1, IH2.
Qed.

(** C4 (amended).  The selector returns the ready tasks of the queue, in
    order, and removes them from the queue; invoked again straight away it
    returns the empty list and changes nothing. *)
Theorem selector_second_call_empty m :
  match _find_ready_tasks m with
  | Some (ready_tasks, m1) =>
      ready_tasks = ready_refs m
      /\ task_queue m1 = waiting_refs m
      /\ _find_ready_tasks m1 = Some ([], m1)
  | None => False
  end.
Proof.
  rewrite _find_ready_tasks_eq. repeat split.
  rewrite _find_ready_tasks_eq. unfold ready_refs, waiting_refs.
  destruct m as [sid h q a c cbs log sh rh]. unfold completed_task_ids. simpl.
  destruct (filter_ready_waiting
              (fun r => is_ready (map (fun r0 => task_id (h r0)) c) (h r)) q)
    as [H1 H2].
  rewrite H1. unfold set_task_queue. simpl. now rewrite H2.
Qed.

(** The four phase labels of a progress report. *)
Definition phase_labels : list string :=
  ["Discovery & Planning"; "Core Implementation"; "Validation & Security";
   "Integration & Completion"].

Lemma progress_phase_label m :
  In (Report.current_phase (_generate_progress_report m)) phase_labels.
Proof.
  simpl. unfold _determine_current_phase.
  destruct (completed_tasks m); [now left|].
  destruct (Qltb _ _); [right; now left|].
  destruct (Qltb _ _); [right; right; now left | right; right; right; now left].
Qed.

Definition labels_ok m : Prop :=
  Forall (fun report => In (Report.current_phase report) phase_labels)
         (reports_history m).

Lemma labels_ok_loop work fuel m w :
  labels_ok m -> labels_ok (loop_manager (execution_loop work fuel m w)).
Proof.
  apply (execution_loop_invariant work labels_ok).
  intros m1 w1 m' w' H _ Hb. rewrite loop_body_eq in Hb. unfold labels_ok in *.
  destruct (after_tick_frame work m1) as (Hr & _ & _).
  destruct (ready_refs m1); inversion Hb as [Hb'].
  - now rewrite Hr.
  - pose proof (emit_report_effect
                  (_generate_progress_report (after_tick work m1))
                  (after_tick work m1) w1) as E.
    rewrite Hb' in E. simpl in E. rewrite (em_reports _ _ _ E), Hr.
    apply Forall_app. split; [assumption|].
    constructor; [apply progress_phase_label | constructor].
Qed.

(** C6 (amended).  Every report generated inside the loop carries one of the
    four phase labels; the final report returned by
    [start_autonomous_execution] carries the label "Completed", which is not
    one of the four. *)
Theorem report_phases sid h callbacks tasks work fuel w :
  (forall m, In (Report.current_phase (_generate_progress_report m))
                phase_labels)
  /\ (forall m, Report.current_phase (_generate_final_report m) = "Completed")
  /\ ~ In "Completed" phase_labels
  /\ match start_autonomous_execution work fuel
             (new_session sid h callbacks tasks) w with
     | Returned report m' _ =>
         exists l, reports_history m' = l ++ [report]
                   /\ Forall (fun rep => In (Report.current_phase rep) phase_labels) l
                   /\ Report.current_phase report = "Completed"
     | Aborted m' _ | Unfinished m' _ =>
         Forall (fun rep => In (Report.current_phase rep) phase_labels)
                (reports_history m')
     end.
Proof.
  split; [exact progress_phase_label|]. split; [reflexivity|].
  split; [intros [H|[H|[H|[H|[]]]]]; discriminate|].
  pose proof (new_session_fresh sid h callbacks tasks) as F.
  unfold start_autonomous_execution.
  set (m0 := _log_event _ _ (new_session sid h callbacks tasks)).
  assert (H0 : labels_ok m0).
  { unfold labels_ok. subst m0.
    replace (reports_history (_log_event _ _ (new_session sid h callbacks tasks)))
      with (reports_history (new_session sid h callbacks tasks))
      by reflexivity.
    rewrite (fs_reports _ _ _ _ F). constructor. }
  pose proof (labels_ok_loop work fuel m0 w H0) as Hl.
  destruct (execution_loop work fuel m0 w) as [m1 w1|m1 w1|m1 w1];
    simpl in Hl; try exact Hl.
  pose proof (emit_report_effect (_generate_final_report m1) m1 w1) as E.
  destruct (emit_report (_generate_final_report m1) m1 w1) as [m2 w2].
  simpl in E. exists (reports_history m1).
  split; [apply E | split; [exact Hl | reflexivity]].
Qed.

(** C7.  [_notify_orchestrator] calls every registered callback with the
    report, in registration order, whether or not earlier callbacks raised;
    each exception is logged as an [orchestrator_notification_failed] event
    and nothing else in the manager changes; and an iteration of the loop
    always runs to its end, whatever the callbacks do. *)
Theorem notify_isolates_observers work report m w :
  let (m', w') := _notify_orchestrator report m w in
  w' = fold_left (fun w callback => fst (callback report w))
                 (orchestrator_callbacks m) w
  /\ execution_log m'
     = execution_log m
       ++ map (failure_entry (session_id m))
              (raised_errors report (orchestrator_callbacks m) w)
  /\ (heap m' = heap m /\ task_queue m' = task_queue m
      /\ active_tasks m' = active_tasks m
      /\ completed_tasks m' = completed_tasks m
      /\ orchestrator_callbacks m' = orchestrator_callbacks m)
  /\ exists m'' w'', loop_body work m w = Some (m'', w'').
Proof.
  rewrite _notify_orchestrator_eq. repeat split.
  rewrite loop_body_eq. destruct (ready_refs m); [eauto|].
  destruct (emit_report _ _ w). eauto.
Qed.

(** C9.  When the work of a task raises and the retry branch is taken, the
    task is appended to the pending queue and stays in the active dictionary,
    also after [_check_task_completion]; a progress report generated then
    has [total_tasks] equal to the three sizes added up, so the task counts
    once for the queue and once for the dictionary. *)
Theorem retried_task_counted_twice work r e m :
  work (with_status IN_PROGRESS (heap m r)) = Some e ->
  (retry_count (heap m r) + 1 < max_retry_attempts (heap m r))%Z ->
  NoDup (map fst (active_tasks m)) ->
  let m' := _check_task_completion (_execute_task work r m) in
  status (heap m' r) = PENDING
  /\ In r (task_queue m')
  /\ In (task_id (heap m r), r) (active_tasks m')
  /\ Report.total_tasks (_generate_progress_report m')
     = List.length (task_queue m') + List.length (active_tasks m')
       + List.length (completed_tasks m')
  /\ 2 <= count_occ Nat.eq_dec (task_queue m' ++ map snd (active_tasks m')) r.
Proof.
  intros Hw Hlt Hnd m'.
  pose proof (_execute_task_effect work r m) as E.
  pose proof (_check_task_completion_effect (_execute_task work r m)) as C.
  assert (Hres : attempt_result work (heap m r) = PENDING).
  { unfold attempt_result. rewrite Hw.
    destruct (Z.ltb_spec (retry_count (heap m r) + 1)
                         (max_retry_attempts (heap m r))); [reflexivity | lia]. }
  assert (Hst : status (heap m' r) = PENDING).
  { subst m'. now rewrite (ce_heap _ _ C), (ae_status _ _ _ _ E). }
  assert (Hq : In r (task_queue m')).
  { subst m'. rewrite (ce_queue _ _ C), (ae_queue _ _ _ _ E), Hres.
    apply in_or_app. right. now left. }
  assert (Ha : In (task_id (heap m r), r) (active_tasks m')).
  { subst m'. apply _check_task_completion_active.
    - rewrite (ae_active _ _ _ _ E). now apply dict_set_NoDup.
    - split.
      + rewrite (ae_active _ _ _ _ E). apply dict_set_In.
      + unfold is_finished. simpl. now rewrite (ae_status _ _ _ _ E), Hres. }
  repeat split; try assumption; try reflexivity.
  rewrite count_occ_app.
  assert (H1 : count_occ Nat.eq_dec (task_queue m') r > 0)
    by now apply count_occ_In.
  assert (H2 : count_occ Nat.eq_dec (map snd (active_tasks m')) r > 0).
  { apply count_occ_In. apply in_map_iff. now exists (task_id (heap m r), r). }
  unfold ref in *. lia.
Qed.

(** What the tests of [_determine_current_phase] amount to: with [c] tasks
    in the completed history out of [t] known tasks, the label is decided by
    [3 * c < 2 * t] and [5 * c < 4 * t], that is by two thirds and four
    fifths of the total. *)
Lemma phase_thresholds m :
  let c := List.length (completed_tasks m) in
  let t := List.length (task_queue m) + List.length (active_tasks m) + c in
  _determine_current_phase m
  = if Nat.eqb c 0 then "Discovery & Planning"
    else if Nat.ltb (3 * c) (2 * t) then "Core Implementation"
    else if Nat.ltb (5 * c) (4 * t) then "Validation & Security"
    else "Integration & Completion".
Proof.
  cbv zeta. unfold _determine_current_phase.
  destruct (completed_tasks m) as [|r0 l]; [reflexivity|].
  set (c := List.length (r0 :: l)).
  set (q := List.length (task_queue m)).
  set (a := List.length (active_tasks m)).
  assert (Hpos : c <> 0) by (subst c; simpl; lia).
  clearbody c q a.
  destruct (Nat.eqb_spec c 0) as [E|_]; [contradiction|].
  unfold Qltb, Qle_bool, Qplus, Qmult, inject_Z. simpl Qnum. simpl Qden.
  destruct (Nat.ltb_spec (3 * c) (2 * (q + a + c))),
           (Nat.ltb_spec (5 * c) (4 * (q + a + c)));
    repeat match goal with
           | |- context [Z.leb ?x ?y] => destruct (Z.leb_spec x y)
           end; simpl; try reflexivity; exfalso; lia.
Qed.

(** ** The retry law of the code

    A lone task without dependencies whose work raises on every attempt. *)

Definition retrying (r : ref) (j : nat) (n : nat) m : Prop :=
  task_queue m = [r] /\ completed_tasks m = []
  /\ (forall kv, In kv (active_tasks m) -> snd kv = r)
  /\ status (heap m r) = PENDING /\ dependencies (heap m r) = []
  /\ retry_count (heap m r) = Z.of_nat j
  /\ attempts (task_id (heap m r)) m = n.

Lemma attempts_log_irrelevant tid m l :
  Forall (fun e => event_type e <> "task_started") l ->
  attempts tid (set_execution_log (execution_log m ++ l) m) = attempts tid m.
Proof.
  intros Hl. unfold attempts. simpl. rewrite filter_app, length_app.
  assert (H : filter (is_start_of tid) l = []).
  { induction Hl as [|e l He _ IH]; simpl; [reflexivity|].
    unfold is_start_of at 1. destruct (String.eqb_spec (event_type e) "task_started");
      [contradiction | simpl; exact IH]. }
  rewrite H. simpl. lia.
Qed.

Lemma attempts_emit tid report m w :
  attempts tid (fst (emit_report report m w)) = attempts tid m.
Proof.
  unfold emit_report. rewrite _notify_orchestrator_eq. cbn [fst].
  rewrite attempts_log_irrelevant.
  - destruct m; reflexivity.
  - apply Forall_map. apply Forall_forall. intros e _. simpl. discriminate.
Qed.

Lemma attempts_check tid m :
  attempts tid (_check_task_completion m) = attempts tid m.
Proof.
  unfold attempts. now rewrite (ce_log _ _ (_check_task_completion_effect m)).
Qed.

Lemma no_entries {A} (l : list A) : (forall x, ~ In x l) -> l = [].
Proof. destruct l as [|x l]; [reflexivity|]. intros H. destruct (H x). now left. Qed.

Section RetryLaw.
Variables (work : AutonomousTask -> option string) (r : ref) (tid : string).
Variable max_retries : Z.
Hypothesis always_raises : forall t, task_id t = tid -> work t <> None.

Let K : nat := Z.to_nat max_retries.

Definition lone_task m : Prop :=
  task_id (heap m r) = tid /\ max_retry_attempts (heap m r) = max_retries.

Lemma retrying_ready j n m :
  retrying r j n m -> ready_refs m = [r] /\ waiting_refs m = [].
Proof.
  intros (Hq & _ & _ & Hst & Hd & _). unfold ready_refs, waiting_refs.
  rewrite Hq. simpl. unfold is_ready. rewrite Hst, Hd. simpl. now split.
Qed.

Lemma attempt_result_failing j m :
  lone_task m -> retry_count (heap m r) = Z.of_nat j ->
  attempt_result work (heap m r) = if Nat.ltb (S j) K then PENDING else FAILED.
Proof.
  intros [Hid Hmax] Hj. unfold attempt_result.
  destruct (work (with_status IN_PROGRESS (heap m r))) eqn:Hw.
  - rewrite Hj, Hmax. subst K.
    destruct (Z.ltb_spec (Z.of_nat j + 1) max_retries),
             (Nat.ltb_spec (S j) (Z.to_nat max_retries));
      try reflexivity; lia.
  - exfalso. exact (always_raises (with_status IN_PROGRESS (heap m r)) Hid Hw).
Qed.

(** One iteration from a retrying state: either the task is retried, or it
    fails and both collections are left empty. *)
Lemma after_tick_retrying j m :
  lone_task m -> retrying r j j m ->
  lone_task (after_tick work m)
  /\ if Nat.ltb (S j) K
     then retrying r (S j) (S j) (after_tick work m)
     else loop_condition (after_tick work m) = false
          /\ status (heap (after_tick work m) r) = FAILED
          /\ attempts tid (after_tick work m) = S j.
Proof.
  intros Hl Hr. destruct (retrying_ready _ _ _ Hr) as [Hready Hwait].
  destruct Hr as (Hq & Hc & Ha & Hst & Hd & Hj & Hn).
  destruct Hl as [Hid Hmax].
  unfold after_tick. rewrite Hready, Hwait. simpl.
  set (m1 := set_task_queue [] m).
  assert (Hres : attempt_result work (heap m1 r)
                 = if Nat.ltb (S j) K then PENDING else FAILED).
  { apply attempt_result_failing; [split|]; assumption. }
  pose proof (_execute_task_effect work r m1) as E.
  pose proof (_check_task_completion_effect (_execute_task work r m1)) as C.
  set (m2 := _execute_task work r m1) in *.
  assert (Hact : forall kv, In kv (active_tasks m2) -> snd kv = r).
  { intros kv Hkv. rewrite (ae_active _ _ _ _ E) in Hkv.
    apply dict_set_In_inv in Hkv as [Hkv|Hkv]; [now apply Ha | assumption]. }
  split.
  { unfold lone_task. rewrite (ce_heap _ _ C), (ae_task_id _ _ _ _ E),
      (ae_max_retry _ _ _ _ E). now split. }
  destruct (Nat.ltb (S j) K) eqn:Hlt.
  - assert (Hnone : filter (is_finished (heap m2)) (active_tasks m2) = []).
    { apply no_entries. intros kv Hkv. apply filter_In in Hkv as [Hkv Hfin].
      unfold is_finished in Hfin. rewrite (Hact kv Hkv) in Hfin.
      rewrite (ae_status _ _ _ _ E), Hres in Hfin. discriminate. }
    unfold retrying.
    rewrite (ce_queue _ _ C), (ce_completed _ _ C), (ce_heap _ _ C), Hnone,
      (ae_queue _ _ _ _ E), (ae_completed _ _ _ _ E), (ae_status _ _ _ _ E),
      (ae_dependencies _ _ _ _ E), (ae_retry_count _ _ _ _ E),
      (ae_task_id _ _ _ _ E), Hres, attempts_check, (ae_attempts _ _ _ _ E).
    repeat split; try assumption.
    + simpl. now rewrite Hc.
    + intros kv Hkv. apply (ce_active _ _ C) in Hkv as [Hkv _]. now apply Hact.
    + unfold attempt_retry_count.
      destruct (work (with_status IN_PROGRESS (heap m1 r))) eqn:Hw.
      * simpl. rewrite Hj. lia.
      * exfalso.
        exact (always_raises (with_status IN_PROGRESS (heap m1 r)) Hid Hw).
    + rewrite String.eqb_refl.
      replace (attempts (task_id (heap m1 r)) m1)
        with (attempts (task_id (heap m r)) m) by (destruct m; reflexivity).
      rewrite Hn. lia.
  - assert (Hfin : forall kv, In kv (active_tasks m2) ->
                              is_finished (heap m2) kv = true).
    { intros kv Hkv. unfold is_finished. rewrite (Hact kv Hkv).
      now rewrite (ae_status _ _ _ _ E), Hres. }
    repeat split.
    + apply loop_condition_false_iff. split.
      * rewrite (ce_queue _ _ C), (ae_queue _ _ _ _ E), Hres. reflexivity.
      * apply no_entries. intros kv Hkv.
        apply (ce_active _ _ C) in Hkv as [Hkv Hout]. apply Hout.
        apply in_map. apply filter_In. split; [assumption | now apply Hfin].
    + now rewrite (ae_status _ _ _ _ E), Hres.
    + rewrite attempts_check, (ae_attempts _ _ _ _ E).
      replace (task_id (heap m1 r)) with tid by (symmetry; exact Hid).
      rewrite String.eqb_refl. rewrite Hid in Hn.
      replace (attempts tid m1) with (attempts tid m) by (destruct m; reflexivity).
      rewrite Hn. lia.
Qed.

Lemma loop_body_retrying j m w :
  lone_task m -> retrying r j j m ->
  exists m' w',
    loop_body work m w = Some (m', w')
    /\ lone_task m'
    /\ if Nat.ltb (S j) K
       then retrying r (S j) (S j) m'
       else loop_condition m' = false
            /\ status (heap m' r) = FAILED
            /\ attempts tid m' = S j.
Proof.
  intros Hl Hr. rewrite loop_body_eq.
  destruct (retrying_ready _ _ _ Hr) as [Hready _]. rewrite Hready.
  destruct (after_tick_retrying j m Hl Hr) as [Hl' Hnext].
  set (m1 := after_tick work m) in *.
  set (report := _generate_progress_report m1).
  pose proof (emit_report_effect report m1 w) as E.
  pose proof (attempts_emit tid report m1 w) as Hatt.
  pose proof (attempts_emit (task_id (heap m1 r)) report m1 w) as Hatt'.
  destruct (emit_report report m1 w) as [m' w']. cbn [fst] in E, Hatt, Hatt'.
  exists m', w'. split; [reflexivity|]. split.
  - unfold lone_task. now rewrite (em_heap _ _ _ E).
  - destruct (Nat.ltb (S j) K).
    + unfold retrying in *.
      now rewrite (em_queue _ _ _ E), (em_completed _ _ _ E),
        (em_active _ _ _ E), (em_heap _ _ _ E), Hatt'.
    + unfold loop_condition.
      rewrite (em_queue _ _ _ E), (em_active _ _ _ E), (em_heap _ _ _ E), Hatt.
      exact Hnext.
Qed.

Lemma execution_loop_retrying d : forall j m w fuel,
  lone_task m -> retrying r j j m -> K - S j <= d -> d < fuel ->
  exists m' w',
    execution_loop work fuel m w = Exited m' w'
    /\ status (heap m' r) = FAILED
    /\ attempts tid m' = Nat.max (S j) K.
Proof.
  induction d as [|d IH]; intros j m w fuel Hl Hr Hd Hfuel;
    (destruct fuel as [|fuel]; [lia|]); cbn [execution_loop];
    (assert (Hc : loop_condition m = true)
       by (unfold loop_condition; destruct Hr as (-> & _); reflexivity));
    rewrite Hc;
    destruct (loop_body_retrying j m w Hl Hr) as (m1 & w1 & -> & Hl1 & Hnext);
    destruct (Nat.ltb_spec (S j) K) as [Hlt|Hge]; try lia.
  - destruct Hnext as (Hc1 & Hst & Hatt). exists m1, w1.
    repeat split; [|assumption | lia].
    destruct fuel; simpl; now rewrite Hc1.
  - destruct (IH (S j) m1 w1 fuel Hl1 Hnext) as (m' & w' & He & Hst & Hatt);
      try lia.
    exists m', w'. repeat split; [assumption | assumption | lia].
  - destruct Hnext as (Hc1 & Hst & Hatt). exists m1, w1.
    repeat split; [|assumption | lia].
    destruct fuel; simpl; now rewrite Hc1.
Qed.

End RetryLaw.

Lemma add_tasks_log tasks : forall m,
  Forall (fun e => event_type e <> "task_started") (execution_log m) ->
  Forall (fun e => event_type e <> "task_started")
         (execution_log (add_tasks tasks m)).
Proof.
  induction tasks as [|r tasks IH]; intros m Hm; simpl; [exact Hm|].
  apply IH. simpl. apply Forall_app. split; [exact Hm|].
  repeat constructor. simpl. discriminate.
Qed.

Lemma register_callbacks_log callbacks : forall m,
  execution_log (fold_left (fun m cb => register_orchestrator_callback cb m)
                           callbacks m)
  = execution_log m.
Proof.
  induction callbacks as [|cb cbs IH]; intros m; simpl; [reflexivity|].
  now rewrite IH.
Qed.

Lemma attempts_none tid m :
  Forall (fun e => event_type e <> "task_started") (execution_log m) ->
  attempts tid m = 0.
Proof.
  unfold attempts. induction 1 as [|e l He _ IH]; simpl; [reflexivity|].
  unfold is_start_of at 1.
  destruct (String.eqb_spec (event_type e) "task_started");
    [contradiction | exact IH].
Qed.

(** What the code does with a lone task whose work raises on every attempt:
    given enough iterations the run returns with the task failed after
    [max 1 max_retry_attempts] attempts. *)
Lemma always_failing_task_attempts sid h callbacks r work w :
  status (h r) = PENDING -> dependencies (h r) = [] ->
  retry_count (h r) = 0%Z ->
  (forall t, task_id t = task_id (h r) -> work t <> None) ->
  forall fuel,
    Nat.max 1 (Z.to_nat (max_retry_attempts (h r))) <= fuel ->
    exists report m' w',
      start_autonomous_execution work fuel
        (new_session sid h callbacks [r]) w = Returned report m' w'
      /\ status (heap m' r) = FAILED
      /\ attempts (task_id (h r)) m'
         = Nat.max 1 (Z.to_nat (max_retry_attempts (h r))).
Proof.
  intros Hst Hd Hrc Hwork fuel Hfuel.
  pose proof (new_session_fresh sid h callbacks [r]) as F.
  unfold start_autonomous_execution.
  set (m := new_session sid h callbacks [r]) in *.
  set (m0 := _log_event "execution_started"
      [("total_tasks", JInt (Z.of_nat (List.length (task_queue m))));
       ("session_id", JStr (session_id m))] m).
  assert (Hh : heap m0 = h) by (subst m0; destruct m; exact (fs_heap _ _ _ _ F)).
  assert (Hlog : Forall (fun e => event_type e <> "task_started")
                        (execution_log m0)).
  { subst m0. unfold _log_event. cbn [execution_log set_execution_log].
    apply Forall_app. split.
    - subst m. unfold new_session. apply add_tasks_log.
      rewrite register_callbacks_log. constructor.
    - repeat constructor. cbn [event_type]. discriminate. }
  assert (Hl : lone_task r (task_id (h r)) (max_retry_attempts (h r)) m0)
    by (unfold lone_task; rewrite Hh; now split).
  assert (Hr : retrying r 0 0 m0).
  { unfold retrying. rewrite Hh.
    replace (task_queue m0) with (task_queue m) by reflexivity.
    replace (completed_tasks m0) with (completed_tasks m) by reflexivity.
    replace (active_tasks m0) with (active_tasks m) by reflexivity.
    rewrite (fs_queue _ _ _ _ F), (fs_completed _ _ _ _ F),
      (fs_active _ _ _ _ F).
    repeat split; try assumption; [intros kv [] | now apply attempts_none]. }
  destruct (execution_loop_retrying work r (task_id (h r))
              (max_retry_attempts (h r)) Hwork
              (Z.to_nat (max_retry_attempts (h r)) - 1) 0 m0 w fuel Hl Hr)
    as (m1 & w1 & He & Hst1 & Hatt1); try lia.
  rewrite He.
  pose proof (emit_report_effect (_generate_final_report m1) m1 w1) as E.
  pose proof (attempts_emit (task_id (h r)) (_generate_final_report m1) m1 w1)
    as Hatt.
  destruct (emit_report (_generate_final_report m1) m1 w1) as [m2 w2].
  simpl in E, Hatt. exists (_generate_final_report m1), m2, w2.
  split; [reflexivity|]. split.
  - now rewrite (em_heap _ _ _ E).
  - rewrite Hatt, Hatt1. reflexivity.
Qed.

End Properties.

(** * Concrete runs *)

(** C1.  Task D has [max_retry_attempts = 2] and work that always raises.
    The run ends with D failed after two attempts, not three: the counter is
    incremented before it is compared, so the last permitted retry is never
    made.  The task is retried once, yet its [retry_count] ends at 2. *)
Theorem retry_scenario_two_attempts :
  match start_autonomous_execution always_fails 5 session_D tt with
  | Returned report m _ =>
      max_retry_attempts (heap m 0) = 2%Z
      /\ attempts "D" m = 2
      /\ event_count "task_retry" m = 1
      /\ event_count "task_failed" m = 1
      /\ status (heap m 0) = FAILED
      /\ retry_count (heap m 0) = 2%Z
      /\ error_log (heap m 0) = ["boom"; "boom"]
      /\ Report.failed_tasks report = 1
  | _ => False
  end.
Proof. vm_compute. repeat split. Qed.

(** C4 (as stated) fails: with task D ready, the first call returns it and
    the second returns nothing. *)
Lemma selector_not_idempotent :
  match _find_ready_tasks session_D with
  | Some (first, m1) =>
      match _find_ready_tasks m1 with
      | Some (second, _) => first = [0] /\ second = [] /\ first <> second
      | None => False
      end
  | None => False
  end.
Proof. vm_compute. repeat split. discriminate. Qed.

(** C5.  One task completed out of two known: the completed count is not
    below half of the total, yet the label is still "Core Implementation". *)
Theorem phase_at_half_is_core :
  let report := _generate_progress_report manager_half in
  Report.total_tasks report = 2
  /\ Report.completed_tasks report = 1
  /\ ~ (2 * Report.completed_tasks report < Report.total_tasks report)
  /\ Report.current_phase report = "Core Implementation".
Proof. vm_compute. repeat split. lia. Qed.

(** C6 (as stated) fails: the final report of a run carries "Completed". *)
Lemma final_report_phase_outside_labels :
  match start_autonomous_execution always_succeeds 5 session_ABC tt with
  | Returned report _ _ =>
      Report.current_phase report = "Completed"
      /\ ~ In (Report.current_phase report) phase_labels
  | _ => False
  end.
Proof.
  vm_compute. split; [reflexivity|].
  intros [H|[H|[H|[H|[]]]]]; discriminate.
Qed.

(** C2 on a session whose only task waits for an identifier that no task
    carries: a hundred iterations are not enough, nor is any other number. *)
Lemma loop_exit_and_starvation_witness :
  In 0 (task_queue session_blocked)
  /\ status (heap session_blocked 0) = PENDING
  /\ In "ghost" (dependencies (heap session_blocked 0))
  /\ exists m' w',
       start_autonomous_execution always_succeeds 100 session_blocked tt
       = Unfinished m' w'.
Proof.
  assert (Hq : In 0 (task_queue session_blocked)) by (simpl; left; reflexivity).
  assert (Hs : status (heap session_blocked 0) = PENDING) by reflexivity.
  assert (Hd : In "ghost" (dependencies (heap session_blocked 0)))
    by (simpl; left; reflexivity).
  repeat split; try assumption.
  destruct (loop_exit_and_starvation (World := unit) always_succeeds)
    as (_ & _ & _ & Hstarve).
  apply (Hstarve session_blocked tt 0 "ghost" Hq Hs Hd).
  apply dangling_never_completed.
  intros r _. simpl. discriminate.
Defined.

(** C3 on the session A, B, C. *)
Lemma status_transitions_legal_witness :
  NoDup [0; 1; 2]
  /\ Forall (fun wr =>
              legal_edge (sw_old wr) (sw_new wr) = true
              /\ (sw_new wr = IN_PROGRESS ->
                  forall d,
                    In d (dependencies
                            (heap (manager_of
                                     (start_autonomous_execution
                                        always_succeeds 5 session_ABC tt))
                                  (sw_task wr))) ->
                    In d (sw_completed_ids wr)))
            (status_history
               (manager_of
                  (start_autonomous_execution always_succeeds 5 session_ABC tt))).
Proof.
  assert (Hnd : NoDup [0; 1; 2]).
  { repeat constructor; simpl; lia. }
  split; [exact Hnd|].
  exact (status_transitions_legal (World := unit) "s" heap_ABC [] [0; 1; 2]
           always_succeeds 5 tt Hnd).
Defined.

(** Why C3 asks for distinct task objects: the same object enqueued twice is
    selected twice in one scan and run twice, the second time from
    [COMPLETED]. *)
Example same_object_enqueued_twice :
  map (fun wr => (sw_task wr, sw_old wr, sw_new wr))
      (status_history
         (manager_of
            (start_autonomous_execution always_succeeds 5
               (new_session "s" heap_D [] [0; 0]) tt)))
  = [(0, PENDING, IN_PROGRESS); (0, IN_PROGRESS, COMPLETED);
     (0, COMPLETED, IN_PROGRESS); (0, IN_PROGRESS, COMPLETED)].
Proof. vm_compute. reflexivity. Qed.

(** The writes of the run on A, B, C: A first, then B and C once A is
    completed. *)
Example session_ABC_writes :
  map (fun wr => (sw_task wr, sw_old wr, sw_new wr, sw_completed_ids wr))
      (status_history
         (manager_of
            (start_autonomous_execution always_succeeds 5 session_ABC tt)))
  = [(0, PENDING, IN_PROGRESS, []); (0, IN_PROGRESS, COMPLETED, []);
     (1, PENDING, IN_PROGRESS, ["A"]); (1, IN_PROGRESS, COMPLETED, ["A"]);
     (2, PENDING, IN_PROGRESS, ["A"]); (2, IN_PROGRESS, COMPLETED, ["A"])].
Proof. vm_compute. reflexivity. Qed.

(** C9 on that task: after its first failure it sits in the queue and in the
    dictionary, and the report counts two tasks. *)
Lemma retried_task_counted_twice_witness :
  let m' := _check_task_completion (_execute_task always_fails 0 manager_retry) in
  status (heap m' 0) = PENDING
  /\ In 0 (task_queue m')
  /\ In ("D", 0) (active_tasks m')
  /\ Report.total_tasks (_generate_progress_report m')
     = List.length (task_queue m') + List.length (active_tasks m')
       + List.length (completed_tasks m')
  /\ 2 <= count_occ Nat.eq_dec (task_queue m' ++ map snd (active_tasks m')) 0.
Proof.
  apply (retried_task_counted_twice (World := unit) always_fails 0 "boom"
           manager_retry).
  - reflexivity.
  - simpl. lia.
  - simpl. constructor.
Defined.

Example retried_task_total :
  Report.total_tasks
    (_generate_progress_report
       (_check_task_completion (_execute_task always_fails 0 manager_retry)))
  = 2.
Proof. reflexivity. Qed.

(** C7 on three recording observers, the second of which raises: all three
    see the report, one failure is logged, and the run goes on to return. *)
Example observers_all_notified :
  let report := _generate_progress_report session_observed in
  let (m', w') := _notify_orchestrator report session_observed [] in
  map fst w' = ["first"; "second"; "third"]
  /\ Forall (fun entry => snd entry = report) w'
  /\ skipn (List.length (execution_log session_observed)) (execution_log m')
     = [failure_entry "s" "second failed"].
Proof. vm_compute. repeat split; repeat constructor. Qed.

Example observed_run_returns :
  match start_autonomous_execution always_succeeds 5 session_observed [] with
  | Returned report m w =>
      Report.completed_tasks report = 3
      /\ map fst w = ["first"; "second"; "third"; "first"; "second"; "third";
                      "first"; "second"; "third"]
  | _ => False
  end.
Proof. vm_compute. repeat split. Qed.

(** C8 and C10 on the retry scenario and on A, B, C. *)
Example session_ABC_sums :
  map (fun report => (report_sum report, Report.blocked_tasks report))
      (reports_history
         (manager_of
            (start_autonomous_execution always_succeeds 5 session_ABC tt)))
  = [(1, 0); (3, 0); (3, 0)].
Proof. vm_compute. reflexivity. Qed.

(** * Further properties of the runner *)

From Stdlib Require Import Permutation.

Section Runner.
Context {World : Type}.
Abbreviation Manager := (AutonomousManager World).
Implicit Types (m : Manager) (w : World) (r : ref) (h : Heap).
Implicit Type work : AutonomousTask -> option string.

(** ** The selector loses and invents nothing *)

Lemma filter_split_Permutation {A} (f : A -> bool) (l : list A) :
  Permutation (filter f l ++ filter (fun x => negb (f x)) l) l.
Proof.
  induction l as [|x l IH]; simpl; [constructor|].
  destruct (f x); simpl.
  - now constructor.
  - etransitivity; [symmetry; apply Permutation_middle|]. now constructor.
Qed.

Lemma is_ready_iff ids t :
  is_ready ids t = true
  <-> status t = PENDING /\ forall d, In d (dependencies t) -> In d ids.
Proof.
  split.
  - intros H. split; [eapply is_ready_pending; eauto|].
    now apply is_ready_dependencies.
  - intros [Hs Hd]. unfold is_ready. apply andb_true_intro. split.
    + now apply TaskStatus_eqb_eq.
    + apply forallb_forall. intros d Hin. apply mem_string_In. now apply Hd.
Qed.

(** X1.  The selector never raises.  The tasks it returns together with those it
    leaves in the queue are a rearrangement of the old queue; a task is
    returned exactly when it was queued, pending, and had every dependency
    among the identifiers of the completed history; nothing but the queue
    changes. *)
Theorem selector_splits_queue m :
  match _find_ready_tasks m with
  | Some (ready_tasks, m1) =>
      Permutation (ready_tasks ++ task_queue m1) (task_queue m)
      /\ (forall r,
            In r ready_tasks
            <-> In r (task_queue m) /\ status (heap m r) = PENDING
                /\ forall d, In d (dependencies (heap m r)) ->
                             In d (completed_task_ids m))
      /\ (forall r,
            In r (task_queue m1)
            <-> In r (task_queue m) /\ ~ In r ready_tasks)
      /\ heap m1 = heap m /\ active_tasks m1 = active_tasks m
      /\ completed_tasks m1 = completed_tasks m
      /\ execution_log m1 = execution_log m
  | None => False
  end.
Proof.
  rewrite _find_ready_tasks_eq. split; [|split; [|split]].
  - apply filter_split_Permutation.
  - intros r. unfold ready_refs. rewrite filter_In, is_ready_iff. tauto.
  - intros r. simpl. unfold waiting_refs, ready_refs. rewrite !filter_In.
    destruct (is_ready (completed_task_ids m) (heap m r)); simpl; split.
    + intros [_ H]. discriminate.
    + intros [Hq Hn]. exfalso. apply Hn. now split.
    + intros [Hq _]. split; [assumption|]. intros [_ H]. discriminate.
    + intros [Hq _]. now split.
  - now repeat split.
Qed.

(** ** Reconciliation is idempotent *)

Lemma filter_nothing {A} (f : A -> bool) (l : list A) :
  (forall x, In x l -> f x = false) -> filter f l = [].
Proof.
  induction l as [|x l IH]; intros H; simpl; [reflexivity|].
  rewrite (H x (or_introl eq_refl)). apply IH. intros y Hy. apply H. now right.
Qed.

(** X2.  Once [_check_task_completion] has run, running it again changes
    nothing: no task is appended to the completed history twice. *)
Theorem check_task_completion_idempotent m :
  NoDup (map fst (active_tasks m)) ->
  _check_task_completion (_check_task_completion m) = _check_task_completion m.
Proof.
  intros Hnd.
  assert (Hnone : filter (is_finished (heap (_check_task_completion m)))
                         (active_tasks (_check_task_completion m)) = []).
  { apply filter_nothing. intros kv Hkv.
    apply _check_task_completion_active in Hkv as [_ Hkv]; assumption. }
  revert Hnone. generalize (_check_task_completion m) as m1. intros m1 Hnone.
  unfold _check_task_completion. rewrite Hnone. simpl.
  rewrite app_nil_r. destruct m1; reflexivity.
Qed.

End Runner.

Lemma check_task_completion_idempotent_witness :
  let m := _execute_task always_succeeds 0 manager_retry in
  active_tasks m = [("D", 0)]
  /\ completed_tasks (_check_task_completion m) = [0]
  /\ _check_task_completion (_check_task_completion m)
     = _check_task_completion m.
Proof.
  intros m. split; [reflexivity|]. split; [reflexivity|].
  apply (check_task_completion_idempotent (World := unit)).
  simpl. repeat constructor. simpl. intros [].
Defined.

(** * No task is lost *)

Section Accounting.
Context {World : Type}.
Abbreviation Manager := (AutonomousManager World).
Implicit Types (m : Manager) (w : World) (r : ref).
Implicit Type work : AutonomousTask -> option string.

(** The session under study: the store as the caller built it and the tasks
    it enqueued, no two of which carry the same identifier. *)
Variables (h : Heap) (tasks : list ref).
Hypothesis unique_ids : NoDup (map (fun r => task_id (h r)) tasks).

Definition finb (h' : Heap) (r : ref) : bool :=
  match status (h' r) with
  | COMPLETED | FAILED => true
  | _ => false
  end.

Definition active_refs m : list ref := map snd (active_tasks m).

Definition finished_refs m : list ref :=
  filter (finb (heap m)) (active_refs m).

(** Identifier, dependencies and retry budget of a task never change. *)
Definition frozen m : Prop :=
  forall r, task_id (heap m r) = task_id (h r)
            /\ dependencies (heap m r) = dependencies (h r)
            /\ max_retry_attempts (heap m r) = max_retry_attempts (h r).

Lemma unique_ids_inj r r' :
  In r tasks -> In r' tasks -> task_id (h r) = task_id (h r') -> r = r'.
Proof.
  clear -unique_ids. induction tasks as [|x l IH]; simpl; [intros []|].
  inversion unique_ids as [|? ? Hx Hl]; subst.
  intros [<-|Hr] [<-|Hr'] E; try reflexivity.
  - exfalso. apply Hx. rewrite E. now apply (in_map (fun r => task_id (h r))).
  - exfalso. apply Hx. rewrite <- E. now apply (in_map (fun r => task_id (h r))).
  - now apply IH.
Qed.

Lemma unique_ids_NoDup : NoDup tasks.
Proof. exact (NoDup_map_inv _ _ unique_ids). Qed.

(** *** Dictionary updates seen through the values *)

Lemma dict_set_refs k v (d : list (string * ref)) :
  (forall kv, In kv d -> fst kv = k -> snd kv = v) ->
  map snd (dict_set k v d)
  = if in_dec string_dec k (map fst d) then map snd d else map snd d ++ [v].
Proof.
  induction d as [|[k' v'] d IH]; intros Hv; simpl; [reflexivity|].
  destruct (String.eqb_spec k' k) as [->|Hne]; simpl.
  - assert (E : v' = v) by exact (Hv (k, v') (or_introl eq_refl) eq_refl).
    subst v'. destruct (string_dec k k); [reflexivity | contradiction].
  - rewrite IH by (intros kv Hkv; apply Hv; now right).
    destruct (string_dec k' k); [contradiction|].
    destruct (in_dec string_dec k (map fst d)); reflexivity.
Qed.

Lemma dict_del_all_filter ks : forall (d : list (string * ref)),
  fold_left (fun d k => dict_del k d) ks d
  = filter (fun kv => negb (existsb (String.eqb (fst kv)) ks)) d.
Proof.
  induction ks as [|k ks IH]; intros d; simpl.
  - induction d as [|kv d IHd]; simpl; [reflexivity | now rewrite <- IHd].
  - rewrite IH. unfold dict_del. clear IH.
    induction d as [|kv d IHd]; simpl; [reflexivity|].
    destruct (String.eqb (fst kv) k); simpl; [exact IHd|].
    destruct (existsb (String.eqb (fst kv)) ks); simpl; [exact IHd|].
    now rewrite IHd.
Qed.

Lemma NoDup_map_filter {A B} (g : A -> B) (f : A -> bool) (l : list A) :
  NoDup (map g l) -> NoDup (map g (filter f l)).
Proof.
  induction l as [|x l IH]; simpl; intros H; [constructor|].
  inversion H as [|? ? Hx Hl]; subst.
  destruct (f x); simpl; [|now apply IH].
  constructor; [|now apply IH].
  intros Hin. apply Hx. apply in_map_iff in Hin as [y [E Hy]].
  apply filter_In in Hy as [Hy _]. rewrite <- E. now apply in_map.
Qed.

(** Marking one more element of a duplicate-free list. *)
Lemma filter_mark (f f' : ref -> bool) (l : list ref) r :
  NoDup l -> In r l -> f r = false ->
  (forall x, x <> r -> f' x = f x) ->
  Permutation (filter f' l) ((if f' r then [r] else []) ++ filter f l).
Proof.
  intros Hnd Hin Hr Hext. induction l as [|x l IH]; [destruct Hin|].
  inversion Hnd as [|? ? Hx Hl]; subst. simpl.
  destruct (Nat.eq_dec x r) as [->|Hne].
  - rewrite Hr.
    replace (filter f' l) with (filter f l).
    + destruct (f' r); reflexivity.
    + apply filter_ext_in. intros y Hy. symmetry. apply Hext.
      intros ->. contradiction.
  - rewrite (Hext x Hne). destruct Hin as [E|Hin]; [contradiction|].
    specialize (IH Hl Hin). destruct (f x); [|exact IH].
    etransitivity; [apply perm_skip; exact IH|].
    destruct (f' r); simpl; [apply perm_swap | reflexivity].
Qed.

Lemma dict_set_In_cases k v (d : list (string * ref)) kv :
  In kv (dict_set k v d) -> In kv d \/ kv = (k, v).
Proof.
  induction d as [|[k' v'] d IH]; simpl.
  - intros [<-|[]]. now right.
  - destruct (String.eqb_spec k' k) as [->|Hne]; simpl.
    + intros [<-|H]; [now right | left; now right].
    + intros [<-|H]; [left; now left|].
      destruct (IH H); [left; now right | now right].
Qed.

Lemma map_filter_snd (f : ref -> bool) (l : list (string * ref)) :
  map snd (filter (fun kv => f (snd kv)) l) = filter f (map snd l).
Proof.
  induction l as [|kv l IH]; simpl; [reflexivity|].
  destruct (f (snd kv)); simpl; now rewrite IH.
Qed.

(** *** The collections while the ready tasks are run *)

Record mid (rest : list ref) m : Prop := {
  mid_frozen : frozen m;
  mid_perm :
    Permutation
      (rest ++ task_queue m ++ finished_refs m ++ completed_tasks m) tasks;
  mid_keys :
    forall kv, In kv (active_tasks m) -> fst kv = task_id (h (snd kv));
  mid_where :
    forall r, In r (active_refs m) ->
              finb (heap m) r = true \/ In r rest \/ In r (task_queue m);
  mid_nodup : NoDup (active_refs m);
  mid_dict : NoDup (map fst (active_tasks m));
  mid_ready :
    forall r, In r rest -> is_ready (completed_task_ids m) (heap m r) = true;
  mid_settled :
    forall r, In r (completed_tasks m) -> finished_status (status (heap m r))
}.

Lemma mid_all_NoDup rest m :
  mid rest m ->
  NoDup (rest ++ task_queue m ++ finished_refs m ++ completed_tasks m).
Proof.
  intros M. eapply Permutation_NoDup.
  - symmetry. apply (mid_perm _ _ M).
  - exact unique_ids_NoDup.
Qed.

Lemma mid_active_in_tasks rest m r :
  mid rest m -> In r (active_refs m) -> In r tasks.
Proof.
  intros M Hr. apply (Permutation_in _ (mid_perm _ _ M)).
  destruct (mid_where _ _ M r Hr) as [Hf|[Hin|Hin]].
  - apply in_or_app; right. apply in_or_app; right. apply in_or_app; left.
    apply filter_In. now split.
  - apply in_or_app. now left.
  - apply in_or_app; right. apply in_or_app. now left.
Qed.

Lemma finb_finished h' r : finb h' r = true <-> finished_status (status (h' r)).
Proof.
  unfold finb, finished_status. destruct (status (h' r)); split; intros H;
    try reflexivity; try discriminate; try (now left); try (now right);
    destruct H; discriminate.
Qed.

Lemma mid_step work r rest m :
  mid (r :: rest) m -> mid rest (_execute_task work r m).
Proof.
  intros M. pose proof (_execute_task_effect work r m) as E.
  pose proof (mid_all_NoDup _ _ M) as Hall.
  pose proof (mid_frozen _ _ M) as Hfro.
  assert (Hr_tasks : In r tasks).
  { apply (Permutation_in _ (mid_perm _ _ M)). now left. }
  assert (Hr_ready := mid_ready _ _ M r (or_introl eq_refl)).
  assert (Hr_pending := is_ready_pending _ _ Hr_ready).
  assert (Hr_unfin : finb (heap m) r = false)
    by (unfold finb; now rewrite Hr_pending).
  set (k := task_id (heap m r)) in *.
  assert (Hk : k = task_id (h r)) by (subst k; apply Hfro).
  assert (Hval : forall kv, In kv (active_tasks m) -> fst kv = k -> snd kv = r).
  { intros kv Hkv Hfst. apply unique_ids_inj.
    - eapply mid_active_in_tasks; eauto. now apply in_map.
    - assumption.
    - rewrite <- (mid_keys _ _ M kv Hkv). congruence. }
  assert (Hpresent : In k (map fst (active_tasks m)) <-> In r (active_refs m)).
  { split; intros Hin; apply in_map_iff in Hin as [kv [Ekv Hkv]].
    - apply in_map_iff. exists kv. split; [now apply Hval | assumption].
    - apply in_map_iff. exists kv. split; [|assumption].
      rewrite (mid_keys _ _ M kv Hkv), Ekv. now symmetry. }
  assert (Hrefs : active_refs (_execute_task work r m)
                  = if in_dec Nat.eq_dec r (active_refs m)
                    then active_refs m else active_refs m ++ [r]).
  { unfold active_refs at 1. rewrite (ae_active _ _ _ _ E).
    fold k. rewrite (dict_set_refs k r (active_tasks m) Hval).
    destruct (in_dec string_dec k (map fst (active_tasks m))) as [Hi|Hn],
             (in_dec Nat.eq_dec r (active_refs m)) as [Hi'|Hn'];
      try reflexivity; exfalso; tauto. }
  assert (Hsame : forall x, x <> r ->
            finb (heap (_execute_task work r m)) x = finb (heap m) x).
  { intros x Hx. unfold finb. now rewrite (ae_other _ _ _ _ E). }
  set (res := attempt_result work (heap m r)) in *.
  assert (Hfin' : finb (heap (_execute_task work r m)) r
                  = match res with PENDING => false | _ => true end).
  { unfold finb. rewrite (ae_status _ _ _ _ E). fold res.
    destruct (attempt_result_cases work (heap m r)) as [Hc|[Hc|Hc]];
      fold res in Hc; rewrite Hc; reflexivity. }
  assert (Hfinished :
            Permutation (finished_refs (_execute_task work r m))
              ((if finb (heap (_execute_task work r m)) r then [r] else [])
                 ++ finished_refs m)).
  { unfold finished_refs. rewrite Hrefs.
    destruct (in_dec Nat.eq_dec r (active_refs m)) as [Hi|Hn].
    - apply filter_mark; auto. apply (mid_nodup _ _ M).
    - rewrite filter_app. simpl.
      replace (filter (finb (heap (_execute_task work r m))) (active_refs m))
        with (filter (finb (heap m)) (active_refs m)).
      + destruct (finb (heap (_execute_task work r m)) r);
          [apply Permutation_app_comm | now rewrite app_nil_r].
      + apply filter_ext_in. intros x Hx. symmetry. apply Hsame.
        intros ->. contradiction. }
  assert (Hids : completed_task_ids (_execute_task work r m)
                 = completed_task_ids m).
  { apply completed_task_ids_ext; [apply (ae_completed _ _ _ _ E)|].
    apply (ae_task_id _ _ _ _ E). }
  inversion Hall as [|? ? Hr_out Hrest_nd]; subst.
  constructor.
  - intros x. destruct (Hfro x) as (H1 & H2 & H3).
    rewrite (ae_task_id _ _ _ _ E), (ae_dependencies _ _ _ _ E),
      (ae_max_retry _ _ _ _ E). auto.
  - etransitivity; [|apply (mid_perm _ _ M)].
    rewrite (ae_queue _ _ _ _ E), (ae_completed _ _ _ _ E). fold res.
    rewrite Hfin' in Hfinished.
    assert (Hgoal : forall q' f',
      Permutation (q' ++ f') (r :: task_queue m ++ finished_refs m) ->
      Permutation (rest ++ q' ++ f' ++ completed_tasks m)
        ((r :: rest) ++ task_queue m ++ finished_refs m ++ completed_tasks m)).
    { intros q' f' Hp. simpl.
      transitivity (rest ++ (r :: task_queue m ++ finished_refs m)
                         ++ completed_tasks m).
      - apply Permutation_app_head. rewrite app_assoc.
        apply Permutation_app_tail. exact Hp.
      - simpl. rewrite <- app_assoc. symmetry. apply Permutation_middle. }
    apply Hgoal.
    assert (Hcases := attempt_result_cases work (heap m r)). fold res in Hcases.
    revert Hfinished Hcases.
    generalize (finished_refs (_execute_task work r m)) as f'.
    generalize res as s'. intros s' f' Hfinished [->|[->| ->]].
    + etransitivity; [apply Permutation_app_head; exact Hfinished|]. simpl.
      symmetry. apply Permutation_middle.
    + etransitivity; [apply Permutation_app_head; exact Hfinished|]. simpl.
      rewrite <- app_assoc. simpl. symmetry. apply Permutation_middle.
    + etransitivity; [apply Permutation_app_head; exact Hfinished|]. simpl.
      symmetry. apply Permutation_middle.
  - intros kv Hkv. rewrite (ae_active _ _ _ _ E) in Hkv. fold k in Hkv.
    apply dict_set_In_cases in Hkv as [Hkv| ->];
      [now apply (mid_keys _ _ M) | exact Hk].
  - intros x Hx. rewrite Hrefs in Hx.
    assert (Hx' : x = r \/ In x (active_refs m)).
    { destruct (in_dec Nat.eq_dec r (active_refs m)); [now right|].
      apply in_app_or in Hx as [Hx|[<-|[]]]; auto. }
    destruct (Nat.eq_dec x r) as [->|Hne].
    + rewrite Hfin'. rewrite (ae_queue _ _ _ _ E). fold res.
      destruct res; auto. right; right. apply in_or_app. right. now left.
    + destruct Hx' as [->|Hx']; [contradiction|].
      rewrite (Hsame x Hne).
      destruct (mid_where _ _ M x Hx') as [Hf|[[Hxr|Hin]|Hin]].
      * now left.
      * exfalso. apply Hne. now symmetry.
      * right. now left.
      * right; right. rewrite (ae_queue _ _ _ _ E).
        destruct (attempt_result work (heap m r)); try assumption.
        apply in_or_app. now left.
  - rewrite Hrefs. destruct (in_dec Nat.eq_dec r (active_refs m)) as [Hi|Hn];
      [apply (mid_nodup _ _ M)|].
    apply NoDup_app; [apply (mid_nodup _ _ M) | repeat constructor; intros [] |].
    intros x Hx [<-|[]]. contradiction.
  - rewrite (ae_active _ _ _ _ E). apply dict_set_NoDup. apply (mid_dict _ _ M).
  - intros x Hx. rewrite Hids. rewrite (ae_other _ _ _ _ E).
    + apply (mid_ready _ _ M). now right.
    + intros ->. apply Hr_out. apply in_or_app. now left.
  - intros x Hx. rewrite (ae_completed _ _ _ _ E) in Hx.
    rewrite (ae_other _ _ _ _ E); [now apply (mid_settled _ _ M)|].
    intros ->. apply Hr_out. apply in_or_app; right. apply in_or_app; right.
    apply in_or_app. now right.
Qed.

(** *** The collections between two iterations *)

Record tidy m : Prop := {
  td_frozen : frozen m;
  td_perm : Permutation (task_queue m ++ completed_tasks m) tasks;
  td_keys :
    forall kv, In kv (active_tasks m) -> fst kv = task_id (h (snd kv));
  td_active :
    forall r, In r (active_refs m) ->
              finb (heap m) r = false /\ In r (task_queue m);
  td_nodup : NoDup (active_refs m);
  td_dict : NoDup (map fst (active_tasks m));
  td_settled :
    forall r, In r (completed_tasks m) -> finished_status (status (heap m r))
}.

Lemma tidy_to_mid m :
  tidy m -> mid (ready_refs m) (set_task_queue (waiting_refs m) m).
Proof.
  intros T.
  assert (Hnone : finished_refs (set_task_queue (waiting_refs m) m) = []).
  { apply filter_nothing. intros r Hr. now apply (td_active _ T). }
  constructor; try (destruct m; apply T).
  - rewrite Hnone. simpl.
    etransitivity; [|apply (td_perm _ T)]. rewrite app_assoc.
    apply Permutation_app_tail. apply filter_split_Permutation.
  - intros r Hr. right.
    destruct (td_active _ T r Hr) as [_ Hq].
    unfold ready_refs. simpl. unfold waiting_refs. rewrite !filter_In.
    destruct (is_ready (completed_task_ids m) (heap m r)); auto.
  - intros r Hr. apply filter_In in Hr as [_ Hr]. exact Hr.
Qed.

Lemma mid_to_tidy m : mid [] m -> tidy (_check_task_completion m).
Proof.
  intros M. pose proof (_check_task_completion_effect m) as C.
  assert (Hact : active_tasks (_check_task_completion m)
                 = filter (fun kv => negb (finb (heap m) (snd kv)))
                          (active_tasks m)).
  { unfold _check_task_completion. simpl. rewrite dict_del_all_filter.
    apply filter_ext_in. intros kv Hkv. f_equal.
    destruct (finb (heap m) (snd kv)) eqn:Hf.
    - apply existsb_exists. exists (fst kv). split; [|apply String.eqb_refl].
      apply in_map. apply filter_In. split; [assumption | exact Hf].
    - destruct (existsb _ _) eqn:Hex; [|reflexivity]. exfalso.
      apply existsb_exists in Hex as [k' [Hk' Ek]].
      apply String.eqb_eq in Ek. subst k'.
      apply in_map_iff in Hk' as [kv' [Ek Hkv']].
      apply filter_In in Hkv' as [Hkv' Hf'].
      destruct kv as [k v], kv' as [k' v']. simpl in *. subst k'.
      assert (v = v') by (eapply NoDup_keys_functional;
                          [apply (mid_dict _ _ M)| |]; eauto).
      subst v'. unfold is_finished, finb in *. simpl in *. congruence. }
  assert (Hdone : map snd (filter (is_finished (heap m)) (active_tasks m))
                  = finished_refs m).
  { unfold finished_refs, active_refs. rewrite <- map_filter_snd. reflexivity. }
  constructor.
  - intros r. rewrite (ce_heap _ _ C). apply (mid_frozen _ _ M).
  - rewrite (ce_queue _ _ C), (ce_completed _ _ C), Hdone.
    etransitivity; [|apply (mid_perm _ _ M)]. simpl.
    apply Permutation_app_head. apply Permutation_app_comm.
  - intros kv Hkv. rewrite Hact in Hkv. apply filter_In in Hkv as [Hkv _].
    now apply (mid_keys _ _ M).
  - intros r Hr. unfold active_refs in Hr. rewrite Hact in Hr.
    apply in_map_iff in Hr as [kv [<- Hkv]].
    apply filter_In in Hkv as [Hkv Hf]. apply negb_true_iff in Hf.
    rewrite (ce_heap _ _ C), (ce_queue _ _ C). split; [exact Hf|].
    destruct (mid_where _ _ M (snd kv)) as [Hf'|[[]|Hq]];
      [now apply in_map | congruence | exact Hq].
  - unfold active_refs. rewrite Hact. apply NoDup_map_filter.
    apply (mid_nodup _ _ M).
  - rewrite Hact. apply NoDup_map_filter. apply (mid_dict _ _ M).
  - intros r Hr. rewrite (ce_heap _ _ C).
    rewrite (ce_completed _ _ C), Hdone in Hr.
    apply in_app_or in Hr as [Hr|Hr]; [now apply (mid_settled _ _ M)|].
    apply filter_In in Hr as [_ Hr]. now apply finb_finished.
Qed.

Lemma tidy_after_tick work m : tidy m -> tidy (after_tick work m).
Proof.
  intros T. unfold after_tick. apply mid_to_tidy.
  apply (run_ready_invariant work mid (mid_step work)). now apply tidy_to_mid.
Qed.

Lemma tidy_emit report m w : tidy m -> tidy (fst (emit_report report m w)).
Proof.
  intros T. pose proof (emit_report_effect report m w) as E.
  constructor; unfold frozen, active_refs;
    rewrite ?(em_heap _ _ _ E), ?(em_queue _ _ _ E), ?(em_active _ _ _ E),
      ?(em_completed _ _ _ E); apply T.
Qed.

Lemma tidy_loop work fuel m w :
  tidy m -> tidy (loop_manager (execution_loop work fuel m w)).
Proof.
  apply (execution_loop_invariant work tidy).
  intros m1 w1 m' w' T _ Hb. rewrite loop_body_eq in Hb.
  pose proof (tidy_after_tick work m1 T) as T'.
  destruct (ready_refs m1); inversion Hb as [Hb']; [exact T'|].
  pose proof (tidy_emit (_generate_progress_report (after_tick work m1))
                        _ w1 T') as G.
  now rewrite Hb' in G.
Qed.

Lemma tidy_log ev d m : tidy m -> tidy (_log_event ev d m).
Proof. intros T. destruct m. destruct T. constructor; assumption. Qed.

Lemma tidy_start work fuel m w :
  tidy m -> tidy (manager_of (start_autonomous_execution work fuel m w)).
Proof.
  intros T. unfold start_autonomous_execution.
  set (m0 := _log_event _ _ m).
  assert (T0 : tidy m0) by now apply tidy_log.
  pose proof (tidy_loop work fuel m0 w T0) as Hloop.
  destruct (execution_loop work fuel m0 w) as [m1 w1|m1 w1|m1 w1];
    simpl in Hloop |- *; try exact Hloop.
  pose proof (tidy_emit (_generate_final_report m1) m1 w1 Hloop) as H.
  destruct (emit_report (_generate_final_report m1) m1 w1). exact H.
Qed.

Lemma tidy_fresh callbacks m : fresh_session h callbacks tasks m -> tidy m.
Proof.
  intros F. constructor; unfold frozen, active_refs;
    rewrite ?(fs_heap _ _ _ _ F), ?(fs_queue _ _ _ _ F),
      ?(fs_active _ _ _ _ F), ?(fs_completed _ _ _ _ F); simpl;
    try (intros ? []); try constructor; auto.
  now rewrite app_nil_r.
Qed.

Lemma execution_loop_exited work fuel : forall m w m' w',
  execution_loop work fuel m w = Exited m' w' -> loop_condition m' = false.
Proof.
  induction fuel as [|fuel IH]; intros m w m' w'; simpl.
  - destruct (loop_condition m) eqn:Hc; [discriminate|].
    intros H; inversion H; subst. exact Hc.
  - destruct (loop_condition m) eqn:Hc.
    + destruct (loop_body work m w) as [[m1 w1]|]; [apply IH | discriminate].
    + intros H; inversion H; subst. exact Hc.
Qed.

(** X3.  In a session whose tasks carry distinct identifiers no task is lost or
    duplicated: between iterations the pending queue and the completed
    history together hold each enqueued task exactly once, and every active
    task is also in the queue.  When the run returns, the completed history
    is a rearrangement of the enqueued tasks, each of them is completed or
    failed, and the final report has [total_tasks] equal to the number of
    tasks enqueued and [completed_tasks + failed_tasks] equal to it too. *)
Theorem every_task_accounted sid callbacks work fuel w :
  let outcome := start_autonomous_execution work fuel
                   (new_session sid h callbacks tasks) w in
  Permutation (task_queue (manager_of outcome)
                 ++ completed_tasks (manager_of outcome)) tasks
  /\ (forall r, In r (map snd (active_tasks (manager_of outcome))) ->
                In r (task_queue (manager_of outcome)))
  /\ match outcome with
     | Returned report m' _ =>
         Permutation (completed_tasks m') tasks
         /\ (forall r, In r tasks ->
                       status (heap m' r) = COMPLETED
                       \/ status (heap m' r) = FAILED)
         /\ Report.total_tasks report = List.length tasks
         /\ Report.completed_tasks report + Report.failed_tasks report
            = List.length tasks
     | _ => True
     end.
Proof.
  intros outcome.
  pose proof (tidy_fresh callbacks _ (new_session_fresh sid h callbacks tasks))
    as T0.
  pose proof (tidy_start work fuel _ w T0) as T. fold outcome in T.
  split; [apply (td_perm _ T)|]. split; [intros r Hr; now apply (td_active _ T)|].
  subst outcome. unfold start_autonomous_execution in *.
  set (m0 := _log_event _ _ (new_session sid h callbacks tasks)) in *.
  destruct (execution_loop work fuel m0 w) as [m1 w1|m1 w1|m1 w1] eqn:Hl;
    try exact I.
  apply execution_loop_exited in Hl.
  apply loop_condition_false_iff in Hl as [Hq Ha].
  pose proof (emit_report_effect (_generate_final_report m1) m1 w1) as E.
  destruct (emit_report (_generate_final_report m1) m1 w1) as [m2 w2].
  simpl in E, T.
  assert (Hperm : Permutation (completed_tasks m2) tasks).
  { pose proof (td_perm _ T) as P.
    now rewrite (em_queue _ _ _ E), Hq in P. }
  assert (Hlen : List.length (completed_tasks m1) = List.length tasks).
  { rewrite <- (em_completed _ _ _ E). now apply Permutation_length. }
  assert (Hset : settled m1).
  { split.
    - intros r Hr. rewrite <- (em_heap _ _ _ E).
      apply (td_settled _ T). now rewrite (em_completed _ _ _ E).
    - rewrite Ha. intros kv []. }
  split; [exact Hperm|]. split; [|split].
  - intros r Hr. apply (td_settled _ T).
    apply (Permutation_in _ (Permutation_sym Hperm) Hr).
  - simpl. rewrite Hq, Ha. simpl. exact Hlen.
  - destruct (progress_report_settled m1 Hset) as [_ Hsum].
    unfold report_sum in Hsum. simpl in Hsum |- *. now rewrite Hsum.
Qed.

End Accounting.

(** On A, B, C. *)
Lemma every_task_accounted_witness :
  NoDup (map (fun r => task_id (heap_ABC r)) [0; 1; 2])
  /\ let outcome := start_autonomous_execution always_succeeds 5
                      session_ABC tt in
     Permutation (task_queue (manager_of outcome)
                    ++ completed_tasks (manager_of outcome)) [0; 1; 2]
     /\ (forall r, In r (map snd (active_tasks (manager_of outcome))) ->
                   In r (task_queue (manager_of outcome)))
     /\ match outcome with
        | Returned report m' _ =>
            Permutation (completed_tasks m') [0; 1; 2]
            /\ (forall r, In r [0; 1; 2] ->
                          status (heap m' r) = COMPLETED
                          \/ status (heap m' r) = FAILED)
            /\ Report.total_tasks report = List.length [0; 1; 2]
            /\ Report.completed_tasks report + Report.failed_tasks report
               = List.length [0; 1; 2]
        | _ => True
        end.
Proof.
  assert (Hnd : NoDup (map (fun r => task_id (heap_ABC r)) [0; 1; 2])).
  { cbn. repeat constructor; cbn; intuition discriminate. }
  split; [exact Hnd|].
  exact (every_task_accounted (World := unit) heap_ABC [0; 1; 2] Hnd
           "s" [] always_succeeds 5 tt).
Defined.

Example session_ABC_returns_all :
  match start_autonomous_execution always_succeeds 5 session_ABC tt with
  | Returned report m' _ =>
      completed_tasks m' = [0; 1; 2] /\ Report.total_tasks report = 3
      /\ Report.completed_tasks report = 3
  | _ => False
  end.
Proof. vm_compute. repeat split. Qed.

(** * Every well-ordered plan runs to the end *)

(** Dependencies that only name tasks placed earlier in the list. *)
Fixpoint deps_ordered (h : Heap) (seen : list string) (l : list ref) : bool :=
  match l with
  | [] => true
  | r :: l' =>
      forallb (fun d => mem_string d seen) (dependencies (h r))
      && deps_ordered h (task_id (h r) :: seen) l'
  end.

(** Attempts a queued task can still take: one, or what is left of its
    budget. *)
Definition attempts_left (t : AutonomousTask) : nat :=
  Z.to_nat (Z.max 1 (max_retry_attempts t - retry_count t)).

Definition total_attempts_left (h : Heap) (l : list ref) : nat :=
  list_sum (map (fun r => attempts_left (h r)) l).

Section Liveness.
Context {World : Type}.
Abbreviation Manager := (AutonomousManager World).
Implicit Types (m : Manager) (w : World) (r : ref).
Implicit Type work : AutonomousTask -> option string.

Variables (h : Heap) (tasks : list ref).
Hypothesis unique_ids : NoDup (map (fun r => task_id (h r)) tasks).
Hypothesis all_pending : forall r, In r tasks -> status (h r) = PENDING.
Hypothesis ordered : deps_ordered h [] tasks = true.

Lemma deps_ordered_split seen l :
  deps_ordered h seen l = true ->
  forall pre r post, l = pre ++ r :: post ->
    forall d, In d (dependencies (h r)) ->
      In d seen \/ In d (map (fun x => task_id (h x)) pre).
Proof.
  revert seen. induction l as [|x l IH]; intros seen Ho pre r post E d Hd.
  - destruct pre; discriminate.
  - simpl in Ho. apply andb_prop in Ho as [Hx Hl].
    destruct pre as [|p pre]; simpl in E; inversion E; subst.
    + left. rewrite forallb_forall in Hx. apply mem_string_In. now apply Hx.
    + destruct (IH _ Hl pre r post eq_refl d Hd) as [[<-|H]|H].
      * right. now left.
      * now left.
      * right. now right.
Qed.

Lemma first_queued (q : list ref) : forall l,
  (exists r, In r l /\ In r q) ->
  exists pre r post, l = pre ++ r :: post /\ In r q
                     /\ forall x, In x pre -> ~ In x q.
Proof.
  induction l as [|x l IH]; intros [r [Hr Hq]]; [destruct Hr|].
  destruct (in_dec Nat.eq_dec x q) as [Hx|Hx].
  - exists [], x, l. split; [reflexivity|]. split; [assumption|]. intros ? [].
  - destruct Hr as [->|Hr]; [contradiction|].
    destruct (IH (ex_intro _ r (conj Hr Hq))) as (pre & y & post & E & Hy & Hpre).
    exists (x :: pre), y, post. subst l.
    split; [reflexivity|]. split; [assumption|].
    intros z [<-|Hz]; auto.
Qed.

Lemma total_attempts_left_app hp l1 l2 :
  total_attempts_left hp (l1 ++ l2)
  = total_attempts_left hp l1 + total_attempts_left hp l2.
Proof. unfold total_attempts_left. now rewrite map_app, list_sum_app. Qed.

Lemma total_attempts_left_perm hp l1 l2 :
  Permutation l1 l2 -> total_attempts_left hp l1 = total_attempts_left hp l2.
Proof.
  induction 1; unfold total_attempts_left in *; simpl; lia.
Qed.

Lemma total_attempts_left_ext hp hp' l :
  (forall r, In r l -> hp' r = hp r) ->
  total_attempts_left hp' l = total_attempts_left hp l.
Proof.
  intros H. unfold total_attempts_left. f_equal. apply map_ext_in.
  intros r Hr. now rewrite H.
Qed.

Lemma attempts_left_positive t : 1 <= attempts_left t.
Proof. unfold attempts_left. lia. Qed.

Lemma attempt_pending_inv work t :
  attempt_result work t = PENDING ->
  attempt_retry_count work t = (retry_count t + 1)%Z
  /\ (retry_count t + 1 < max_retry_attempts t)%Z.
Proof.
  unfold attempt_result, attempt_retry_count.
  destruct (work (with_status IN_PROGRESS t)); [|discriminate].
  destruct (Z.ltb_spec (retry_count t + 1) (max_retry_attempts t));
    [auto | discriminate].
Qed.

Definition queue_pending m : Prop :=
  forall r, In r (task_queue m) -> status (heap m r) = PENDING.

Definition left_in_queue m : nat :=
  total_attempts_left (heap m) (task_queue m).

(** While the ready tasks are run: [n] of them in all, [N] attempts left
    when the iteration began. *)
Definition draining (n N : nat) (rest : list ref) m : Prop :=
  mid h tasks rest m /\ queue_pending m
  /\ total_attempts_left (heap m) rest + left_in_queue m + n
     <= N + List.length rest.

Lemma draining_step work n N r rest m :
  draining n N (r :: rest) m -> draining n N rest (_execute_task work r m).
Proof.
  intros (M & Hp & Hle). pose proof (_execute_task_effect work r m) as E.
  pose proof (mid_all_NoDup h tasks unique_ids _ _ M) as Hall.
  inversion Hall as [|? ? Hr_out _]; subst.
  assert (Hr_rest : ~ In r rest)
    by (intros H; apply Hr_out; apply in_or_app; now left).
  assert (Hr_queue : ~ In r (task_queue m)).
  { intros H; apply Hr_out; apply in_or_app; right; apply in_or_app; now left. }
  split; [now apply (mid_step h tasks unique_ids)|]. split.
  - intros x Hx. rewrite (ae_queue _ _ _ _ E) in Hx.
    destruct (Nat.eq_dec x r) as [->|Hne].
    + rewrite (ae_status _ _ _ _ E).
      destruct (attempt_result work (heap m r)); try contradiction; reflexivity.
    + rewrite (ae_other _ _ _ _ E) by assumption. apply Hp.
      destruct (attempt_result work (heap m r)); try assumption.
      apply in_app_or in Hx as [Hx|[<-|[]]]; [assumption | contradiction].
  - assert (Hrest : total_attempts_left (heap (_execute_task work r m)) rest
                    = total_attempts_left (heap m) rest).
    { apply total_attempts_left_ext. intros x Hx. apply (ae_other _ _ _ _ E).
      intros ->. contradiction. }
    assert (Hqueue : total_attempts_left (heap (_execute_task work r m))
                                         (task_queue m)
                     = total_attempts_left (heap m) (task_queue m)).
    { apply total_attempts_left_ext. intros x Hx. apply (ae_other _ _ _ _ E).
      intros ->. contradiction. }
    unfold left_in_queue in *. rewrite Hrest, (ae_queue _ _ _ _ E).
    unfold total_attempts_left at 1 in Hle. simpl in Hle.
    fold (total_attempts_left (heap m) rest) in Hle.
    pose proof (attempts_left_positive (heap m r)) as Hpos.
    destruct (attempt_result work (heap m r)) eqn:Hres;
      try (rewrite Hqueue; lia).
    destruct (attempt_pending_inv _ _ Hres) as [Hrc Hlt].
    rewrite total_attempts_left_app, Hqueue.
    unfold total_attempts_left at 3. simpl.
    assert (Hnew : attempts_left (heap (_execute_task work r m) r) + 1
                   = attempts_left (heap m r)).
    { unfold attempts_left. rewrite (ae_max_retry _ _ _ _ E),
        (ae_retry_count _ _ _ _ E), Hrc. lia. }
    lia.
Qed.

(** The state between iterations. *)
Definition live m : Prop := tidy h tasks m /\ queue_pending m.

Lemma live_after_tick work m :
  live m ->
  live (after_tick work m)
  /\ left_in_queue (after_tick work m) + List.length (ready_refs m)
     <= left_in_queue m.
Proof.
  intros [T Hp]. unfold after_tick.
  set (m1 := set_task_queue (waiting_refs m) m).
  assert (D1 : draining (List.length (ready_refs m)) (left_in_queue m)
                        (ready_refs m) m1).
  { split; [now apply tidy_to_mid|]. split.
    - intros r Hr. subst m1. simpl in *. apply Hp.
      now apply filter_In in Hr as [Hr _].
    - assert (Hsum : total_attempts_left (heap m) (ready_refs m)
                     + total_attempts_left (heap m) (waiting_refs m)
                     = total_attempts_left (heap m) (task_queue m)).
      { rewrite <- total_attempts_left_app. apply total_attempts_left_perm.
        apply filter_split_Permutation. }
      unfold left_in_queue.
      change (heap m1) with (heap m).
      change (task_queue m1) with (waiting_refs m). lia. }
  pose proof (run_ready_invariant work
                (draining (List.length (ready_refs m)) (left_in_queue m))
                (draining_step work _ _) _ _ D1) as (M & Hp' & Hle).
  pose proof (_check_task_completion_effect
                (run_ready work (ready_refs m) m1)) as C.
  split; [split|].
  - now apply (mid_to_tidy h tasks).
  - intros r Hr. rewrite (ce_queue _ _ C) in Hr. rewrite (ce_heap _ _ C).
    now apply Hp'.
  - unfold left_in_queue in *. rewrite (ce_queue _ _ C), (ce_heap _ _ C).
    unfold total_attempts_left at 1 in Hle. simpl in Hle. lia.
Qed.

Lemma live_ready m : live m -> task_queue m <> [] -> ready_refs m <> [].
Proof.
  intros [T Hp] Hq.
  destruct (task_queue m) as [|x q] eqn:Eq; [contradiction|].
  assert (Hx : In x tasks).
  { apply (Permutation_in _ (td_perm _ _ _ T)). rewrite Eq. now left. }
  destruct (first_queued (task_queue m) tasks) as (pre & r & post & E & Hr & Hpre).
  { exists x. split; [assumption | rewrite Eq; now left]. }
  assert (Hready : is_ready (completed_task_ids m) (heap m r) = true).
  { apply is_ready_iff. split; [now apply Hp|].
    intros d Hd. destruct (td_frozen _ _ _ T r) as (_ & Hdeps & _).
    rewrite Hdeps in Hd.
    destruct (deps_ordered_split [] tasks ordered pre r post E d Hd)
      as [[]|Hin].
    apply in_map_iff in Hin as [y [Ey Hy]].
    assert (Hy_tasks : In y tasks) by (rewrite E; apply in_or_app; now left).
    apply (Permutation_in _ (Permutation_sym (td_perm _ _ _ T))) in Hy_tasks.
    apply in_app_or in Hy_tasks as [Hyq|Hyc]; [now apply Hpre in Hyq|].
    apply in_map_iff. exists y. split; [|assumption].
    destruct (td_frozen _ _ _ T y) as (Hid & _). now rewrite Hid. }
  intros Hnone. assert (Hin : In r (ready_refs m)).
  { apply filter_In. now split. }
  rewrite Hnone in Hin. destruct Hin.
Qed.

Lemma live_loop_condition m :
  live m -> loop_condition m = true -> task_queue m <> [].
Proof.
  intros [T _] Hc Hq. unfold loop_condition in Hc. rewrite Hq in Hc.
  destruct (active_tasks m) as [|kv a] eqn:Ea; [discriminate|].
  destruct (td_active _ _ _ T (snd kv)) as [_ Hin].
  - unfold active_refs. rewrite Ea. now left.
  - rewrite Hq in Hin. destruct Hin.
Qed.

Lemma live_emit report m w : live m -> live (fst (emit_report report m w)).
Proof.
  intros [T Hp]. split; [now apply tidy_emit|].
  pose proof (emit_report_effect report m w) as E. unfold queue_pending.
  now rewrite (em_queue _ _ _ E), (em_heap _ _ _ E).
Qed.

Lemma left_in_queue_emit report m w :
  left_in_queue (fst (emit_report report m w)) = left_in_queue m.
Proof.
  pose proof (emit_report_effect report m w) as E. unfold left_in_queue.
  now rewrite (em_queue _ _ _ E), (em_heap _ _ _ E).
Qed.

Lemma live_loop_exits work fuel : forall m w,
  live m -> left_in_queue m <= fuel ->
  exists m' w', execution_loop work fuel m w = Exited m' w' /\ live m'.
Proof.
  induction fuel as [|fuel IH]; intros m w L Hle.
  - simpl. destruct (loop_condition m) eqn:Hc; [|eauto].
    exfalso. pose proof (live_loop_condition m L Hc) as Hq.
    pose proof (live_ready m L Hq) as Hr.
    destruct (live_after_tick work m L) as [_ Hdec].
    destruct (ready_refs m); [contradiction | simpl in Hdec; lia].
  - simpl. destruct (loop_condition m) eqn:Hc; [|eauto].
    pose proof (live_loop_condition m L Hc) as Hq.
    pose proof (live_ready m L Hq) as Hr.
    destruct (live_after_tick work m L) as [L' Hdec].
    rewrite loop_body_eq. destruct (ready_refs m) as [|r0 l]; [contradiction|].
    pose proof (live_emit (_generate_progress_report (after_tick work m))
                          _ w L') as L''.
    pose proof (left_in_queue_emit
                  (_generate_progress_report (after_tick work m))
                  (after_tick work m) w) as Hm.
    destruct (emit_report (_generate_progress_report (after_tick work m))
                          (after_tick work m) w) as [m' w'].
    simpl in L'', Hm. apply IH; [assumption|]. simpl in Hdec. lia.
Qed.

Lemma live_fresh callbacks m : fresh_session h callbacks tasks m -> live m.
Proof.
  intros F. split; [now apply (tidy_fresh h tasks callbacks)|].
  intros r Hr. rewrite (fs_queue _ _ _ _ F) in Hr.
  rewrite (fs_heap _ _ _ _ F). now apply all_pending.
Qed.

Lemma live_log ev d m : live m -> live (_log_event ev d m).
Proof.
  intros [T Hp]. split; [now apply tidy_log|]. destruct m. exact Hp.
Qed.

Lemma ordered_plan_returns sid callbacks work w fuel :
  total_attempts_left h tasks <= fuel ->
  exists report m' w',
    start_autonomous_execution work fuel
      (new_session sid h callbacks tasks) w = Returned report m' w'
    /\ Permutation (completed_tasks m') tasks
    /\ (forall r, In r tasks ->
                  status (heap m' r) = COMPLETED
                  \/ status (heap m' r) = FAILED)
    /\ Report.total_tasks report = List.length tasks.
Proof.
  intros Hfuel.
  pose proof (new_session_fresh sid h callbacks tasks) as F.
  unfold start_autonomous_execution.
  set (m := new_session sid h callbacks tasks) in *.
  set (m0 := _log_event _ _ m).
  assert (L0 : live m0) by (apply live_log; now apply (live_fresh callbacks)).
  assert (Hm0 : left_in_queue m0 <= fuel).
  { unfold left_in_queue.
    replace (heap m0) with (heap m) by reflexivity.
    replace (task_queue m0) with (task_queue m) by reflexivity.
    now rewrite (fs_heap _ _ _ _ F), (fs_queue _ _ _ _ F). }
  destruct (live_loop_exits work fuel m0 w L0 Hm0) as (m1 & w1 & Hl & [T1 _]).
  rewrite Hl. apply execution_loop_exited in Hl.
  apply loop_condition_false_iff in Hl as [Hq Ha].
  pose proof (emit_report_effect (_generate_final_report m1) m1 w1) as E.
  destruct (emit_report (_generate_final_report m1) m1 w1) as [m2 w2].
  simpl in E. exists (_generate_final_report m1), m2, w2.
  assert (Hperm : Permutation (completed_tasks m1) tasks).
  { pose proof (td_perm _ _ _ T1) as P. now rewrite Hq in P. }
  split; [reflexivity|]. split; [now rewrite (em_completed _ _ _ E)|]. split.
  - intros r Hr. rewrite (em_heap _ _ _ E). apply (td_settled _ _ _ T1).
    apply (Permutation_in _ (Permutation_sym Hperm) Hr).
  - simpl. rewrite Hq, Ha. simpl. now apply Permutation_length.
Qed.

(** X4.  A run of a well-ordered plan always returns.  When the tasks carry
    distinct identifiers, start pending, and depend only on tasks placed
    before them, the run returns within as many iterations as there are
    attempts left in the plan, whatever the work does; every task is then in
    the completed history, completed or failed. *)
Theorem ordered_plan_terminates sid callbacks work w fuel :
  total_attempts_left h tasks <= fuel ->
  exists report m' w',
    start_autonomous_execution work fuel
      (new_session sid h callbacks tasks) w = Returned report m' w'
    /\ Permutation (completed_tasks m') tasks
    /\ (forall r, In r tasks ->
                  status (heap m' r) = COMPLETED
                  \/ status (heap m' r) = FAILED)
    /\ Report.total_tasks report = List.length tasks.
Proof. exact (ordered_plan_returns sid callbacks work w fuel). Qed.

End Liveness.

(** On A, B, C: nine attempts are left in the plan. *)
Lemma ordered_plan_terminates_witness :
  NoDup (map (fun r => task_id (heap_ABC r)) [0; 1; 2])
  /\ (forall r, In r [0; 1; 2] -> status (heap_ABC r) = PENDING)
  /\ deps_ordered heap_ABC [] [0; 1; 2] = true
  /\ total_attempts_left heap_ABC [0; 1; 2] <= 9
  /\ exists report m' w',
       start_autonomous_execution always_fails 9 session_ABC tt
       = Returned report m' w'
       /\ Permutation (completed_tasks m') [0; 1; 2]
       /\ (forall r, In r [0; 1; 2] ->
                     status (heap m' r) = COMPLETED
                     \/ status (heap m' r) = FAILED)
       /\ Report.total_tasks report = List.length [0; 1; 2].
Proof.
  assert (Hnd : NoDup (map (fun r => task_id (heap_ABC r)) [0; 1; 2])).
  { cbn. repeat constructor; cbn; intuition discriminate. }
  assert (Hp : forall r, In r [0; 1; 2] -> status (heap_ABC r) = PENDING).
  { intros r [<-|[<-|[<-|[]]]]; reflexivity. }
  assert (Ho : deps_ordered heap_ABC [] [0; 1; 2] = true) by reflexivity.
  assert (Hf : total_attempts_left heap_ABC [0; 1; 2] <= 9)
    by (vm_compute; lia).
  repeat split; try assumption.
  exact (ordered_plan_terminates (World := unit) heap_ABC [0; 1; 2] Hnd Hp Ho
           "s" [] always_fails tt 9 Hf).
Defined.

(** With work that always raises, A fails and B and C, which depend on it,
    are still run: a failed dependency counts as satisfied. *)
Example failed_dependency_does_not_block :
  match start_autonomous_execution always_fails 9 session_ABC tt with
  | Returned report m' _ =>
      completed_tasks m' = [0; 1; 2]
      /\ attempts "A" m' = 3 /\ attempts "B" m' = 3 /\ attempts "C" m' = 3
      /\ Report.failed_tasks report = 3
  | _ => False
  end.
Proof. vm_compute. repeat split. Qed.

(** * Plans whose work never raises *)

Section Success.
Context {World : Type}.
Abbreviation Manager := (AutonomousManager World).
Implicit Types (m : Manager) (w : World) (r : ref).

Variables (h : Heap) (tasks : list ref).
Hypothesis unique_ids : NoDup (map (fun r => task_id (h r)) tasks).
Hypothesis all_pending : forall r, In r tasks -> status (h r) = PENDING.
Hypothesis ordered : deps_ordered h [] tasks = true.
Variable work : AutonomousTask -> option string.
Hypothesis never_raises : forall t, work t = None.

Lemma attempt_result_success t : attempt_result work t = COMPLETED.
Proof. unfold attempt_result. now rewrite never_raises. Qed.

Definition unfailed m : Prop :=
  forall r, In r tasks -> status (heap m r) <> FAILED.

Lemma after_tick_success m :
  unfailed m ->
  unfailed (after_tick work m)
  /\ task_queue (after_tick work m) = waiting_refs m.
Proof.
  intros U. unfold after_tick.
  set (m1 := set_task_queue (waiting_refs m) m).
  pose proof (run_ready_invariant work
    (fun _ m' => unfailed m' /\ task_queue m' = waiting_refs m)) as Hfold.
  destruct Hfold with (l := ready_refs m) (m := m1) as [U' Hq'].
  - intros r rest m' [Um Hq]. pose proof (_execute_task_effect work r m') as E.
    split.
    + intros x Hx. destruct (Nat.eq_dec x r) as [->|Hne].
      * rewrite (ae_status _ _ _ _ E), attempt_result_success. discriminate.
      * rewrite (ae_other _ _ _ _ E) by assumption. now apply Um.
    + now rewrite (ae_queue _ _ _ _ E), attempt_result_success.
  - split; [destruct m; exact U | reflexivity].
  - pose proof (_check_task_completion_effect
                  (run_ready work (ready_refs m) m1)) as C.
    unfold unfailed. now rewrite (ce_heap _ _ C), (ce_queue _ _ C).
Qed.

Lemma success_loop_exits fuel : forall m w,
  live h tasks m -> unfailed m -> List.length (task_queue m) <= fuel ->
  exists m' w',
    execution_loop work fuel m w = Exited m' w'
    /\ live h tasks m' /\ unfailed m'.
Proof.
  induction fuel as [|fuel IH]; intros m w L U Hle;
    simpl; (destruct (loop_condition m) eqn:Hc; [|eauto]);
    pose proof (live_loop_condition h tasks m L Hc) as Hq;
    pose proof (live_ready h tasks ordered m L Hq) as Hr;
    destruct (live_after_tick h tasks unique_ids work m L) as [L' _];
    destruct (after_tick_success m U) as [U' Hq'];
    assert (Hsplit : List.length (ready_refs m) + List.length (waiting_refs m)
                     = List.length (task_queue m))
      by (rewrite <- length_app; apply Permutation_length;
          apply filter_split_Permutation).
  - destruct (task_queue m); [contradiction | simpl in Hle; lia].
  - rewrite loop_body_eq. destruct (ready_refs m) as [|r0 l]; [contradiction|].
    pose proof (live_emit h tasks
                  (_generate_progress_report (after_tick work m)) _ w L')
      as L''.
    pose proof (emit_report_effect
                  (_generate_progress_report (after_tick work m))
                  (after_tick work m) w) as E.
    destruct (emit_report (_generate_progress_report (after_tick work m))
                          (after_tick work m) w) as [m' w'].
    simpl in L'', E. apply IH; [assumption | |].
    + unfold unfailed. now rewrite (em_heap _ _ _ E).
    + rewrite (em_queue _ _ _ E), Hq'. simpl in Hsplit. lia.
Qed.

Lemma count_all_completed hp l :
  (forall r, In r l -> status (hp r) = COMPLETED) ->
  count_status hp COMPLETED l = List.length l
  /\ count_status hp FAILED l = 0.
Proof.
  unfold count_status. induction l as [|r l IH]; intros H; simpl; [now split|].
  rewrite (H r (or_introl eq_refl)). simpl.
  destruct (IH (fun x Hx => H x (or_intror Hx))) as [-> ->]. now split.
Qed.

Lemma successful_plan_returns sid callbacks w fuel :
  List.length tasks <= fuel ->
  exists report m' w',
    start_autonomous_execution work fuel
      (new_session sid h callbacks tasks) w = Returned report m' w'
    /\ (forall r, In r tasks -> status (heap m' r) = COMPLETED)
    /\ Report.total_tasks report = List.length tasks
    /\ Report.completed_tasks report = List.length tasks
    /\ Report.failed_tasks report = 0.
Proof.
  intros Hfuel.
  pose proof (new_session_fresh sid h callbacks tasks) as F.
  unfold start_autonomous_execution.
  set (m := new_session sid h callbacks tasks) in *.
  set (m0 := _log_event _ _ m).
  assert (L0 : live h tasks m0).
  { apply live_log. now apply (live_fresh h tasks all_pending callbacks). }
  assert (U0 : unfailed m0).
  { intros r Hr. replace (heap m0) with (heap m) by reflexivity.
    rewrite (fs_heap _ _ _ _ F), (all_pending r Hr). discriminate. }
  assert (Hm0 : List.length (task_queue m0) <= fuel).
  { replace (task_queue m0) with (task_queue m) by reflexivity.
    now rewrite (fs_queue _ _ _ _ F). }
  destruct (success_loop_exits fuel m0 w L0 U0 Hm0)
    as (m1 & w1 & Hl & [T1 _] & U1).
  rewrite Hl. apply execution_loop_exited in Hl.
  apply loop_condition_false_iff in Hl as [Hq Ha].
  pose proof (emit_report_effect (_generate_final_report m1) m1 w1) as E.
  destruct (emit_report (_generate_final_report m1) m1 w1) as [m2 w2].
  simpl in E. exists (_generate_final_report m1), m2, w2.
  assert (Hperm : Permutation (completed_tasks m1) tasks).
  { pose proof (td_perm _ _ _ T1) as P. now rewrite Hq in P. }
  assert (Hdone : forall r, In r tasks -> status (heap m1 r) = COMPLETED).
  { intros r Hr.
    destruct (td_settled _ _ _ T1 r
                (Permutation_in _ (Permutation_sym Hperm) Hr)) as [Hc|Hf];
      [assumption | now apply U1 in Hf]. }
  destruct (count_all_completed (heap m1) (completed_tasks m1)) as [Hcc Hcf].
  { intros r Hr. apply Hdone. apply (Permutation_in _ Hperm Hr). }
  split; [reflexivity|]. split; [|split; [|split]].
  - intros r Hr. rewrite (em_heap _ _ _ E). now apply Hdone.
  - simpl. rewrite Hq, Ha. simpl. now apply Permutation_length.
  - simpl. rewrite Hcc. now apply Permutation_length.
  - simpl. exact Hcf.
Qed.

(** X5.  A well-ordered plan of [n] tasks whose work never raises returns within
    [n] iterations with every task completed: the final report shows
    [completed_tasks = n] and [failed_tasks = 0]. *)
Theorem successful_plan_completes sid callbacks w fuel :
  List.length tasks <= fuel ->
  exists report m' w',
    start_autonomous_execution work fuel
      (new_session sid h callbacks tasks) w = Returned report m' w'
    /\ (forall r, In r tasks -> status (heap m' r) = COMPLETED)
    /\ Report.total_tasks report = List.length tasks
    /\ Report.completed_tasks report = List.length tasks
    /\ Report.failed_tasks report = 0.
Proof. exact (successful_plan_returns sid callbacks w fuel). Qed.

End Success.

(** On A, B, C with work that always succeeds: three iterations suffice. *)
Lemma successful_plan_completes_witness :
  NoDup (map (fun r => task_id (heap_ABC r)) [0; 1; 2])
  /\ (forall r, In r [0; 1; 2] -> status (heap_ABC r) = PENDING)
  /\ deps_ordered heap_ABC [] [0; 1; 2] = true
  /\ (forall t, always_succeeds t = None)
  /\ List.length [0; 1; 2] <= 3
  /\ exists report m' w',
       start_autonomous_execution always_succeeds 3 session_ABC tt
       = Returned report m' w'
       /\ (forall r, In r [0; 1; 2] -> status (heap m' r) = COMPLETED)
       /\ Report.total_tasks report = List.length [0; 1; 2]
       /\ Report.completed_tasks report = List.length [0; 1; 2]
       /\ Report.failed_tasks report = 0.
Proof.
  assert (Hnd : NoDup (map (fun r => task_id (heap_ABC r)) [0; 1; 2])).
  { cbn. repeat constructor; cbn; intuition discriminate. }
  assert (Hp : forall r, In r [0; 1; 2] -> status (heap_ABC r) = PENDING).
  { intros r [<-|[<-|[<-|[]]]]; reflexivity. }
  assert (Ho : deps_ordered heap_ABC [] [0; 1; 2] = true) by reflexivity.
  assert (Hw : forall t, always_succeeds t = None) by reflexivity.
  assert (Hf : List.length [0; 1; 2] <= 3) by (simpl; lia).
  repeat split; try assumption.
  exact (successful_plan_completes (World := unit) heap_ABC [0; 1; 2] Hnd Hp Ho
           always_succeeds Hw "s" [] tt 3 Hf).
Defined.

(** * Retry bookkeeping *)

Section Bookkeeping.
Context {World : Type}.
Abbreviation Manager := (AutonomousManager World).
Implicit Types (m : Manager) (w : World) (r : ref).
Implicit Type work : AutonomousTask -> option string.

(** What one attempt does to the error log, the progress and the results. *)
Lemma _execute_task_record work r m :
  let t := heap m r in
  let t' := heap (_execute_task work r m) r in
  description t' = description t
  /\ expected_deliverables t' = expected_deliverables t
  /\ match work (with_status IN_PROGRESS t) with
     | None =>
         error_log t' = error_log t /\ retry_count t' = retry_count t
         /\ progress t' = 100%Z
         /\ results t' = Some (expected_deliverables t)
     | Some e =>
         error_log t' = error_log t ++ [e]
         /\ retry_count t' = (retry_count t + 1)%Z
         /\ progress t' = progress t /\ results t' = results t
     end.
Proof.
  destruct m as [sid hp q a c cbs log sh rh].
  unfold _execute_task, _handle_task_error.
  cbn -[heap_set Z.ltb Z.add String.eqb Nat.eqb].
  unfold heap_set. rewrite ?Nat.eqb_refl.
  cbn -[Z.ltb Z.add String.eqb Nat.eqb].
  destruct (work (with_status IN_PROGRESS (hp r))) as [e|] eqn:Hw;
    [destruct (retry_count (hp r) + 1 <? max_retry_attempts (hp r))%Z|];
    cbn -[Z.ltb Z.add String.eqb Nat.eqb];
    unfold heap_set; rewrite ?Nat.eqb_refl;
    cbn -[Z.ltb Z.add String.eqb Nat.eqb]; repeat split.
Qed.

Section OneSession.
Variables (h : Heap).

(** The error log of a task grows by one entry for each unit added to its
    retry counter, and by nothing else. *)
Definition logged m : Prop :=
  forall r, exists errors,
    error_log (heap m r) = error_log (h r) ++ errors
    /\ retry_count (heap m r)
       = (retry_count (h r) + Z.of_nat (List.length errors))%Z.

Lemma _execute_task_logged work r m :
  logged m -> logged (_execute_task work r m).
Proof.
  intros L x. destruct (L x) as (errors & Hlog & Hrc).
  pose proof (_execute_task_effect work r m) as E.
  destruct (Nat.eq_dec x r) as [->|Hne].
  - destruct (_execute_task_record work r m) as (_ & _ & H).
    destruct (work (with_status IN_PROGRESS (heap m r))) as [e|].
    + destruct H as (H1 & H2 & _). exists (errors ++ [e]).
      rewrite H1, H2, Hlog, Hrc, <- app_assoc, length_app. simpl.
      split; [reflexivity | lia].
    + destruct H as (H1 & H2 & _). exists errors. now rewrite H1, H2.
  - exists errors. now rewrite (ae_other _ _ _ _ E).
Qed.

Lemma logged_loop work fuel m w :
  logged m -> logged (loop_manager (execution_loop work fuel m w)).
Proof.
  apply (execution_loop_invariant work logged).
  intros m1 w1 m' w' L _ Hb. rewrite loop_body_eq in Hb.
  assert (L' : logged (after_tick work m1)).
  { unfold after_tick.
    pose proof (_check_task_completion_effect
                  (run_ready work (ready_refs m1)
                     (set_task_queue (waiting_refs m1) m1))) as C.
    unfold logged. rewrite (ce_heap _ _ C).
    apply (run_ready_invariant work (fun _ m' => logged m')
             (fun r _ m' => _execute_task_logged work r m')).
    destruct m1; exact L. }
  destruct (ready_refs m1); inversion Hb as [Hb']; [exact L'|].
  pose proof (emit_report_effect
                (_generate_progress_report (after_tick work m1))
                (after_tick work m1) w1) as E.
  rewrite Hb' in E. simpl in E. unfold logged. now rewrite (em_heap _ _ _ E).
Qed.

Lemma error_log_tracks_retries_aux sid callbacks tasks work fuel w r :
  let m := manager_of (start_autonomous_execution work fuel
                         (new_session sid h callbacks tasks) w) in
  exists errors,
    error_log (heap m r) = error_log (h r) ++ errors
    /\ retry_count (heap m r)
       = (retry_count (h r) + Z.of_nat (List.length errors))%Z.
Proof.
  intros m. subst m.
  pose proof (new_session_fresh sid h callbacks tasks) as F.
  unfold start_autonomous_execution.
  set (m := new_session sid h callbacks tasks) in *.
  set (m0 := _log_event _ _ m).
  assert (L0 : logged m0).
  { intros x. exists []. replace (heap m0) with (heap m) by reflexivity.
    rewrite (fs_heap _ _ _ _ F), app_nil_r. simpl. split; [reflexivity | lia]. }
  pose proof (logged_loop work fuel m0 w L0) as Hloop.
  destruct (execution_loop work fuel m0 w) as [m1 w1|m1 w1|m1 w1];
    simpl in Hloop |- *; try apply Hloop.
  pose proof (emit_report_effect (_generate_final_report m1) m1 w1) as E.
  destruct (emit_report (_generate_final_report m1) m1 w1) as [m2 w2].
  simpl in E |- *. rewrite (em_heap _ _ _ E). apply Hloop.
Qed.


End OneSession.

End Bookkeeping.

Section Budget.
Context {World : Type}.
Abbreviation Manager := (AutonomousManager World).
Implicit Types (m : Manager) (w : World) (r : ref).
Implicit Type work : AutonomousTask -> option string.

(** Where the retry counter of a task that started fresh can stand. *)
Definition within_budget (t : AutonomousTask) : Prop :=
  (0 <= retry_count t)%Z
  /\ (status t = FAILED ->
      retry_count t = Z.max 1 (max_retry_attempts t))
  /\ (status t <> FAILED ->
      retry_count t = 0%Z \/ (retry_count t < max_retry_attempts t)%Z).

Lemma _execute_task_within_budget work r m :
  status (heap m r) = PENDING ->
  within_budget (heap m r) -> within_budget (heap (_execute_task work r m) r).
Proof.
  intros Hst (H0 & _ & Hnf).
  pose proof (_execute_task_effect work r m) as E.
  destruct (_execute_task_record work r m) as (_ & _ & H).
  assert (Hb : retry_count (heap m r) = 0%Z
               \/ (retry_count (heap m r) < max_retry_attempts (heap m r))%Z)
    by (apply Hnf; rewrite Hst; discriminate).
  unfold within_budget.
  rewrite (ae_status _ _ _ _ E), (ae_max_retry _ _ _ _ E).
  unfold attempt_result.
  destruct (work (with_status IN_PROGRESS (heap m r))) as [e|].
  - destruct H as (_ & -> & _).
    destruct (Z.ltb_spec (retry_count (heap m r) + 1)
                         (max_retry_attempts (heap m r)));
      repeat split; try lia; intros Hx; try discriminate Hx;
      try (exfalso; apply Hx; reflexivity); lia.
  - destruct H as (_ & -> & _).
    repeat split; try lia; intros Hx; try discriminate Hx; exact Hb.
Qed.

Lemma after_tick_within_budget work r0 m :
  transitions_inv m -> within_budget (heap m r0) ->
  within_budget (heap (after_tick work m) r0).
Proof.
  intros [Hnd Hok] HK. unfold after_tick.
  set (m1 := set_task_queue (waiting_refs m) m).
  assert (H1 : running_ok (ready_refs m) m1).
  { repeat split.
    - now apply NoDup_filter.
    - now apply NoDup_filter.
    - intros r Hr Hw. apply filter_In in Hr as [_ Hr].
      apply filter_In in Hw as [_ Hw]. rewrite Hr in Hw. discriminate.
    - intros r Hr. apply filter_In in Hr as [_ Hr]. exact Hr.
    - exact Hok. }
  pose proof (run_ready_invariant work
    (fun rest m' => running_ok rest m' /\ within_budget (heap m' r0))) as Hfold.
  destruct Hfold with (l := ready_refs m) (m := m1) as [_ HK'].
  - intros r rest m' [Hrun HKm]. split.
    + now apply _execute_task_running_ok.
    + destruct (Nat.eq_dec r0 r) as [->|Hne].
      * apply _execute_task_within_budget; [|assumption].
        destruct Hrun as (_ & _ & _ & Hready & _).
        apply (is_ready_pending (completed_task_ids m')).
        apply Hready. now left.
      * now rewrite (ae_other _ _ _ _ (_execute_task_effect work r m')).
  - split; [exact H1 | exact HK].
  - pose proof (_check_task_completion_effect
                  (run_ready work (ready_refs m) m1)) as C.
    now rewrite (ce_heap _ _ C).
Qed.

(** X7.  In a session that enqueues no task object twice, a task that starts
    pending with [retry_count = 0] keeps its counter within
    [max 1 max_retry_attempts]: while it is not failed the counter is 0 or
    below [max_retry_attempts], and once it is failed the counter is exactly
    [max 1 max_retry_attempts]. *)
Theorem retry_count_within_budget sid h callbacks tasks work fuel w r :
  NoDup tasks -> status (h r) = PENDING -> retry_count (h r) = 0%Z ->
  let t := heap (manager_of (start_autonomous_execution work fuel
                               (new_session sid h callbacks tasks) w)) r in
  (0 <= retry_count t <= Z.max 1 (max_retry_attempts t))%Z
  /\ (status t = FAILED -> retry_count t = Z.max 1 (max_retry_attempts t))
  /\ (status t <> FAILED ->
      retry_count t = 0%Z \/ (retry_count t < max_retry_attempts t)%Z).
Proof.
  intros Hnd Hst Hrc t.
  assert (HK : within_budget t).
  { subst t.
    pose proof (new_session_fresh sid h callbacks tasks) as F.
    unfold start_autonomous_execution.
    set (m := new_session sid h callbacks tasks) in *.
    set (m0 := _log_event _ _ m).
    assert (H0 : transitions_inv m0 /\ within_budget (heap m0 r)).
    { unfold transitions_inv, transitions_ok.
      replace (task_queue m0) with (task_queue m) by reflexivity.
      replace (status_history m0) with (status_history m) by reflexivity.
      replace (heap m0) with (heap m) by reflexivity.
      rewrite (fs_queue _ _ _ _ F), (fs_history _ _ _ _ F),
        (fs_heap _ _ _ _ F).
      split; [split; [assumption | constructor]|].
      unfold within_budget. rewrite Hst, Hrc.
      split; [lia|]. split; [intros Hx; discriminate Hx | intros _; now left]. }
    assert (Hloop :
      (fun m => transitions_inv m /\ within_budget (heap m r))
        (loop_manager (execution_loop work fuel m0 w))).
    { apply (execution_loop_invariant work
               (fun m => transitions_inv m /\ within_budget (heap m r)));
        [|exact H0].
      intros m1 w1 m' w' [Ht HKm] _ Hb. rewrite loop_body_eq in Hb.
      pose proof (after_tick_transitions work m1 Ht) as Ht'.
      pose proof (after_tick_within_budget work r m1 Ht HKm) as HK'.
      destruct (ready_refs m1); inversion Hb as [Hb']; [now split|].
      pose proof (emit_report_effect
                    (_generate_progress_report (after_tick work m1))
                    (after_tick work m1) w1) as E.
      pose proof (transitions_inv_emit
                    (_generate_progress_report (after_tick work m1))
                    (after_tick work m1) w1 Ht') as G.
      rewrite Hb' in E, G. simpl in E, G.
      split; [exact G | now rewrite (em_heap _ _ _ E)]. }
    simpl in Hloop. destruct Hloop as [_ Hloop].
    destruct (execution_loop work fuel m0 w) as [m1 w1|m1 w1|m1 w1];
      simpl in Hloop |- *; try exact Hloop.
    pose proof (emit_report_effect (_generate_final_report m1) m1 w1) as E.
    destruct (emit_report (_generate_final_report m1) m1 w1) as [m2 w2].
    simpl in E |- *. now rewrite (em_heap _ _ _ E). }
  destruct HK as (H0 & Hf & Hnf). split; [|split; assumption].
  split; [assumption|].
  destruct (TaskStatus_eq_dec (status t) FAILED) as [E|E].
  - rewrite (Hf E). lia.
  - destruct (Hnf E); lia.
Qed.

End Budget.

(** On task D of the retry scenario. *)
Lemma retry_count_within_budget_witness :
  NoDup [0] /\ status (heap_D 0) = PENDING /\ retry_count (heap_D 0) = 0%Z
  /\ let t := heap (manager_of (start_autonomous_execution always_fails 5
                                  session_D tt)) 0 in
     (0 <= retry_count t <= Z.max 1 (max_retry_attempts t))%Z
     /\ (status t = FAILED -> retry_count t = Z.max 1 (max_retry_attempts t))
     /\ (status t <> FAILED ->
         retry_count t = 0%Z \/ (retry_count t < max_retry_attempts t)%Z).
Proof.
  assert (Hnd : NoDup [0]) by (repeat constructor; intros []).
  repeat split; try assumption;
    apply (retry_count_within_budget (World := unit) "s" heap_D [] [0]
             always_fails 5 tt 0 Hnd eq_refl eq_refl).
Defined.

(** * Recommendations, next actions and the exported summary *)

Module Summary.
Record t : Set := mk {
  session_id : string;
  total_tasks : nat;
  successful_tasks : nat;
  failed_tasks : nat;
  total_retries : Z;
  task_details : list AutonomousTask;
  execution_log : list LogEntry;
  final_deliverables : list string
}.
End Summary.

Section Reporting.
Context {World : Type}.
Abbreviation Manager := (AutonomousManager World).
Implicit Types (m : Manager) (w : World) (r : ref).
Implicit Type work : AutonomousTask -> option string.

(** [sum(... for task in self.completed_tasks)] *)
Definition sum_over (f : AutonomousTask -> Z) (hp : Heap) (l : list ref) : Z :=
  fold_left Z.add (map (fun r => f (hp r)) l) 0%Z.

(** [_generate_recommendations]; the average is the exact quotient, which
    the float division returns unrounded here. *)
Definition _generate_recommendations (m : Manager) : list string :=
  let recommendations :=
    if existsb (fun r => (0 <? retry_count (heap m r))%Z) (completed_tasks m)
    then ["Consider increasing timeout for complex tasks"]
    else [] in
  match completed_tasks m with
  | [] => recommendations
  | _ :: _ =>
      let avg_duration :=
        (inject_Z (sum_over (fun _ => 2%Z) (heap m) (completed_tasks m))
         / inject_Z (Z.of_nat (List.length (completed_tasks m))))%Q in
      if Qltb (inject_Z 30) avg_duration
      then recommendations ++ ["Consider breaking down complex tasks further"]
      else recommendations
  end.

(** [export_execution_summary]; [asdict(task)] is the task record. *)
Definition export_execution_summary (m : Manager) : Summary.t :=
  Summary.mk
    (session_id m)
    (List.length (completed_tasks m))
    (count_status (heap m) COMPLETED (completed_tasks m))
    (count_status (heap m) FAILED (completed_tasks m))
    (sum_over retry_count (heap m) (completed_tasks m))
    (map (heap m) (completed_tasks m))
    (execution_log m)
    (flat_map (fun r => if TaskStatus_eqb (status (heap m r)) COMPLETED
                        then expected_deliverables (heap m r) else [])
              (completed_tasks m)).

Lemma sum_over_const c hp l :
  sum_over (fun _ => c) hp l = (c * Z.of_nat (List.length l))%Z.
Proof.
  unfold sum_over.
  assert (H : forall acc, fold_left Z.add (map (fun r => c) l) acc
                          = (acc + c * Z.of_nat (List.length l))%Z).
  { induction l as [|x l IH]; intros acc; simpl List.length; simpl fold_left.
    - lia.
    - rewrite IH. lia. }
  rewrite H. lia.
Qed.

Lemma _generate_recommendations_eq m :
  _generate_recommendations m
  = (if existsb (fun r => (0 <? retry_count (heap m r))%Z) (completed_tasks m)
     then ["Consider increasing timeout for complex tasks"]
     else []).
Proof.
  unfold _generate_recommendations.
  destruct (completed_tasks m) as [|r0 l] eqn:Hc; [reflexivity|].
  rewrite sum_over_const.
  set (n := Z.of_nat (List.length (r0 :: l))).
  assert (Hn : (0 < n)%Z) by (subst n; simpl List.length; lia).
  assert (Hq : Qltb (inject_Z 30) (inject_Z (2 * n) / inject_Z n)%Q = false).
  { unfold Qltb. apply negb_false_iff. apply Qle_bool_iff.
    rewrite inject_Z_mult.
    setoid_replace (inject_Z 2 * inject_Z n / inject_Z n)%Q
      with (inject_Z 2).
    - unfold Qle, inject_Z. simpl. lia.
    - apply Qdiv_mult_l. unfold Qeq, inject_Z. simpl. lia. }
  now rewrite Hq.
Qed.

(** X8.  The advice to break tasks down is never given: the average duration is
    always 2.  The only recommendation there can be is the one on timeouts,
    given exactly when a task of the completed history has a positive retry
    counter. *)
Theorem recommendations_only_timeout m :
  _generate_recommendations m
  = (if existsb (fun r => (0 <? retry_count (heap m r))%Z) (completed_tasks m)
     then ["Consider increasing timeout for complex tasks"]
     else [])
  /\ ~ In "Consider breaking down complex tasks further"
          (_generate_recommendations m).
Proof.
  split; [apply _generate_recommendations_eq|].
  rewrite _generate_recommendations_eq.
  destruct (existsb _ _); simpl; [intros [H|[]]; discriminate H | intros []].
Qed.

(** X9.  When the run returns, the exported summary agrees with the final
    report: same total, same numbers of successful and failed tasks, and the
    two numbers add up to the total. *)
Theorem summary_matches_final_report sid h callbacks tasks work fuel w :
  match start_autonomous_execution work fuel
          (new_session sid h callbacks tasks) w with
  | Returned report m' _ =>
      let summary := export_execution_summary m' in
      Summary.total_tasks summary = Report.total_tasks report
      /\ Summary.successful_tasks summary = Report.completed_tasks report
      /\ Summary.failed_tasks summary = Report.failed_tasks report
      /\ Summary.successful_tasks summary + Summary.failed_tasks summary
         = Summary.total_tasks summary
  | _ => True
  end.
Proof.
  pose proof (session_inv_start work fuel _ w
                (session_inv_fresh _ _ _ _
                   (new_session_fresh sid h callbacks tasks))) as Hinv.
  unfold start_autonomous_execution in *.
  set (m0 := _log_event _ _ (new_session sid h callbacks tasks)) in *.
  destruct (execution_loop work fuel m0 w) as [m1 w1|m1 w1|m1 w1] eqn:Hl;
    try exact I.
  apply execution_loop_exited in Hl.
  apply loop_condition_false_iff in Hl as [Hq Ha].
  pose proof (emit_report_effect (_generate_final_report m1) m1 w1) as E.
  destruct (emit_report (_generate_final_report m1) m1 w1) as [m2 w2].
  simpl in E, Hinv. destruct Hinv as [[Hset _] _].
  cbn [export_execution_summary Summary.total_tasks Summary.successful_tasks
       Summary.failed_tasks].
  rewrite (em_heap _ _ _ E), (em_completed _ _ _ E).
  simpl. rewrite Hq, Ha. simpl. repeat split.
  apply count_finished. intros r Hr.
  rewrite <- (em_heap _ _ _ E). apply Hset. now rewrite (em_completed _ _ _ E).
Qed.

(** ** Next actions *)

Definition no_complete_action (report : ExecutionReport) : Prop :=
  Forall (fun a => String.prefix "Complete " a = false)
         (Report.next_actions report).

Lemma next_actions_queue m :
  (active_tasks m <> [] -> task_queue m <> []) ->
  Forall (fun a => String.prefix "Complete " a = false)
         (_determine_next_actions m).
Proof.
  intros H. unfold _determine_next_actions.
  destruct (task_queue m) as [|r q] eqn:Hq.
  - destruct (active_tasks m) as [|kv a].
    + repeat constructor.
    + exfalso. now apply H.
  - apply Forall_map. apply Forall_forall. intros x _. reflexivity.
Qed.

Section UniqueIds.
Variables (h : Heap) (tasks : list ref).
Hypothesis unique_ids : NoDup (map (fun r => task_id (h r)) tasks).

Definition actions_ok m : Prop :=
  tidy h tasks m /\ Forall no_complete_action (reports_history m).

Lemma tidy_active_queue m :
  tidy h tasks m -> active_tasks m <> [] -> task_queue m <> [].
Proof.
  intros T Ha Hq. destruct (active_tasks m) as [|kv a] eqn:Ea; [contradiction|].
  destruct (td_active _ _ _ T (snd kv)) as [_ Hin].
  - unfold active_refs. rewrite Ea. now left.
  - rewrite Hq in Hin. destruct Hin.
Qed.

Lemma actions_ok_emit report m w :
  no_complete_action report -> actions_ok m ->
  actions_ok (fst (emit_report report m w)).
Proof.
  intros Hr [T Hf]. split; [now apply tidy_emit|].
  rewrite (em_reports _ _ _ (emit_report_effect report m w)).
  apply Forall_app. split; [assumption | now repeat constructor].
Qed.

(** X10.  In a session whose tasks carry distinct identifiers, no report ever
    lists a "Complete ..." action: whenever a report is generated, every
    active task is also waiting in the queue, so the branch of
    [_determine_next_actions] for a non-empty active set with an empty queue
    is never taken. *)
Theorem next_actions_never_complete sid callbacks work fuel w :
  Forall (fun report =>
            Forall (fun a => String.prefix "Complete " a = false)
                   (Report.next_actions report))
         (reports_history
            (manager_of (start_autonomous_execution work fuel
                           (new_session sid h callbacks tasks) w))).
Proof.
  pose proof (new_session_fresh sid h callbacks tasks) as F.
  unfold start_autonomous_execution.
  set (m := new_session sid h callbacks tasks) in *.
  set (m0 := _log_event _ _ m).
  assert (H0 : actions_ok m0).
  { split; [apply tidy_log; now apply (tidy_fresh h tasks callbacks)|].
    replace (reports_history m0) with (reports_history m) by reflexivity.
    rewrite (fs_reports _ _ _ _ F). constructor. }
  assert (Hloop : actions_ok (loop_manager (execution_loop work fuel m0 w))).
  { apply (execution_loop_invariant work actions_ok); [|exact H0].
    intros m1 w1 m' w' [T Hf] _ Hb. rewrite loop_body_eq in Hb.
    pose proof (tidy_after_tick h tasks unique_ids work m1 T) as T'.
    destruct (after_tick_frame work m1) as (Hr & _ & _).
    assert (A' : actions_ok (after_tick work m1))
      by (split; [assumption | now rewrite Hr]).
    destruct (ready_refs m1); inversion Hb as [Hb']; [exact A'|].
    pose proof (actions_ok_emit
                  (_generate_progress_report (after_tick work m1))
                  (after_tick work m1) w1) as G.
    rewrite Hb' in G. apply G; [|exact A'].
    apply next_actions_queue. now apply tidy_active_queue. }
  destruct (execution_loop work fuel m0 w) as [m1 w1|m1 w1|m1 w1];
    simpl in Hloop |- *; try apply Hloop.
  pose proof (actions_ok_emit (_generate_final_report m1) m1 w1) as G.
  destruct (emit_report (_generate_final_report m1) m1 w1) as [m2 w2].
  simpl in G |- *. apply G; [|exact Hloop]. repeat constructor.
Qed.

End UniqueIds.

(** ** Issues and recommendations *)

Lemma last_errors_length hp l :
  List.length (last_errors hp l)
  = List.length (filter (fun r => match error_log (hp r) with
                                  | [] => false
                                  | _ :: _ => true
                                  end) l).
Proof.
  unfold last_errors. induction l as [|r l IH]; simpl; [reflexivity|].
  destruct (error_log (hp r)); simpl; now rewrite IH.
Qed.

(** X11.  In a session whose tasks all start with an empty error log and a zero
    retry counter, a report lists one issue for each task of the completed
    history that failed at least one attempt, and the timeout recommendation
    is given exactly when the report lists an issue. *)
Theorem issues_match_recommendations sid h callbacks tasks work fuel w :
  (forall r, error_log (h r) = [] /\ retry_count (h r) = 0%Z) ->
  let m := manager_of (start_autonomous_execution work fuel
                         (new_session sid h callbacks tasks) w) in
  let report := _generate_progress_report m in
  List.length (Report.issues_encountered report)
  = List.length (filter (fun r => (0 <? retry_count (heap m r))%Z)
                        (completed_tasks m))
  /\ (Report.issues_encountered report = []
      <-> _generate_recommendations m = []).
Proof.
  intros Hfresh m report.
  assert (Hsame : forall r,
            match error_log (heap m r) with [] => false | _ :: _ => true end
            = (0 <? retry_count (heap m r))%Z).
  { intros r.
    destruct (error_log_tracks_retries_aux h sid callbacks tasks work fuel w r)
      as (errors & Hlog & Hrc).
    fold m in Hlog, Hrc. destruct (Hfresh r) as [H1 H2].
    rewrite Hlog, Hrc, H1, H2. simpl.
    destruct errors; simpl List.length; [reflexivity|].
    symmetry. apply Z.ltb_lt. lia. }
  assert (Hlen : List.length (Report.issues_encountered report)
                 = List.length (filter (fun r => (0 <? retry_count (heap m r))%Z)
                                       (completed_tasks m))).
  { subst report. simpl. rewrite last_errors_length. f_equal.
    apply filter_ext. exact Hsame. }
  split; [exact Hlen|].
  rewrite _generate_recommendations_eq.
  destruct (existsb (fun r => (0 <? retry_count (heap m r))%Z)
                    (completed_tasks m)) eqn:Hex.
  - split; [|discriminate]. intros Hnil. exfalso.
    rewrite Hnil in Hlen. simpl in Hlen.
    apply existsb_exists in Hex as [r [Hr Hpos]].
    assert (Hin : In r (filter (fun r => (0 <? retry_count (heap m r))%Z)
                               (completed_tasks m)))
      by (apply filter_In; now split).
    destruct (filter _ (completed_tasks m)); [destruct Hin | discriminate].
  - split; [reflexivity|]. intros _.
    assert (Hnone : filter (fun r => (0 <? retry_count (heap m r))%Z)
                           (completed_tasks m) = []).
    { apply filter_nothing. intros r Hr.
      destruct (0 <? retry_count (heap m r))%Z eqn:Hp; [|reflexivity].
      assert (Hx : existsb (fun r => (0 <? retry_count (heap m r))%Z)
                           (completed_tasks m) = true)
        by (apply existsb_exists; eauto).
      congruence. }
    rewrite Hnone in Hlen. simpl in Hlen.
    now apply length_zero_iff_nil.
Qed.

End Reporting.

(** On A, B, C with work that always raises. *)
Lemma next_actions_never_complete_witness :
  NoDup (map (fun r => task_id (heap_ABC r)) [0; 1; 2])
  /\ Forall (fun report =>
               Forall (fun a => String.prefix "Complete " a = false)
                      (Report.next_actions report))
            (reports_history
               (manager_of (start_autonomous_execution always_fails 9
                              session_ABC tt))).
Proof.
  assert (Hnd : NoDup (map (fun r => task_id (heap_ABC r)) [0; 1; 2])).
  { cbn. repeat constructor; cbn; intuition discriminate. }
  split; [exact Hnd|].
  exact (next_actions_never_complete (World := unit) heap_ABC [0; 1; 2] Hnd
           "s" [] always_fails 9 tt).
Defined.

Example session_ABC_next_actions :
  map Report.next_actions
      (reports_history
         (manager_of (start_autonomous_execution always_fails 2
                        session_ABC tt)))
  = [["Execute do B"; "Execute do C"; "Execute do A"];
     ["Execute do B"; "Execute do C"; "Execute do A"]].
Proof. vm_compute. reflexivity. Qed.

Lemma issues_match_recommendations_witness :
  (forall r, error_log (heap_ABC r) = [] /\ retry_count (heap_ABC r) = 0%Z)
  /\ let m := manager_of (start_autonomous_execution always_fails 9
                            session_ABC tt) in
     let report := _generate_progress_report m in
     List.length (Report.issues_encountered report)
     = List.length (filter (fun r => (0 <? retry_count (heap m r))%Z)
                           (completed_tasks m))
     /\ (Report.issues_encountered report = []
         <-> _generate_recommendations m = []).
Proof.
  assert (Hf : forall r,
            error_log (heap_ABC r) = [] /\ retry_count (heap_ABC r) = 0%Z).
  { intros [|[|r]]; split; reflexivity. }
  split; [exact Hf|].
  exact (issues_match_recommendations (World := unit) "s" heap_ABC [] [0; 1; 2]
           always_fails 9 tt Hf).
Defined.

Example session_ABC_issues :
  let m := manager_of (start_autonomous_execution always_fails 9
                         session_ABC tt) in
  Report.issues_encountered (_generate_progress_report m)
  = ["boom"; "boom"; "boom"]
  /\ _generate_recommendations m
     = ["Consider increasing timeout for complex tasks"].
Proof. vm_compute. split; reflexivity. Qed.

(** * Planning a workflow

    [create_task_plan] and the [WorkflowAnalyzer] of
    [scripts/core/workflow_analyzer.py] it calls.

    Strings are sequences of bytes.  [lower] lowers the ASCII letters.
    Python's [str.lower] also maps two non-ASCII characters to text holding
    an ASCII letter (U+0130 to [i] followed by a combining dot, U+212A to
    [k]); no keyword searched for below contains [k] or ends in [i], so the
    keyword tests have the same outcome. *)

From Stdlib Require Import Ascii Decimal DecimalString DecimalNat.

Definition ascii_lower (c : ascii) : ascii :=
  let n := nat_of_ascii c in
  if Nat.leb 65 n && Nat.leb n 90 then ascii_of_nat (n + 32) else c.

Fixpoint lower (s : string) : string :=
  match s with
  | EmptyString => EmptyString
  | String c s' => String (ascii_lower c) (lower s')
  end.

(** [sub in s] *)
Fixpoint contains (sub s : string) : bool :=
  match s with
  | EmptyString => String.prefix sub EmptyString
  | String _ s' => String.prefix sub s || contains sub s'
  end.

(** [any(keyword in text for keyword in keywords)] *)
Definition any_in (keywords : list string) (text : string) : bool :=
  existsb (fun keyword => contains keyword text) keywords.

(** [f"{n}"] and [f"{n:03d}"] for a natural number *)
Definition format_d (n : nat) : string :=
  NilEmpty.string_of_uint (Nat.to_uint n).

Fixpoint zeros (k : nat) : string :=
  match k with
  | 0 => EmptyString
  | S k' => String "0" (zeros k')
  end.

Definition format_03d (n : nat) : string :=
  (zeros (3 - String.length (format_d n)) ++ format_d n)%string.

Module Analyzer.

Record WorkflowRequirement : Set := mkRequirement {
  category : string;
  description : string;
  complexity : string;
  priority : string;
  estimated_effort : string;
  dependencies : list string
}.

(** [confidence] is a float literal that nothing computes with; it is kept
    as the decimal it is written as. *)
Record AgentRecommendation : Set := mkRecommendation {
  agent_type : string;
  confidence : Q;
  reasoning : string;
  skills_needed : list string;
  commands_suggested : list string;
  coordination_role : string
}.

(** The four requirements [_extract_requirements] can append and the five
    recommendations [_recommend_agents] can append, as the source writes
    them. *)
Definition security_requirement : WorkflowRequirement :=
  mkRequirement "security" "Security validation and compliance verification"
                "moderate" "high" "30-60 minutes" [].

Definition development_requirement : WorkflowRequirement :=
  mkRequirement "development" "Implementation and development work"
                "moderate" "high" "60-120 minutes" ["analysis"].

Definition analysis_requirement : WorkflowRequirement :=
  mkRequirement "analysis" "Code analysis and system understanding"
                "simple" "medium" "15-30 minutes" [].

Definition research_requirement : WorkflowRequirement :=
  mkRequirement "research" "Information gathering and research"
                "simple" "medium" "20-40 minutes" [].

Definition orchestrator_recommendation : AgentRecommendation :=
  mkRecommendation "orchestrator" (9 # 10)
    "Multi-step workflow requires coordination"
    ["multi-agent-workflow"; "communication-protocols"]
    ["/create_plan"; "/implement_plan"] "primary".

Definition security_recommendation : AgentRecommendation :=
  mkRecommendation "security-specialist" (85 # 100)
    "Security requirements identified"
    ["security-patterns"] ["/security_sast"; "/security_hardening"]
    "supporting".

Definition analyzer_recommendation : AgentRecommendation :=
  mkRecommendation "codebase-analyzer" (8 # 10)
    "Analysis and documentation needed"
    ["code-analysis-planning-editor"] ["/research_codebase"] "supporting".

Definition rust_recommendation : AgentRecommendation :=
  mkRecommendation "rust-expert-developer" (9 # 10)
    "Rust development expertise required"
    ["rust-backend-patterns"; "production-patterns"]
    ["/rust_scaffold"; "/feature_development"] "supporting".

Definition locator_recommendation : AgentRecommendation :=
  mkRecommendation "codebase-locator" (75 # 100)
    "Research and discovery needed"
    ["search-strategies"] ["/smart-research"] "supporting".

(** [_extract_requirements]; [context] is not read. *)
Definition _extract_requirements (description : string)
  : list WorkflowRequirement :=
  (if any_in ["security"; "secure"; "audit"; "compliance"] (lower description)
   then [security_requirement] else [])
  ++ (if any_in ["implement"; "build"; "create"; "develop"] (lower description)
      then [development_requirement] else [])
  ++ (if any_in ["analyze"; "understand"; "review"; "examine"]
                (lower description)
      then [analysis_requirement] else [])
  ++ (if any_in ["research"; "investigate"; "find"; "discover"]
                (lower description)
      then [research_requirement] else []).

(** The body of the loop of [_recommend_agents]: what one requirement
    appends. *)
Definition recommend_for (description : string) (req : WorkflowRequirement)
  : list AgentRecommendation :=
  if category req =? "security" then [security_recommendation]
  else if category req =? "analysis" then [analyzer_recommendation]
  else if (category req =? "development")
          && contains "rust" (lower description)
  then [rust_recommendation]
  else if category req =? "research" then [locator_recommendation]
  else [].

Definition _recommend_agents (requirements : list WorkflowRequirement)
           (description : string) : list AgentRecommendation :=
  (if Nat.ltb 2 (List.length requirements)
      || existsb (fun req => complexity req =? "complex") requirements
   then [orchestrator_recommendation] else [])
  ++ flat_map (recommend_for description) requirements.

Record Flow : Set := mkFlow {
  flow_from : string;
  flow_to : string;
  flow_type : string
}.

Record Coordination : Set := mkCoordination {
  coordinator : string;
  execution_pattern : string;
  communication_flow : list Flow;
  validation_points : list string
}.

Definition _plan_coordination (recommendations : list AgentRecommendation)
  : Coordination :=
  let primary_agents :=
    filter (fun r => coordination_role r =? "primary") recommendations in
  let supporting_agents :=
    filter (fun r => coordination_role r =? "supporting") recommendations in
  let coordinator :=
    match primary_agents with
    | first :: _ => agent_type first
    | [] => "orchestrator"
    end in
  mkCoordination coordinator
    (if Nat.leb (List.length supporting_agents) 2
     then "sequential" else "parallel_then_integrate")
    (map (fun agent => mkFlow coordinator (agent_type agent) "task_assignment")
         supporting_agents)
    ["After discovery phase"; "After implementation phase";
     "Before final delivery"].

Record Phase : Set := mkPhase {
  phase : string;
  progress : Z;
  tasks : list string;
  deliverables : list string
}.

(** The comprehension of one phase:
    [f"Execute {what} using {rec.agent_type}"] for the recommendations whose
    agent is one of [agents]. *)
Definition phase_tasks (what : string) (agents : list string)
           (recommendations : list AgentRecommendation) : list string :=
  map (fun rec => ("Execute " ++ what ++ " using " ++ agent_type rec)%string)
      (filter (fun rec => mem_string (agent_type rec) agents) recommendations).

Definition _generate_execution_plan
           (recommendations : list AgentRecommendation) : list Phase :=
  [ mkPhase "Discovery & Planning" 25
      (phase_tasks "discovery" ["codebase-locator"; "codebase-analyzer"]
                   recommendations)
      ["Requirements analysis"; "Implementation strategy"];
    mkPhase "Core Implementation" 50
      (phase_tasks "implementation"
                   ["rust-expert-developer"; "backend-architect"]
                   recommendations)
      ["Working implementation"; "Initial testing"];
    mkPhase "Validation & Security" 75
      (phase_tasks "validation" ["security-specialist"] recommendations)
      ["Security validation"; "Quality assurance"];
    mkPhase "Integration & Completion" 100
      ["Final integration"; "Documentation"; "Deployment preparation"]
      ["Complete solution"; "Documentation"; "Deployment guide"] ].

Definition _estimate_complexity (requirements : list WorkflowRequirement)
  : string :=
  if existsb (fun req => complexity req =? "complex") requirements
  then "complex"
  else if Nat.ltb 3 (List.length requirements)
          || existsb (fun req => complexity req =? "moderate") requirements
  then "moderate"
  else "simple".

Record Resources : Set := mkResources {
  agent_count : nat;
  estimated_duration : string;
  token_budget : string;
  coordination_overhead : string
}.

Definition _estimate_resources (recommendations : list AgentRecommendation)
  : Resources :=
  let n := List.length recommendations in
  mkResources n
    (format_d (n * 15) ++ "-" ++ format_d (n * 30) ++ " minutes")%string
    (format_d (n * 20) ++ "K-" ++ format_d (n * 40) ++ "K tokens")%string
    (if Nat.ltb 2 n then "10-20%" else "5-10%").

Record Analysis : Set := mkAnalysis {
  workflow_summary : string;
  requirements : list WorkflowRequirement;
  agent_recommendations : list AgentRecommendation;
  coordination_strategy : Coordination;
  execution_plan : list Phase;
  estimated_complexity : string;
  resource_requirements : Resources
}.

Definition analyze_workflow (description : string) : Analysis :=
  let requirements := _extract_requirements description in
  let agent_recommendations := _recommend_agents requirements description in
  let coordination_strategy := _plan_coordination agent_recommendations in
  mkAnalysis description requirements agent_recommendations
    coordination_strategy
    (_generate_execution_plan agent_recommendations)
    (_estimate_complexity requirements)
    (_estimate_resources agent_recommendations).

End Analyzer.

(** ** [create_task_plan]

    The fields of the dataclass that the record [AutonomousTask] leaves out
    are carried beside it ([created_at] is read from the clock and is not
    modelled). *)

Record PlannedTask : Set := mkPlanned {
  core : AutonomousTask;
  skills_required : list string;
  commands_to_execute : list string;
  timeout_minutes : Z
}.

(** [AgentType(value)]: the member with that value; [None] stands for the
    [ValueError] raised when there is none. *)
Definition AgentType_of_value (value : string) : option AgentType :=
  find (fun a => AgentType_value a =? value)
       [ORCHESTRATOR; PROJECT_ORGANIZER; CODEBASE_ANALYZER; CODEBASE_LOCATOR;
        SECURITY_SPECIALIST; BACKEND_ARCHITECT; RUST_EXPERT_DEVELOPER;
        COMPETITIVE_MARKET_ANALYST; WEB_SEARCH_RESEARCHER].

Definition _determine_agent_type (task_desc : string)
           (recommendations : list Analyzer.AgentRecommendation) : string :=
  match find (fun rec => contains (Analyzer.agent_type rec) (lower task_desc))
             recommendations with
  | Some rec => Analyzer.agent_type rec
  | None =>
      if any_in ["locate"; "find"; "discover"] (lower task_desc)
      then "codebase-locator"
      else if any_in ["analyze"; "review"] (lower task_desc)
      then "codebase-analyzer"
      else if any_in ["implement"; "develop"] (lower task_desc)
      then "rust-expert-developer"
      else if any_in ["security"; "validate"] (lower task_desc)
      then "security-specialist"
      else "orchestrator"
  end.

Definition task_name (sid : string) (task_number : nat) : string :=
  (sid ++ "_task_" ++ format_03d task_number)%string.

(** [phase] is not read. *)
Definition _extract_dependencies (sid : string) (task_number : nat)
  : list string :=
  if Nat.ltb 1 task_number then [task_name sid (task_number - 1)] else [].

Definition _estimate_timeout (task_desc : string) : Z :=
  if any_in ["implement"; "develop"; "build"] (lower task_desc) then 45
  else if any_in ["security"; "validate"; "test"] (lower task_desc) then 30
  else 15.

(** The body of the inner loop of [create_task_plan]: the task built for one
    description. *)
Definition plan_task (sid : string)
           (recommendations : list Analyzer.AgentRecommendation)
           (phase : Analyzer.Phase) (task_counter : nat) (task_desc : string)
  : option PlannedTask :=
  let agent_type := _determine_agent_type task_desc recommendations in
  let agent_rec :=
    find (fun rec => contains (Analyzer.agent_type rec) task_desc)
         recommendations in
  let skills :=
    match agent_rec with
    | Some rec => Analyzer.skills_needed rec
    | None => []
    end in
  let commands :=
    match agent_rec with
    | Some rec => Analyzer.commands_suggested rec
    | None => []
    end in
  match AgentType_of_value agent_type with
  | None => None
  | Some a =>
      Some (mkPlanned
              (mkTask (task_name sid task_counter) task_desc a HIGH PENDING
                      (_extract_dependencies sid task_counter)
                      (Analyzer.deliverables phase) 3 0 None [] 0)
              skills commands (_estimate_timeout task_desc))
  end.

(** [for task_desc in phase["tasks"]], carrying [tasks] and
    [task_counter]. *)
Fixpoint plan_phase (sid : string)
         (recommendations : list Analyzer.AgentRecommendation)
         (phase : Analyzer.Phase) (descs : list string)
         (tasks : list PlannedTask) (task_counter : nat)
  : option (list PlannedTask * nat) :=
  match descs with
  | [] => Some (tasks, task_counter)
  | task_desc :: descs' =>
      match plan_task sid recommendations phase task_counter task_desc with
      | None => None
      | Some task =>
          plan_phase sid recommendations phase descs'
                     (tasks ++ [task]) (task_counter + 1)
      end
  end.

(** [for phase in analysis["execution_plan"]] *)
Fixpoint plan_phases (sid : string)
         (recommendations : list Analyzer.AgentRecommendation)
         (phases : list Analyzer.Phase)
         (tasks : list PlannedTask) (task_counter : nat)
  : option (list PlannedTask * nat) :=
  match phases with
  | [] => Some (tasks, task_counter)
  | phase :: phases' =>
      match plan_phase sid recommendations phase (Analyzer.tasks phase)
                       tasks task_counter with
      | None => None
      | Some (tasks', task_counter') =>
          plan_phases sid recommendations phases' tasks' task_counter'
      end
  end.

(** [create_task_plan] of the manager whose session is [sid]; [context] is
    handed to the analyzer, which does not read it. *)
Definition create_task_plan (sid workflow_description : string)
  : option (list PlannedTask) :=
  let analysis := Analyzer.analyze_workflow workflow_description in
  option_map fst
    (plan_phases sid (Analyzer.agent_recommendations analysis)
                 (Analyzer.execution_plan analysis) [] 1).

(** The task objects of a plan as an object store: the task at position [r]
    of the list is the object [r]. *)
Definition blank_task : AutonomousTask :=
  mkTask EmptyString EmptyString ORCHESTRATOR HIGH PENDING [] [] 3 0 None [] 0.

Definition heap_of (tasks : list AutonomousTask) : Heap :=
  fun r => nth r tasks blank_task.

Definition refs_of (tasks : list AutonomousTask) : list ref :=
  seq 0 (List.length tasks).

(** ** Facts about the text operations *)

Lemma prefix_spec sub s :
  String.prefix sub s = true <-> exists b, s = (sub ++ b)%string.
Proof.
  revert s. induction sub as [|c sub IH]; intros s.
  - split; [intros _; now exists s | intros _; now destruct s].
  - destruct s as [|c' s]; simpl.
    + split; [discriminate | intros [b Hb]; discriminate].
    + destruct (Ascii.ascii_dec c c') as [->|Hn].
      * rewrite IH. split; intros [b Hb]; exists b; congruence.
      * split; [discriminate | intros [b Hb]; congruence].
Qed.

(** [contains] is the substring test. *)
Lemma contains_spec sub s :
  contains sub s = true <-> exists a b, s = (a ++ sub ++ b)%string.
Proof.
  induction s as [|c s IH]; cbn [contains].
  - rewrite prefix_spec. split.
    + intros [b Hb]. now exists EmptyString, b.
    + intros [a [b Hb]]. destruct a; [now exists b | discriminate].
  - rewrite orb_true_iff, IH, prefix_spec. split.
    + intros [[b Hb]|[a [b Hb]]].
      * now exists EmptyString, b.
      * exists (String c a), b. simpl. now rewrite Hb.
    + intros [a [b Hb]]. destruct a as [|c' a]; simpl in Hb.
      * left. now exists b.
      * right. exists a, b. congruence.
Qed.

Lemma append_inj_l s a b : (s ++ a)%string = (s ++ b)%string -> a = b.
Proof. induction s; simpl; intros H; [assumption | apply IHs; congruence]. Qed.

(** Reading a decimal back. *)
Definition parse_d (s : string) : option nat :=
  option_map Nat.of_uint (NilEmpty.uint_of_string s).

Lemma parse_d_zeros k s : parse_d (zeros k ++ s)%string = parse_d s.
Proof.
  induction k as [|k IH]; [reflexivity|].
  rewrite <- IH. unfold parse_d. simpl.
  now destruct (NilEmpty.uint_of_string (zeros k ++ s)).
Qed.

Lemma parse_format_03d n : parse_d (format_03d n) = Some n.
Proof.
  unfold format_03d. rewrite parse_d_zeros. unfold parse_d, format_d.
  rewrite NilEmpty.usu. cbn [option_map]. now rewrite Unsigned.of_to.
Qed.

(** Task numbers never collide, also past 999 where the padding stops. *)
Lemma task_name_inj sid j k : task_name sid j = task_name sid k -> j = k.
Proof.
  unfold task_name. intros H. apply append_inj_l in H.
  apply (append_inj_l "_task_") in H.
  apply (f_equal parse_d) in H. rewrite !parse_format_03d in H. congruence.
Qed.

(** ** The shape of a plan *)

(** The descriptions an execution plan asks for, each with its phase, in
    the order the two loops of [create_task_plan] visit them. *)
Definition jobs (phases : list Analyzer.Phase)
  : list (Analyzer.Phase * string) :=
  flat_map (fun ph => map (pair ph) (Analyzer.tasks ph)) phases.

(** [new] holds, for each job, the task built for it, numbered from [c]. *)
Fixpoint numbered (sid : string)
         (recs : list Analyzer.AgentRecommendation) (c : nat)
         (js : list (Analyzer.Phase * string)) (new : list PlannedTask)
  : Prop :=
  match js, new with
  | [], [] => True
  | (ph, d) :: js', t :: new' =>
      plan_task sid recs ph c d = Some t /\ numbered sid recs (S c) js' new'
  | _, _ => False
  end.

Lemma numbered_app sid recs js1 : forall c new1 js2 new2,
  numbered sid recs c js1 new1 ->
  numbered sid recs (c + List.length js1) js2 new2 ->
  numbered sid recs c (js1 ++ js2) (new1 ++ new2).
Proof.
  induction js1 as [|[ph d] js1 IH]; intros c new1 js2 new2 H1 H2.
  - destruct new1; [|contradiction]. simpl in *.
    now rewrite Nat.add_0_r in H2.
  - destruct new1 as [|t new1]; [contradiction|]. destruct H1 as [Ht H1].
    simpl. split; [assumption|]. apply IH; [assumption|].
    simpl in H2. now rewrite Nat.add_succ_r in H2.
Qed.

Lemma numbered_length sid recs js : forall c new,
  numbered sid recs c js new -> List.length new = List.length js.
Proof.
  induction js as [|[ph d] js IH]; intros c [|t new] H; try contradiction.
  - reflexivity.
  - destruct H as [_ H]. simpl. f_equal. now apply (IH (S c)).
Qed.

Lemma plan_phase_numbered sid recs ph descs : forall tasks c tasks' c',
  plan_phase sid recs ph descs tasks c = Some (tasks', c') ->
  exists new,
    tasks' = tasks ++ new /\ c' = c + List.length descs
    /\ numbered sid recs c (map (pair ph) descs) new.
Proof.
  induction descs as [|d descs IH]; intros tasks c tasks' c' H; simpl in H.
  - inversion H; subst. exists []. rewrite app_nil_r, Nat.add_0_r.
    now repeat split.
  - destruct (plan_task sid recs ph c d) as [t|] eqn:Ht; [|discriminate].
    apply IH in H as (new & -> & -> & Hn). exists (t :: new).
    rewrite <- app_assoc. simpl. repeat split; try assumption; try lia.
    now rewrite Nat.add_1_r in Hn.
Qed.

Lemma plan_phases_numbered sid recs phases : forall tasks c tasks' c',
  plan_phases sid recs phases tasks c = Some (tasks', c') ->
  exists new,
    tasks' = tasks ++ new /\ numbered sid recs c (jobs phases) new.
Proof.
  induction phases as [|ph phases IH]; intros tasks c tasks' c' H; simpl in H.
  - inversion H; subst. exists []. now rewrite app_nil_r.
  - destruct (plan_phase sid recs ph (Analyzer.tasks ph) tasks c)
      as [[tasks1 c1]|] eqn:H1; [|discriminate].
    apply plan_phase_numbered in H1 as (new1 & -> & -> & Hn1).
    apply IH in H as (new2 & -> & Hn2). exists (new1 ++ new2).
    rewrite app_assoc. split; [reflexivity|]. simpl.
    apply numbered_app; [assumption|]. now rewrite length_map.
Qed.

(** Recommendations whose agent is a member of [AgentType]. *)
Definition known (recs : list Analyzer.AgentRecommendation) : Prop :=
  Forall (fun rec => AgentType_of_value (Analyzer.agent_type rec) <> None)
         recs.

Lemma _determine_agent_type_known recs task_desc :
  known recs -> AgentType_of_value (_determine_agent_type task_desc recs) <> None.
Proof.
  intros K. unfold _determine_agent_type.
  destruct (find _ recs) as [rec|] eqn:Hf.
  - apply find_some in Hf as [Hin _].
    exact (proj1 (Forall_forall _ _) K rec Hin).
  - repeat match goal with |- context [if ?b then _ else _] => destruct b end;
      discriminate.
Qed.

Lemma plan_task_total sid recs ph c d :
  known recs -> exists t, plan_task sid recs ph c d = Some t.
Proof.
  intros K. unfold plan_task.
  destruct (AgentType_of_value (_determine_agent_type d recs)) eqn:Ha.
  - eexists. reflexivity.
  - now apply _determine_agent_type_known in Ha.
Qed.

Lemma plan_phase_total sid recs ph descs : forall tasks c,
  known recs -> exists res, plan_phase sid recs ph descs tasks c = Some res.
Proof.
  induction descs as [|d descs IH]; intros tasks c K; simpl.
  - eexists. reflexivity.
  - destruct (plan_task_total sid recs ph c d K) as [t ->]. now apply IH.
Qed.

Lemma plan_phases_total sid recs phases : forall tasks c,
  known recs -> exists res, plan_phases sid recs phases tasks c = Some res.
Proof.
  induction phases as [|ph phases IH]; intros tasks c K; simpl.
  - eexists. reflexivity.
  - destruct (plan_phase_total sid recs ph (Analyzer.tasks ph) tasks c K)
      as [[tasks1 c1] ->]. now apply IH.
Qed.

Lemma recommend_for_known d req : known (Analyzer.recommend_for d req).
Proof.
  unfold Analyzer.recommend_for.
  repeat match goal with |- context [if ?b then _ else _] => destruct b end;
    repeat constructor; discriminate.
Qed.

Lemma _recommend_agents_known reqs d : known (Analyzer._recommend_agents reqs d).
Proof.
  unfold Analyzer._recommend_agents, known. apply Forall_app. split.
  - destruct (_ || _); repeat constructor. discriminate.
  - induction reqs as [|req reqs IH]; simpl; [constructor|].
    apply Forall_app. split; [apply recommend_for_known | exact IH].
Qed.

(** [create_task_plan] does not raise: every agent name it converts is the
    value of a member of [AgentType]. *)
Lemma create_task_plan_numbered sid d :
  exists plan,
    create_task_plan sid d = Some plan
    /\ numbered sid
         (Analyzer.agent_recommendations (Analyzer.analyze_workflow d)) 1
         (jobs (Analyzer.execution_plan (Analyzer.analyze_workflow d))) plan.
Proof.
  unfold create_task_plan.
  set (a := Analyzer.analyze_workflow d).
  destruct (plan_phases_total sid (Analyzer.agent_recommendations a)
              (Analyzer.execution_plan a) [] 1) as [[plan c] Hp].
  { apply _recommend_agents_known. }
  rewrite Hp. exists plan. split; [reflexivity|].
  now apply plan_phases_numbered in Hp as (new & -> & Hn).
Qed.

(** What [plan_task] fixes whatever the description is. *)
Record blank (sid : string) (c : nat) (d : string) (t : PlannedTask)
  : Prop := {
  bl_id : task_id (core t) = task_name sid c;
  bl_description : description (core t) = d;
  bl_dependencies :
    dependencies (core t) = _extract_dependencies sid c;
  bl_status : status (core t) = PENDING;
  bl_priority : priority (core t) = HIGH;
  bl_budget : max_retry_attempts (core t) = 3%Z;
  bl_retry : retry_count (core t) = 0%Z;
  bl_errors : error_log (core t) = [];
  bl_progress : progress (core t) = 0%Z;
  bl_results : results (core t) = None
}.

Lemma plan_task_blank sid recs ph c d t :
  plan_task sid recs ph c d = Some t -> blank sid c d t.
Proof.
  unfold plan_task. destruct (AgentType_of_value _); [|discriminate].
  intros H. inversion H; subst. now constructor.
Qed.

Lemma numbered_nth sid recs js : forall c new k t,
  numbered sid recs c js new -> nth_error new k = Some t ->
  exists ph d, nth_error js k = Some (ph, d) /\ blank sid (c + k) d t.
Proof.
  induction js as [|[ph d] js IH]; intros c [|t0 new] k t H Hk;
    try contradiction.
  - destruct k; discriminate.
  - destruct H as [Ht H]. destruct k as [|k]; simpl in Hk.
    + inversion Hk; subst. exists ph, d. rewrite Nat.add_0_r.
      split; [reflexivity | now apply (plan_task_blank _ recs ph)].
    + destruct (IH (S c) new k t H Hk) as (ph' & d' & Hj & B).
      exists ph', d'. rewrite Nat.add_succ_r. now split.
Qed.

Lemma numbered_ids sid recs js : forall c new,
  numbered sid recs c js new ->
  map (fun t => task_id (core t)) new
  = map (task_name sid) (seq c (List.length new)).
Proof.
  induction js as [|[ph d] js IH]; intros c [|t new] H; try contradiction.
  - reflexivity.
  - destruct H as [Ht H]. simpl. f_equal.
    + exact (bl_id _ _ _ _ (plan_task_blank _ _ _ _ _ _ Ht)).
    + now apply IH.
Qed.

Lemma numbered_descriptions sid recs js : forall c new,
  numbered sid recs c js new ->
  map (fun t => description (core t)) new = map snd js.
Proof.
  induction js as [|[ph d] js IH]; intros c [|t new] H; try contradiction.
  - reflexivity.
  - destruct H as [Ht H]. simpl. f_equal.
    + exact (bl_description _ _ _ _ (plan_task_blank _ _ _ _ _ _ Ht)).
    + now apply (IH (S c)).
Qed.

Lemma NoDup_task_names sid l : NoDup l -> NoDup (map (task_name sid) l).
Proof.
  induction 1 as [|x l Hx Hnd IH]; simpl; constructor; [|assumption].
  rewrite in_map_iff. intros [y [Hy Hin]].
  apply task_name_inj in Hy. now subst.
Qed.

(** ** The analysis as a function of the keyword tests *)

(** The recommendations for the outcomes of the five keyword tests. *)
Definition recommended (security development analysis research rust : bool)
  : list Analyzer.AgentRecommendation :=
  (if Nat.ltb 2 (Nat.b2n security + Nat.b2n development
                 + Nat.b2n analysis + Nat.b2n research)
   then [Analyzer.orchestrator_recommendation] else [])
  ++ (if security then [Analyzer.security_recommendation] else [])
  ++ (if development && rust then [Analyzer.rust_recommendation] else [])
  ++ (if analysis then [Analyzer.analyzer_recommendation] else [])
  ++ (if research then [Analyzer.locator_recommendation] else []).

Lemma _recommend_agents_flags d (b1 b2 b3 b4 : bool) :
  Analyzer._recommend_agents
    ((if b1 then [Analyzer.security_requirement] else [])
     ++ (if b2 then [Analyzer.development_requirement] else [])
     ++ (if b3 then [Analyzer.analysis_requirement] else [])
     ++ (if b4 then [Analyzer.research_requirement] else [])) d
  = recommended b1 b2 b3 b4 (contains "rust" (lower d)).
Proof.
  unfold Analyzer._recommend_agents, Analyzer.recommend_for, recommended.
  destruct b1, b2, b3, b4; cbn; try reflexivity;
    destruct (contains "rust" (lower d)); reflexivity.
Qed.

Lemma _estimate_complexity_flags (b1 b2 b3 b4 : bool) :
  Analyzer._estimate_complexity
    ((if b1 then [Analyzer.security_requirement] else [])
     ++ (if b2 then [Analyzer.development_requirement] else [])
     ++ (if b3 then [Analyzer.analysis_requirement] else [])
     ++ (if b4 then [Analyzer.research_requirement] else []))
  = if b1 || b2 then "moderate" else "simple".
Proof. destruct b1, b2, b3, b4; reflexivity. Qed.

Lemma jobs_flags (b1 b2 b3 b4 b5 : bool) :
  map snd (jobs (Analyzer._generate_execution_plan
                   (recommended b1 b2 b3 b4 b5)))
  = (if b3 then ["Execute discovery using codebase-analyzer"] else [])
    ++ (if b4 then ["Execute discovery using codebase-locator"] else [])
    ++ (if b2 && b5
        then ["Execute implementation using rust-expert-developer"] else [])
    ++ (if b1 then ["Execute validation using security-specialist"] else [])
    ++ ["Final integration"; "Documentation"; "Deployment preparation"].
Proof. destruct b1, b2, b3, b4, b5; reflexivity. Qed.

Lemma coordination_flags (b1 b2 b3 b4 b5 : bool) :
  let c := Analyzer._plan_coordination (recommended b1 b2 b3 b4 b5) in
  Analyzer.coordinator c = "orchestrator"
  /\ map Analyzer.flow_from (Analyzer.communication_flow c)
     = map (fun _ => "orchestrator") (Analyzer.communication_flow c)
  /\ map Analyzer.flow_to (Analyzer.communication_flow c)
     = map Analyzer.agent_type
           ((if b1 then [Analyzer.security_recommendation] else [])
            ++ (if b2 && b5 then [Analyzer.rust_recommendation] else [])
            ++ (if b3 then [Analyzer.analyzer_recommendation] else [])
            ++ (if b4 then [Analyzer.locator_recommendation] else [])).
Proof. destruct b1, b2, b3, b4, b5; repeat split. Qed.

(** What a task of a plan can be: its agent fixes its description, its
    skills, its commands and its timeout. *)
Definition assignment (t : PlannedTask) : Prop :=
  match agent_type (core t) with
  | ORCHESTRATOR =>
      In (description (core t))
         ["Final integration"; "Documentation"; "Deployment preparation"]
      /\ expected_deliverables (core t)
         = ["Complete solution"; "Documentation"; "Deployment guide"]
      /\ skills_required t = [] /\ commands_to_execute t = []
      /\ timeout_minutes t = 15%Z
  | CODEBASE_ANALYZER =>
      description (core t) = "Execute discovery using codebase-analyzer"
      /\ expected_deliverables (core t)
         = ["Requirements analysis"; "Implementation strategy"]
      /\ skills_required t = ["code-analysis-planning-editor"]
      /\ commands_to_execute t = ["/research_codebase"]
      /\ timeout_minutes t = 15%Z
  | CODEBASE_LOCATOR =>
      description (core t) = "Execute discovery using codebase-locator"
      /\ expected_deliverables (core t)
         = ["Requirements analysis"; "Implementation strategy"]
      /\ skills_required t = ["search-strategies"]
      /\ commands_to_execute t = ["/smart-research"]
      /\ timeout_minutes t = 15%Z
  | RUST_EXPERT_DEVELOPER =>
      description (core t)
      = "Execute implementation using rust-expert-developer"
      /\ expected_deliverables (core t)
         = ["Working implementation"; "Initial testing"]
      /\ skills_required t = ["rust-backend-patterns"; "production-patterns"]
      /\ commands_to_execute t = ["/rust_scaffold"; "/feature_development"]
      /\ timeout_minutes t = 45%Z
  | SECURITY_SPECIALIST =>
      description (core t) = "Execute validation using security-specialist"
      /\ expected_deliverables (core t)
         = ["Security validation"; "Quality assurance"]
      /\ skills_required t = ["security-patterns"]
      /\ commands_to_execute t = ["/security_sast"; "/security_hardening"]
      /\ timeout_minutes t = 30%Z
  | PROJECT_ORGANIZER | BACKEND_ARCHITECT | COMPETITIVE_MARKET_ANALYST
  | WEB_SEARCH_RESEARCHER => False
  end.

Lemma assignment_flags sid (b1 b2 b3 b4 b5 : bool) plan c :
  plan_phases sid (recommended b1 b2 b3 b4 b5)
    (Analyzer._generate_execution_plan (recommended b1 b2 b3 b4 b5)) [] 1
  = Some (plan, c) ->
  Forall assignment plan.
Proof.
  destruct b1, b2, b3, b4, b5; intros H; vm_compute in H;
    injection H as <- _;
    repeat (apply Forall_cons; [cbv; tauto|]); apply Forall_nil.
Qed.

Lemma analysis_flags d :
  Analyzer.agent_recommendations (Analyzer.analyze_workflow d)
  = recommended
      (any_in ["security"; "secure"; "audit"; "compliance"] (lower d))
      (any_in ["implement"; "build"; "create"; "develop"] (lower d))
      (any_in ["analyze"; "understand"; "review"; "examine"] (lower d))
      (any_in ["research"; "investigate"; "find"; "discover"] (lower d))
      (contains "rust" (lower d)).
Proof. exact (_recommend_agents_flags d _ _ _ _). Qed.

Lemma execution_plan_flags d :
  Analyzer.execution_plan (Analyzer.analyze_workflow d)
  = Analyzer._generate_execution_plan
      (Analyzer.agent_recommendations (Analyzer.analyze_workflow d)).
Proof. reflexivity. Qed.

(** ** What the analyzer answers *)

(** X12.  The recommendations are fixed by five keyword tests on the lowered
    description.  The orchestrator is recommended exactly when at least
    three of the four kinds of requirement are found; the specialists follow
    in the order security, Rust, analysis, research; a development
    requirement brings an agent only when the description mentions rust. *)
Theorem recommendations_by_keywords d :
  Analyzer.agent_recommendations (Analyzer.analyze_workflow d)
  = recommended
      (any_in ["security"; "secure"; "audit"; "compliance"] (lower d))
      (any_in ["implement"; "build"; "create"; "develop"] (lower d))
      (any_in ["analyze"; "understand"; "review"; "examine"] (lower d))
      (any_in ["research"; "investigate"; "find"; "discover"] (lower d))
      (contains "rust" (lower d)).
Proof. exact (_recommend_agents_flags d _ _ _ _). Qed.

(** X13.  The estimated complexity is never ["complex"]: it is ["moderate"]
    when a security or a development keyword occurs in the description and
    ["simple"] otherwise. *)
Theorem complexity_never_complex d :
  Analyzer.estimated_complexity (Analyzer.analyze_workflow d)
  = (if any_in ["security"; "secure"; "audit"; "compliance"] (lower d)
        || any_in ["implement"; "build"; "create"; "develop"] (lower d)
     then "moderate" else "simple")
  /\ Analyzer.estimated_complexity (Analyzer.analyze_workflow d) <> "complex".
Proof.
  assert (E : Analyzer.estimated_complexity (Analyzer.analyze_workflow d)
              = if any_in ["security"; "secure"; "audit"; "compliance"]
                          (lower d)
                   || any_in ["implement"; "build"; "create"; "develop"]
                             (lower d)
                then "moderate" else "simple")
    by exact (_estimate_complexity_flags _ _ _ _).
  split; [exact E|]. rewrite E. destruct (_ || _); discriminate.
Qed.


(** ** What [create_task_plan] builds *)

Lemma plan_never_raises_bounds sid d plan :
  create_task_plan sid d = Some plan -> 3 <= List.length plan <= 7.
Proof.
  intros Hp. destruct (create_task_plan_numbered sid d) as (plan' & Hp' & Hn).
  rewrite Hp in Hp'. inversion Hp'; subst plan'.
  rewrite (numbered_length _ _ _ _ _ Hn), <- (length_map snd).
  rewrite execution_plan_flags, analysis_flags, jobs_flags.
  repeat match goal with |- context [if ?b then _ else _] => destruct b end;
    simpl; lia.
Qed.

(** X15.  [create_task_plan] returns a plan for every session identifier and
    every workflow description: the conversion [AgentType(agent_type)] never
    raises.  The plan has between three and seven tasks. *)
Theorem plan_never_raises sid d :
  exists plan,
    create_task_plan sid d = Some plan
    /\ 3 <= List.length plan <= 7.
Proof.
  destruct (create_task_plan_numbered sid d) as (plan & Hp & Hn).
  exists plan. split; [assumption|]. now apply (plan_never_raises_bounds sid d).
Qed.

(** X16.  The tasks of a plan form one chain.  The task at position [k]
    (from 0) is named [<session>_task_<k+1>] with the number padded to three
    digits; the first task depends on nothing and every other task on the
    task just before it, and on nothing else; the names are pairwise
    distinct; every task starts pending, with high priority, a budget of
    three attempts, no retry and no error recorded. *)
Theorem plan_is_a_chain sid d :
  exists plan,
    create_task_plan sid d = Some plan
    /\ NoDup (map (fun t => task_id (core t)) plan)
    /\ forall k t, nth_error plan k = Some t ->
         task_id (core t) = (sid ++ "_task_" ++ format_03d (S k))%string
         /\ dependencies (core t)
            = match k with
              | 0 => []
              | S _ => [(sid ++ "_task_" ++ format_03d k)%string]
              end
         /\ status (core t) = PENDING
         /\ priority (core t) = HIGH
         /\ max_retry_attempts (core t) = 3%Z
         /\ retry_count (core t) = 0%Z
         /\ error_log (core t) = [].
Proof.
  destruct (create_task_plan_numbered sid d) as (plan & Hp & Hn).
  exists plan. split; [assumption|]. split.
  - rewrite (numbered_ids _ _ _ _ _ Hn).
    apply NoDup_task_names, seq_NoDup.
  - intros k t Hk.
    destruct (numbered_nth _ _ _ _ _ _ _ Hn Hk) as (ph & d' & _ & B).
    destruct B as [B1 B2 B3 B4 B5 B6 B7 B8 B9 B10].
    repeat split; try assumption.
    rewrite B3. unfold _extract_dependencies.
    destruct k as [|k]; [reflexivity|].
    replace (Nat.ltb 1 (1 + S k)) with true
      by (symmetry; apply Nat.ltb_lt; lia).
    now replace (1 + S k - 1) with (S k) by lia.
Qed.

(** X17.  The descriptions of a plan, in order, are fixed by the keyword
    tests: a discovery task for the analyzer, one for the locator, an
    implementation task (only when a development keyword and rust both
    occur), a validation task, and always the three closing tasks. *)
Theorem plan_descriptions sid d :
  exists plan,
    create_task_plan sid d = Some plan
    /\ map (fun t => description (core t)) plan
       = (if any_in ["analyze"; "understand"; "review"; "examine"] (lower d)
          then ["Execute discovery using codebase-analyzer"] else [])
         ++ (if any_in ["research"; "investigate"; "find"; "discover"]
                       (lower d)
             then ["Execute discovery using codebase-locator"] else [])
         ++ (if any_in ["implement"; "build"; "create"; "develop"] (lower d)
                && contains "rust" (lower d)
             then ["Execute implementation using rust-expert-developer"]
             else [])
         ++ (if any_in ["security"; "secure"; "audit"; "compliance"]
                       (lower d)
             then ["Execute validation using security-specialist"] else [])
         ++ ["Final integration"; "Documentation"; "Deployment preparation"].
Proof.
  destruct (create_task_plan_numbered sid d) as (plan & Hp & Hn).
  exists plan. split; [assumption|].
  rewrite (numbered_descriptions _ _ _ _ _ Hn).
  rewrite execution_plan_flags, analysis_flags. apply jobs_flags.
Qed.

(** X18.  Every task of a plan is one of five kinds, told by its agent: a
    closing task of the orchestrator (no skills, no commands, 15 minutes), a
    discovery task of the analyzer or of the locator (15 minutes), the
    implementation task of the Rust developer (45 minutes) or the validation
    task of the security specialist (30 minutes), each with the skills and
    commands of its recommendation and the deliverables of its phase.  No
    task goes to the project organizer, the backend architect, the market
    analyst or the web researcher. *)
Theorem plan_assignments sid d :
  exists plan,
    create_task_plan sid d = Some plan /\ Forall assignment plan.
Proof.
  unfold create_task_plan.
  destruct (plan_phases_total sid
              (Analyzer.agent_recommendations (Analyzer.analyze_workflow d))
              (Analyzer.execution_plan (Analyzer.analyze_workflow d)) [] 1)
    as [[plan c] Hp]; [apply _recommend_agents_known|].
  rewrite Hp. exists plan. split; [reflexivity|].
  rewrite execution_plan_flags, analysis_flags in Hp.
  exact (assignment_flags _ _ _ _ _ _ _ _ Hp).
Qed.

(** ** Running a created plan *)

Lemma map_heap_of_aux {A} (f : AutonomousTask -> A) l : forall pre,
  map (fun r => f (nth r (pre ++ l) blank_task))
      (seq (List.length pre) (List.length l))
  = map f l.
Proof.
  induction l as [|t l IH]; intros pre; [reflexivity|].
  simpl. rewrite nth_middle. f_equal.
  specialize (IH (pre ++ [t])).
  rewrite <- app_assoc, length_app, Nat.add_1_r in IH. exact IH.
Qed.

Lemma map_heap_of {A} (f : AutonomousTask -> A) l :
  map (fun r => f (heap_of l r)) (refs_of l) = map f l.
Proof. exact (map_heap_of_aux f l []). Qed.

Lemma heap_of_refs l : map (heap_of l) (refs_of l) = l.
Proof.
  transitivity (map (fun t : AutonomousTask => t) l); [|apply map_id].
  exact (map_heap_of (fun t => t) l).
Qed.

Lemma heap_of_In l r : In r (refs_of l) -> In (heap_of l r) l.
Proof.
  unfold refs_of, heap_of. rewrite in_seq. intros [_ H]. now apply nth_In.
Qed.

Fixpoint ordered_tasks (seen : list string) (l : list AutonomousTask)
  : bool :=
  match l with
  | [] => true
  | t :: l' =>
      forallb (fun d => mem_string d seen) (dependencies t)
      && ordered_tasks (task_id t :: seen) l'
  end.

Lemma deps_ordered_map h refs : forall seen,
  deps_ordered h seen refs = ordered_tasks seen (map h refs).
Proof.
  induction refs as [|r refs IH]; intros seen; simpl; [reflexivity|].
  now rewrite IH.
Qed.

Lemma numbered_ordered sid recs js : forall c new seen,
  numbered sid recs c js new ->
  (1 < c -> In (task_name sid (c - 1)) seen) ->
  ordered_tasks seen (map core new) = true.
Proof.
  induction js as [|[ph d] js IH]; intros c [|t new] seen H Hc;
    try contradiction; [reflexivity|].
  destruct H as [Ht H]. apply plan_task_blank in Ht.
  simpl. rewrite (bl_dependencies _ _ _ _ Ht), (bl_id _ _ _ _ Ht).
  apply andb_true_iff. split.
  - unfold _extract_dependencies. destruct (Nat.ltb 1 c) eqn:E; [|reflexivity].
    simpl. rewrite andb_true_r. apply mem_string_In, Hc.
    now apply Nat.ltb_lt.
  - apply (IH (S c)); [assumption|]. intros _. left. f_equal. lia.
Qed.

Lemma numbered_blank sid recs js : forall c new t,
  numbered sid recs c js new -> In t new -> exists c' d', blank sid c' d' t.
Proof.
  intros c new t Hn Hin. apply In_nth_error in Hin as [k Hk].
  destruct (numbered_nth _ _ _ _ _ _ _ Hn Hk) as (ph & d & _ & B).
  now exists (c + k), d.
Qed.

Section CreatedPlans.
Variables (sid d : string) (plan : list PlannedTask).
Hypothesis created :
  numbered sid (Analyzer.agent_recommendations (Analyzer.analyze_workflow d))
           1 (jobs (Analyzer.execution_plan (Analyzer.analyze_workflow d)))
           plan.

Lemma created_unique_ids :
  NoDup (map (fun r => task_id (heap_of (map core plan) r))
             (refs_of (map core plan))).
Proof.
  rewrite (map_heap_of task_id), map_map.
  rewrite (numbered_ids _ _ _ _ _ created).
  apply NoDup_task_names, seq_NoDup.
Qed.

Lemma created_all_pending r :
  In r (refs_of (map core plan)) ->
  status (heap_of (map core plan) r) = PENDING.
Proof.
  intros Hr. apply heap_of_In in Hr.
  apply in_map_iff in Hr as [t [Ht Hin]]. rewrite <- Ht.
  destruct (numbered_blank _ _ _ _ _ _ created Hin) as (c' & d' & B).
  exact (bl_status _ _ _ _ B).
Qed.

Lemma created_ordered :
  deps_ordered (heap_of (map core plan)) [] (refs_of (map core plan)) = true.
Proof.
  rewrite deps_ordered_map, heap_of_refs.
  apply (numbered_ordered _ _ _ _ _ _ created). lia.
Qed.

Lemma created_attempts_left :
  total_attempts_left (heap_of (map core plan)) (refs_of (map core plan))
  = 3 * List.length plan.
Proof.
  unfold total_attempts_left. rewrite (map_heap_of attempts_left), map_map.
  assert (H : forall t, In t plan -> attempts_left (core t) = 3).
  { intros t Hin.
    destruct (numbered_blank _ _ _ _ _ _ created Hin) as (c' & d' & B).
    unfold attempts_left.
    now rewrite (bl_budget _ _ _ _ B), (bl_retry _ _ _ _ B). }
  clear created. induction plan as [|t l IH]; [reflexivity|].
  simpl. rewrite (H t (or_introl eq_refl)), IH; [lia|].
  intros x Hx. apply H. now right.
Qed.

End CreatedPlans.

Section RunningPlans.
Context {World : Type}.

(** X19.  Running the plan created for a description always ends.  Whatever
    the work does, the run of [add_tasks(create_task_plan(...))] returns
    within 21 iterations of the loop; every task is then completed or failed,
    and the final report and the exported summary both count all of them, at
    least three, so the rates the project script computes from either never
    divide by zero. *)
Theorem created_plan_terminates sid d (callbacks : list (Callback World))
        work (w : World) extra :
  exists plan report m' w',
    create_task_plan sid d = Some plan
    /\ start_autonomous_execution work (21 + extra)
         (new_session sid (heap_of (map core plan)) callbacks
                      (refs_of (map core plan))) w
       = Returned report m' w'
    /\ (forall r, In r (refs_of (map core plan)) ->
                  status (heap m' r) = COMPLETED
                  \/ status (heap m' r) = FAILED)
    /\ Report.total_tasks report = List.length plan
    /\ Summary.total_tasks (export_execution_summary m') = List.length plan
    /\ 3 <= List.length plan.
Proof.
  destruct (create_task_plan_numbered sid d) as (plan & Hp & Hn).
  destruct (plan_never_raises_bounds sid d plan Hp) as [Hlo Hhi].
  destruct (ordered_plan_returns
              (heap_of (map core plan)) (refs_of (map core plan))
              (created_unique_ids sid d plan Hn)
              (created_all_pending sid d plan Hn)
              (created_ordered sid d plan Hn)
              sid callbacks work w (21 + extra))
    as (report & m' & w' & Hrun & Hperm & Hfin & Htot).
  { rewrite (created_attempts_left sid d plan Hn). lia. }
  exists plan, report, m', w'.
  assert (Hlen : List.length (refs_of (map core plan)) = List.length plan)
    by (unfold refs_of; now rewrite length_seq, length_map).
  rewrite Hlen in Htot. repeat split; try assumption.
  cbn [export_execution_summary Summary.total_tasks].
  now rewrite (Permutation_length Hperm).
Qed.

(** X20.  With the simulated execution of [_execute_task], which never
    raises, the plan created for a description runs to full success within
    seven iterations: every task is completed, and the final report shows
    all tasks completed and none failed. *)
Theorem created_plan_succeeds sid d (callbacks : list (Callback World))
        (w : World) extra :
  exists plan report m' w',
    create_task_plan sid d = Some plan
    /\ start_autonomous_execution always_succeeds (7 + extra)
         (new_session sid (heap_of (map core plan)) callbacks
                      (refs_of (map core plan))) w
       = Returned report m' w'
    /\ (forall r, In r (refs_of (map core plan)) ->
                  status (heap m' r) = COMPLETED)
    /\ Report.completed_tasks report = List.length plan
    /\ Report.failed_tasks report = 0.
Proof.
  destruct (create_task_plan_numbered sid d) as (plan & Hp & Hn).
  destruct (plan_never_raises_bounds sid d plan Hp) as [Hlo Hhi].
  assert (Hlen : List.length (refs_of (map core plan)) = List.length plan)
    by (unfold refs_of; now rewrite length_seq, length_map).
  destruct (successful_plan_returns
              (heap_of (map core plan)) (refs_of (map core plan))
              (created_unique_ids sid d plan Hn)
              (created_all_pending sid d plan Hn)
              (created_ordered sid d plan Hn)
              always_succeeds (fun _ => eq_refl)
              sid callbacks w (7 + extra))
    as (report & m' & w' & Hrun & Hfin & _ & Hc & Hf).
  { rewrite Hlen. lia. }
  exists plan, report, m', w'. rewrite Hlen in Hc. now repeat split.
Qed.

End RunningPlans.

(** * The agent caller of [scripts/core/agent_caller.py]

    [AgentCaller] keeps the history of the trackers it hands out.  The two
    clock readings of [call_agent], [int(time.time())] and
    [time.strftime(...)], are inputs of the model; what the methods print is
    not modelled.  The tracker [call_agent] returns is the object it appended
    to the history, and nothing in the repository assigns to a tracker after
    [call_agent] has returned, so the history holds trackers by value. *)

Module Caller.

Record TaskProgress : Set := mkProgress {
  task_id : string;
  agent_type : AgentType;
  status : string;
  progress : Z;
  checkpoint : string;
  started_at : string;
  completed_at : option string;
  results : option (list (string * string));
  errors : option (list string)
}.

Definition with_status (s : string) (p : TaskProgress) : TaskProgress :=
  mkProgress (task_id p) (agent_type p) s (progress p) (checkpoint p)
             (started_at p) (completed_at p) (results p) (errors p).

Definition with_checkpoint (s : string) (p : TaskProgress) : TaskProgress :=
  mkProgress (task_id p) (agent_type p) (status p) (progress p) s
             (started_at p) (completed_at p) (results p) (errors p).

Record AgentCaller : Set := mkCaller {
  session_id : string;
  task_history : list TaskProgress
}.

(** [__init__] *)
Definition init (now : nat) : AgentCaller :=
  mkCaller ("session_" ++ format_d now)%string [].

(** [call_agent].  [if not task_id] holds for [None] and for the empty
    string.  The prompt only goes into what is printed. *)
Definition call_agent (agent_type : AgentType) (prompt : string)
           (task_id : option string) (now : nat) (clock : string)
           (c : AgentCaller) : AgentCaller * TaskProgress :=
  let task_id :=
    match task_id with
    | None | Some EmptyString => ("task_" ++ format_d now)%string
    | Some given => given
    end in
  let progress :=
    mkProgress task_id agent_type "pending" 0 "Initializing agent call"
               clock None None None in
  let progress :=
    with_checkpoint "Agent invoked, awaiting response"
                    (with_status "in_progress" progress) in
  (mkCaller (session_id c) (task_history c ++ [progress]), progress).

Definition newline : string := String (ascii_of_nat 10) EmptyString.

(** [call_orchestrator] *)
Definition call_orchestrator (workflow_description : string)
           (agents_needed : list AgentType) (task_breakdown : list string)
           (now : nat) (clock : string) (c : AgentCaller)
  : AgentCaller * TaskProgress :=
  let agents_list := map AgentType_value agents_needed in
  let tasks_formatted :=
    String.concat newline
                  (map (fun task => ("- " ++ task)%string) task_breakdown) in
  let prompt :=
    String.concat newline
      [ ("coordinate a comprehensive workflow for: "
         ++ workflow_description)%string;
        EmptyString;
        ("Required agents for coordination: "
         ++ String.concat ", " agents_list)%string;
        EmptyString;
        "Task breakdown:";
        tasks_formatted;
        EmptyString;
        "Please provide:";
        "1. Detailed execution plan with checkboxes";
        "2. Agent coordination strategy  ";
        "3. Progress checkpoints (25%, 50%, 75%, 100%)";
        "4. Resource and timeline estimates";
        "5. Quality gates and validation steps" ] in
  call_agent ORCHESTRATOR prompt None now clock c.

(** [get_task_status]: the first tracker with that identifier. *)
Definition get_task_status (wanted : string) (c : AgentCaller)
  : option TaskProgress :=
  find (fun task => task_id task =? wanted) (task_history c).

Definition list_active_tasks (c : AgentCaller) : list TaskProgress :=
  filter (fun task => status task =? "in_progress") (task_history c).

Record HistoryRow : Set := mkRow {
  row_task_id : string;
  row_agent_type : string;
  row_status : string;
  row_progress : Z;
  row_started_at : string;
  row_completed_at : option string
}.

Record SessionReport : Set := mkReport {
  report_session_id : string;
  total_tasks : nat;
  completed_tasks : nat;
  failed_tasks : nat;
  report_task_history : list HistoryRow
}.

Definition export_session_report (c : AgentCaller) : SessionReport :=
  mkReport (session_id c)
    (List.length (task_history c))
    (List.length (filter (fun t => status t =? "completed") (task_history c)))
    (List.length (filter (fun t => status t =? "failed") (task_history c)))
    (map (fun t => mkRow (task_id t) (AgentType_value (agent_type t))
                         (status t) (progress t) (started_at t)
                         (completed_at t))
         (task_history c)).

(** A use of the caller: one call of either kind, with its clock
    readings. *)
Inductive Call : Set :=
| CallAgent (agent_type : AgentType) (prompt : string)
            (task_id : option string) (now : nat) (clock : string)
| CallOrchestrator (workflow_description : string)
                   (agents_needed : list AgentType)
                   (task_breakdown : list string) (now : nat) (clock : string).

Definition perform (c : AgentCaller) (call : Call) : AgentCaller :=
  match call with
  | CallAgent a p i now clock => fst (call_agent a p i now clock c)
  | CallOrchestrator d agents breakdown now clock =>
      fst (call_orchestrator d agents breakdown now clock c)
  end.

Definition session (started : nat) (calls : list Call) : AgentCaller :=
  fold_left perform calls (init started).

End Caller.

Lemma call_agent_history a p i now clock c :
  Caller.task_history (fst (Caller.call_agent a p i now clock c))
  = Caller.task_history c ++ [snd (Caller.call_agent a p i now clock c)]
  /\ Caller.status (snd (Caller.call_agent a p i now clock c)) = "in_progress".
Proof. split; reflexivity. Qed.

Lemma perform_history c call :
  exists p,
    Caller.task_history (Caller.perform c call) = Caller.task_history c ++ [p]
    /\ Caller.status p = "in_progress".
Proof.
  destruct call as [a p i now clock|d agents breakdown now clock];
    eexists; split; reflexivity.
Qed.

Lemma fold_perform_history calls : forall c,
  Forall (fun p => Caller.status p = "in_progress") (Caller.task_history c) ->
  Forall (fun p => Caller.status p = "in_progress")
         (Caller.task_history (fold_left Caller.perform calls c))
  /\ List.length (Caller.task_history (fold_left Caller.perform calls c))
     = List.length (Caller.task_history c) + List.length calls.
Proof.
  induction calls as [|call calls IH]; intros c H; simpl.
  - split; [assumption | lia].
  - destruct (perform_history c call) as (p & Hh & Hs).
    destruct (IH (Caller.perform c call)) as [IH1 IH2].
    { rewrite Hh. apply Forall_app. split; [assumption|]. now constructor. }
    split; [assumption|]. rewrite IH2, Hh, length_app. simpl. lia.
Qed.

Lemma filter_status_all (s : string) l :
  Forall (fun p => Caller.status p = s) l ->
  forall s', filter (fun p => Caller.status p =? s') l
             = if s =? s' then l else [].
Proof.
  intros H s'. induction H as [|p l Hp Hl IH]; simpl.
  - now destruct (s =? s').
  - rewrite Hp, IH. now destruct (s =? s').
Qed.

(** X21.  Nothing ever leaves the state in progress.  After any sequence of calls
    to [call_agent] and [call_orchestrator] on a fresh caller, every tracker
    of the history is active, so [list_active_tasks] is the whole history,
    and the session report counts as many tasks as calls were made, none of
    them completed and none failed. *)
Theorem trackers_stay_in_progress started calls :
  let c := Caller.session started calls in
  Caller.list_active_tasks c = Caller.task_history c
  /\ Caller.total_tasks (Caller.export_session_report c) = List.length calls
  /\ Caller.completed_tasks (Caller.export_session_report c) = 0
  /\ Caller.failed_tasks (Caller.export_session_report c) = 0.
Proof.
  intros c. subst c. unfold Caller.session.
  destruct (fold_perform_history calls (Caller.init started)) as [Hall Hlen];
    [constructor|].
  pose proof (filter_status_all "in_progress" _ Hall) as F.
  unfold Caller.list_active_tasks, Caller.export_session_report. simpl.
  rewrite !F. repeat split. exact Hlen.
Qed.

Lemma find_app {A} (f : A -> bool) l1 l2 :
  find f (l1 ++ l2)
  = match find f l1 with Some x => Some x | None => find f l2 end.
Proof.
  induction l1 as [|x l1 IH]; simpl; [reflexivity|]. now destruct (f x).
Qed.

Lemma status_lookup_keeps_first_aux a p i now clock c :
  Caller.get_task_status
    (Caller.task_id (snd (Caller.call_agent a p i now clock c)))
    (fst (Caller.call_agent a p i now clock c))
  = match Caller.get_task_status
            (Caller.task_id (snd (Caller.call_agent a p i now clock c))) c with
    | Some old => Some old
    | None => Some (snd (Caller.call_agent a p i now clock c))
    end.
Proof.
  unfold Caller.get_task_status.
  destruct (call_agent_history a p i now clock c) as [-> _].
  rewrite find_app.
  destruct (find _ (Caller.task_history c)); [reflexivity|].
  simpl. now rewrite String.eqb_refl.
Qed.

(** X22.  [get_task_status] answers with the first call made under an
    identifier.  Right after a call, looking up the identifier of the
    tracker it returned gives that tracker only if the identifier was not in
    use; otherwise it still gives the older tracker, and the new one cannot
    be looked up.  Other identifiers are not affected. *)
Theorem status_lookup_keeps_first a p i now clock c wanted :
  let c' := fst (Caller.call_agent a p i now clock c) in
  let new := snd (Caller.call_agent a p i now clock c) in
  Caller.get_task_status (Caller.task_id new) c'
  = match Caller.get_task_status (Caller.task_id new) c with
    | Some old => Some old
    | None => Some new
    end
  /\ (wanted <> Caller.task_id new ->
      Caller.get_task_status wanted c' = Caller.get_task_status wanted c).
Proof.
  intros c' new. subst c' new. split.
  - apply status_lookup_keeps_first_aux.
  - unfold Caller.get_task_status.
    destruct (call_agent_history a p i now clock c) as [-> _].
    rewrite find_app.
    intros Hne. destruct (find _ (Caller.task_history c)); [reflexivity|].
    cbn [find]. apply String.eqb_neq in Hne. rewrite String.eqb_sym in Hne.
    now rewrite Hne.
Qed.

(** X23.  Two calls that give no identifier (or an empty one) during the same
    second of the clock get the same generated identifier, [task_<seconds>];
    the tracker of the second call is then shadowed: looking the identifier
    up never returns it unless it equals the first. *)
Theorem anonymous_calls_collide a1 p1 i1 a2 p2 i2 now clock1 clock2 c
        (anonymous1 : i1 = None \/ i1 = Some EmptyString)
        (anonymous2 : i2 = None \/ i2 = Some EmptyString) :
  let first := Caller.call_agent a1 p1 i1 now clock1 c in
  let second := Caller.call_agent a2 p2 i2 now clock2 (fst first) in
  Caller.task_id (snd first) = ("task_" ++ format_d now)%string
  /\ Caller.task_id (snd second) = Caller.task_id (snd first)
  /\ Caller.get_task_status (Caller.task_id (snd second)) (fst second)
     = match Caller.get_task_status (Caller.task_id (snd first)) c with
       | Some old => Some old
       | None => Some (snd first)
       end.
Proof.
  intros first second. subst first second.
  assert (E1 : Caller.task_id (snd (Caller.call_agent a1 p1 i1 now clock1 c))
               = ("task_" ++ format_d now)%string)
    by (destruct anonymous1; subst i1; reflexivity).
  assert (E2 : forall c0,
             Caller.task_id (snd (Caller.call_agent a2 p2 i2 now clock2 c0))
             = ("task_" ++ format_d now)%string)
    by (intros c0; destruct anonymous2; subst i2; reflexivity).
  split; [exact E1|]. split; [now rewrite E2, E1|].
  rewrite (status_lookup_keeps_first_aux a2 p2 i2 now clock2
             (fst (Caller.call_agent a1 p1 i1 now clock1 c))).
  rewrite E2, <- E1.
  rewrite (status_lookup_keeps_first_aux a1 p1 i1 now clock1 c).
  now destruct (Caller.get_task_status _ c).
Qed.

(** The two calls of the example at the end of [agent_caller.py], made
    within one second: an agent call, then an orchestration. *)
Lemma anonymous_calls_collide_witness :
  ((None : option string) = None \/ (None : option string) = Some EmptyString)
  /\ (Some EmptyString = None \/ Some EmptyString = Some EmptyString)
  /\ let first :=
        Caller.call_agent CODEBASE_ANALYZER "analyze" None 7 "now"
                          (Caller.init 7) in
      let second :=
        Caller.call_agent ORCHESTRATOR "coordinate" (Some EmptyString) 7 "now"
                          (fst first) in
      Caller.task_id (snd first) = ("task_" ++ format_d 7)%string
      /\ Caller.task_id (snd second) = Caller.task_id (snd first)
      /\ Caller.get_task_status (Caller.task_id (snd second)) (fst second)
         = match Caller.get_task_status (Caller.task_id (snd first))
                                        (Caller.init 7) with
           | Some old => Some old
           | None => Some (snd first)
           end.
Proof.
  assert (H1 : (None : option string) = None
               \/ (None : option string) = Some EmptyString)
    by (left; reflexivity).
  assert (H2 : Some EmptyString = None \/ Some EmptyString = Some EmptyString)
    by (right; reflexivity).
  split; [exact H1|]. split; [exact H2|].
  exact (anonymous_calls_collide CODEBASE_ANALYZER "analyze" None
           ORCHESTRATOR "coordinate" (Some EmptyString) 7 "now" "now"
           (Caller.init 7) H1 H2).
Defined.

(** In that example the orchestration cannot be looked up: its identifier
    leads to the tracker of the analyzer. *)
Example orchestration_is_shadowed :
  let first :=
    Caller.call_agent CODEBASE_ANALYZER "analyze" None 7 "now"
                      (Caller.init 7) in
  let second :=
    Caller.call_orchestrator "profile" [CODEBASE_LOCATOR] ["locate"] 7 "now"
                             (fst first) in
  Caller.task_id (snd second) = "task_7"
  /\ option_map Caller.agent_type
       (Caller.get_task_status "task_7" (fst second))
     = Some CODEBASE_ANALYZER.
Proof. vm_compute. split; reflexivity. Qed.
